(** * hmgo: the BidCoS protocol stack, embedded and verified

    A shallow embedding of the protocol core of the HomeMatic central
    control unit: the UARTGW byte stuffing ([uartgw]), the BidCoS packet
    codec ([bidcos]), the shared device behaviour ([hm]: parameter memory,
    configuration transaction, peering; [pairing]), the event decoders and
    program encoder ([heating], [thermal], [thermal_events], [power]) and
    the frames, command tables and session of the serial gateway
    ([uartgw_session]).

    Conventions.  A Go [byte] is a [Z] in [0, 256); arithmetic that can wrap
    is written with [wrap8].  A Go slice is a [list Z]; an index that Go
    would reject at run time makes the embedded function return [Panic].
    A [float64] is a [spec_float] of the Standard Library at precision 53,
    with the IEEE operations of [SpecFloat]. *)

From Stdlib Require Import ZArith Lia Bool List.
From Stdlib Require Import Floats.SpecFloat.
From stdpp Require Import base list.

Import ListNotations.
Local Open Scope Z_scope.

(** ** Bytes *)

Definition wrap8 (x : Z) : Z := x mod 256.

Definition is_byte (x : Z) : Prop := 0 <= x < 256.

Definition all_bytes (l : list Z) : Prop := Forall is_byte l.

(** ** Results of fallible code

    Go functions return [error]; indexing out of range panics.  The three
    outcomes are kept apart. *)

Inductive error : Type :=
| EOF                      (* the underlying reader is exhausted *)
| ReadFailed               (* Gateway.Read returned an error *)
| WriteFailed              (* Gateway.Write returned an error *)
| ConfirmFailed            (* Gateway.Confirm returned an error *)
| TooShort                 (* bidcos.Decode: fewer than 12 bytes *)
| UnexpectedReply          (* LoadConfig: unknown sub-command *)
| UnexpectedPayload        (* EnsurePeeredWith: not INFO_PEER_LIST *)
| UnpeeringNotImplemented  (* EnsurePeeredWith: more than one peer *)
| UnexpectedCommand        (* reply command differs from the wanted one *)
| ShortPayload             (* reply payload shorter than one byte *)
| UnexpectedStatus         (* acknowledgement status is not 0x00 *)
| CallbackFailed           (* the mutator passed to EnsureConfigured failed *)
| PayloadSize.             (* event decoder: wrong payload length *)

Inductive outcome (A : Type) : Type :=
| Ok (a : A)
| Err (e : error)
| Panic.
Arguments Ok {A} a.
Arguments Err {A} e.
Arguments Panic {A}.

(** ** float64

    IEEE 754 binary64 with the operations of [SpecFloat]; rounding is to
    nearest, ties to even. *)

Module f64.

Definition of_Z (n : Z) : spec_float := binary_normalize 53 1024 n 0 false.
Definition mul : spec_float -> spec_float -> spec_float := SFmul 53 1024.
Definition div : spec_float -> spec_float -> spec_float := SFdiv 53 1024.
Definition add : spec_float -> spec_float -> spec_float := SFadd 53 1024.
Definition zero : spec_float := S754_zero false.

(** The literal 1.5. *)
Definition one_and_a_half : spec_float := binary_normalize 53 1024 3 (-1) false.

(** The integer part, rounding toward zero. *)
Definition trunc (f : spec_float) : Z :=
  match f with
  | S754_finite s m e =>
    let v := if 0 <=? e then Z.pos m * 2 ^ e else Z.pos m / 2 ^ (- e) in
    if s then - v else v
  | _ => 0
  end.

(** [uint16(f)]: the integer part for values in range; Go leaves the
    conversion of other values to the implementation, here they wrap. *)
Definition to_uint16 (f : spec_float) : Z := trunc f mod 65536.

End f64.

(** ** uartgw: byte stuffing *)

Module uartgw.

(** One iteration of the loop of [escapingWriter.Write]: what is appended
    to [escaped] for the byte [b]. *)
Definition escape_byte (b : Z) : list Z :=
  if (b =? 0xfd) || (b =? 0xfc) then [0xfc; Z.land b 0x7f] else [b].

(** The loop [for _, b := range p] with its accumulator [escaped]. *)
Fixpoint escape_loop (p : list Z) (escaped : list Z) : list Z :=
  match p with
  | [] => escaped
  | b :: p' => escape_loop p' (escaped ++ escape_byte b)
  end.

(** [escapingWriter.Write]: the underlying writer is an in-memory sink
    (the bytes written so far); the result is the count returned and the
    sink afterwards. *)
Definition escapingWriter_Write (p : list Z) (w : list Z) : nat * list Z :=
  match p with
  | [] => (0%nat, w)
  | _ => (length p, w ++ escape_loop p [])
  end.

(** The underlying [io.Reader]: the bytes not yet delivered and a schedule
    of short reads.  A read into a buffer of [k] bytes delivers at most [k]
    bytes, at most what is left, and at most the next cap of the schedule
    (at least one byte while data is left); with nothing left it fails
    with [EOF]. *)
Record reader : Type := mkReader { rdata : list Z; rcaps : list nat }.

Definition reader_Read (k : nat) (r : reader) : list Z * option error * reader :=
  match rdata r with
  | [] => ([], Some EOF, r)
  | _ =>
    let n := match rcaps r with
             | [] => k
             | c :: _ => Nat.min k (Nat.max 1 c)
             end in
    (take n (rdata r), None, mkReader (drop n (rdata r)) (tl (rcaps r)))
  end.

(** The loop [for _, b := range raw[:n]] of [unescapingReader.Read]; [out]
    is [p[:idx]]. *)
Fixpoint unescape_loop (raw : list Z) (escapeByte : bool) (out : list Z)
  : bool * list Z :=
  match raw with
  | [] => (escapeByte, out)
  | b :: raw' =>
    if b =? 0xfc then unescape_loop raw' true out
    else if escapeByte then unescape_loop raw' false (out ++ [Z.lor b 0x80])
    else unescape_loop raw' false (out ++ [b])
  end.

(** [unescapingReader.Read] into a buffer of [k] bytes: the bytes stored
    ([p[:idx]]), the error, and the underlying reader afterwards. *)
Definition unescapingReader_Read (k : nat) (r : reader)
  : list Z * option error * reader :=
  match k with
  | O => ([], None, r)
  | _ =>
    let '(raw, err, r1) := reader_Read k r in
    match err with
    | Some e => ([], Some e, r1)
    | None =>
      let '(escapeByte, out) := unescape_loop raw false [] in
      if escapeByte then
        let '(last, err2, r2) := reader_Read 1 r1 in
        match err2 with
        | Some e => (out, Some e, r2)
        | None => (out ++ [Z.lor (nth 0 last 0) 0x80], None, r2)
        end
      else (out, None, r1)
    end
  end.

(** Reading a stream to its end through the unescaping reader, as
    [io.ReadAll] and the frame reader do: call [i] passes a buffer of
    [ks i] bytes; the result is everything stored before [EOF]. *)
Fixpoint read_all (fuel : nat) (ks : nat -> nat) (r : reader)
  : option (list Z) :=
  match fuel with
  | O => None
  | S fuel' =>
    let '(out, err, r') := unescapingReader_Read (ks 0%nat) r in
    match err with
    | Some _ => Some out
    | None =>
      match read_all fuel' (fun i => ks (S i)) r' with
      | Some rest => Some (out ++ rest)
      | None => None
      end
    end
  end.

(** The escaped form as the frame format describes it. *)
Definition escaped_form (b : list Z) : list Z :=
  flat_map (fun x => if (x =? 0xfd) || (x =? 0xfc)
                     then [0xfc; Z.lxor x 0x80] else [x]) b.

End uartgw.

(** ** bidcos: the packet codec and the sender *)

Module bidcos.

(** BidCoS commands. *)
Definition DeviceInfo : Z := 0.
Definition Config : Z := 1.
Definition Ack : Z := 2.
Definition Info : Z := 0x10.

(** Config subcommands. *)
Definition ConfigPeerAdd : Z := 1.
Definition ConfigPeerRemove : Z := 2.
Definition ConfigPeerListReq : Z := 3.
Definition ConfigParamReq : Z := 4.
Definition ConfigStart : Z := 5.
Definition ConfigEnd : Z := 6.
Definition ConfigWriteIndexSeq : Z := 7.
Definition ConfigWriteIndexPairs : Z := 8.

(** Info subcommands. *)
Definition InfoSerial : Z := 0.
Definition InfoPeerList : Z := 1.
Definition InfoParamResponsePairs : Z := 2.
Definition InfoParamResponseSeq : Z := 3.

(** Packet flags. *)
Definition WakeUp : Z := 1.
Definition WakeMeUp : Z := 2.
Definition Broadcast : Z := 4.
Definition Burst : Z := 16.
Definition BiDi : Z := 32.
Definition Repeated : Z := 64.
Definition RepeatEnable : Z := 128.

Definition DefaultFlags : Z := Z.lor RepeatEnable BiDi.

(** A three-byte address, [[3]byte]. *)
Definition addr : Type := (Z * Z * Z)%type.

Definition addr_bytes (a : addr) : list Z :=
  let '(a0, a1, a2) := a in [a0; a1; a2].

Definition addr_eqb (a b : addr) : bool :=
  let '(a0, a1, a2) := a in
  let '(b0, b1, b2) := b in
  (a0 =? b0) && (a1 =? b1) && (a2 =? b2).

Record Packet : Type := mkPacket {
  status : Z;
  info : Z;
  rssi : Z;
  Msgcnt : Z;
  Flags : Z;
  Cmd : Z;
  Source : addr;
  Dest : addr;
  Payload : list Z
}.

(** [Packet.Encode]; [counter] is the global [messageCounter.counter],
    returned with its new value. *)
Definition Encode (p : Packet) (counter : Z) : list Z * Z :=
  let '(cnt, counter') :=
    if Msgcnt p =? 0 then (counter, wrap8 (counter + 9))
    else (Msgcnt p, counter) in
  let burst := if Z.land (Flags p) 0x10 =? 0x10 then 0x01 else 0x00 in
  ([0x00; 0x00; burst; cnt; Flags p; Cmd p]
     ++ addr_bytes (Source p) ++ addr_bytes (Dest p) ++ Payload p,
   counter').

(** [Decode]. *)
Definition Decode (b : list Z) : outcome Packet :=
  match b with
  | b0 :: b1 :: b2 :: b3 :: b4 :: b5 :: b6 :: b7 :: b8 :: b9 :: b10 :: b11
    :: rest =>
    Ok {| status := b0; info := b1; rssi := b2;
          Msgcnt := b3; Flags := b4; Cmd := b5;
          Source := (b6, b7, b8); Dest := (b9, b10, b11);
          Payload := rest |}
  | _ => Err TooShort
  end.

(** The [Gateway] interface, as a scripted device: [inbox] holds what the
    successive [Read] calls deliver, [wfail] and [cfail] say which
    [Write] and [Confirm] calls fail (none once the script is used up),
    [sent] records the byte strings written. *)
Inductive read_result : Type :=
| RData (bs : list Z)
| RFail.

Record gateway : Type := mkGateway {
  inbox : list read_result;
  wfail : list bool;
  cfail : list bool;
  sent : list (list Z)
}.

(** What a [Read] into a buffer of [k] bytes returns when the gateway
    delivers [r] (a packet longer than the buffer is an error, as in
    [UARTGW.Read]). *)
Definition deliver (k : nat) (r : read_result) : outcome (list Z) :=
  match r with
  | RFail => Err ReadFailed
  | RData bs => if (k <? length bs)%nat then Err ReadFailed else Ok bs
  end.

Definition Gateway_Read (k : nat) (g : gateway) : outcome (list Z) * gateway :=
  match inbox g with
  | [] => (Err ReadFailed, g)
  | r :: rest => (deliver k r, mkGateway rest (wfail g) (cfail g) (sent g))
  end.

Definition Gateway_Write (p : list Z) (g : gateway) : outcome unit * gateway :=
  match wfail g with
  | true :: w => (Err WriteFailed, mkGateway (inbox g) w (cfail g) (sent g))
  | _ => (Ok tt, mkGateway (inbox g) (tl (wfail g)) (cfail g) (sent g ++ [p]))
  end.

Definition Gateway_Confirm (g : gateway) : outcome unit * gateway :=
  match cfail g with
  | true :: c => (Err ConfirmFailed, mkGateway (inbox g) (wfail g) c (sent g))
  | _ => (Ok tt, mkGateway (inbox g) (wfail g) (tl (cfail g)) (sent g))
  end.

Record Sender : Type := mkSender {
  Gateway : gateway;
  Addr : addr
}.

(** [Sender.ReadPacket]: one read into a buffer of 17 + 12 bytes, then
    [Decode]. *)
Definition ReadPacket (s : Sender) : outcome Packet * Sender :=
  let '(r, g) := Gateway_Read (17 + 12) (Gateway s) in
  let s' := mkSender g (Addr s) in
  match r with
  | Ok buf => (Decode buf, s')
  | Err e => (Err e, s')
  | Panic => (Panic, s')
  end.

(** What [ReadPacket] returns when the gateway delivers [r]; the read
    loops of package hm recurse on the inbox and use this form. *)
Definition packet_of (r : read_result) : outcome Packet :=
  match deliver (17 + 12) r with
  | Ok buf => Decode buf
  | Err e => Err e
  | Panic => Panic
  end.

(** [Sender.WritePacket]; threads the global message counter. *)
Definition WritePacket (pkt : Packet) (s : Sender) (counter : Z)
  : outcome unit * Sender * Z :=
  let pkt' := {| status := status pkt; info := info pkt; rssi := rssi pkt;
                 Msgcnt := Msgcnt pkt; Flags := Flags pkt; Cmd := Cmd pkt;
                 Source := Addr s; Dest := Dest pkt;
                 Payload := Payload pkt |} in
  let '(bs, counter') := Encode pkt' counter in
  let '(r, g) := Gateway_Write bs (Gateway s) in
  match r with
  | Ok _ =>
    let '(r2, g2) := Gateway_Confirm g in
    (r2, mkSender g2 (Addr s), counter')
  | _ => (r, mkSender g (Addr s), counter')
  end.

End bidcos.

(** ** hm: behaviour shared by all devices *)

Module hm.

Definition Mask1Bit : Z := 0x1.
Definition Mask2Bit : Z := 0x3.
Definition Mask3Bit : Z := 0x7.
Definition Mask5Bit : Z := 0x1F.
Definition Mask6Bit : Z := 0x3F.
Definition Mask7Bit : Z := 0x7F.

Record FullyQualifiedChannel : Type := mkFQC {
  Peer : bidcos.addr;
  Channel : Z
}.

Record StandardDevice : Type := mkSD {
  BCS : bidcos.Sender;
  Addr : bidcos.addr;
  msgcnt : Z
}.

(** A device together with the one piece of global state its methods
    touch, the message counter of package bidcos. *)
Record state : Type := mkState {
  dev : StandardDevice;
  messageCounter : Z
}.

Definition sent_of (st : state) : list (list Z) :=
  bidcos.sent (bidcos.Gateway (BCS (dev st))).

Definition inbox_of (st : state) : list bidcos.read_result :=
  bidcos.inbox (bidcos.Gateway (BCS (dev st))).

Definition set_inbox (ib : list bidcos.read_result) (st : state) : state :=
  let d := dev st in
  let s := BCS d in
  let g := bidcos.Gateway s in
  mkState
    (mkSD (bidcos.mkSender
             (bidcos.mkGateway ib (bidcos.wfail g) (bidcos.cfail g)
                               (bidcos.sent g))
             (bidcos.Addr s))
          (Addr d) (msgcnt d))
    (messageCounter st).

(** Methods that can fail are state transformers with an outcome. *)
Definition M (A : Type) : Type := state -> outcome A * state.

Definition ret {A : Type} (a : A) : M A := fun st => (Ok a, st).

Definition bind {A B : Type} (m : M A) (f : A -> M B) : M B :=
  fun st =>
    match m st with
    | (Ok a, st') => f a st'
    | (Err e, st') => (Err e, st')
    | (Panic, st') => (Panic, st')
    end.

Notation "'let*' x ':=' m 'in' k" := (bind m (fun x => k))
  (at level 10, x name, m at level 100, k at level 200).

(** [StandardDevice.count]. *)
Definition count : M Z :=
  fun st =>
    let d := dev st in
    (Ok (msgcnt d),
     mkState (mkSD (BCS d) (Addr d) (wrap8 (msgcnt d + 9)))
             (messageCounter st)).

Definition WritePacket (pkt : bidcos.Packet) : M unit :=
  fun st =>
    let d := dev st in
    let '(r, s', c') := bidcos.WritePacket pkt (BCS d) (messageCounter st) in
    (r, mkState (mkSD s' (Addr d) (msgcnt d)) c').

Definition ReadPacket : M bidcos.Packet :=
  fun st =>
    let d := dev st in
    let '(r, s') := bidcos.ReadPacket (BCS d) in
    (r, mkState (mkSD s' (Addr d) (msgcnt d)) (messageCounter st)).

(** The packet literal shared by the Config requests: [Cmd: bidcos.Config],
    [Dest: sd.Addr], the fields not named left zero. *)
Definition config_packet (cnt flags : Z) (dest : bidcos.addr)
    (payload : list Z) : bidcos.Packet :=
  {| bidcos.status := 0; bidcos.info := 0; bidcos.rssi := 0;
     bidcos.Msgcnt := cnt; bidcos.Flags := flags;
     bidcos.Cmd := bidcos.Config;
     bidcos.Source := (0, 0, 0); bidcos.Dest := dest;
     bidcos.Payload := payload |}.

Definition send_config (flags : Z) (payload : list Z) : M unit :=
  let* cnt := count in
  fun st => WritePacket (config_packet cnt flags (Addr (dev st)) payload) st.

Definition ConfigStart (channel paramlist : Z) : M unit :=
  send_config bidcos.DefaultFlags
    [channel; bidcos.ConfigStart; 0; 0; 0; 0; paramlist].

Definition ConfigWriteIndex (channel : Z) (kv : list Z) : M unit :=
  send_config bidcos.DefaultFlags
    ([channel; bidcos.ConfigWriteIndexPairs] ++ kv).

Definition ConfigEnd (channel : Z) : M unit :=
  send_config bidcos.DefaultFlags [channel; bidcos.ConfigEnd].

Definition ConfigParamReq (channel paramlist : Z) : M unit :=
  send_config (Z.lor bidcos.DefaultFlags bidcos.Burst)
    [channel; bidcos.ConfigParamReq; 0; 0; 0; 0; paramlist].

Definition ConfigPeerListReq (channel : Z) : M unit :=
  send_config (Z.lor bidcos.DefaultFlags bidcos.Burst)
    [channel; bidcos.ConfigPeerListReq].

Definition ConfigPeerAdd (channel : Z) (peerAddr : bidcos.addr)
    (peerChannel : Z) : M unit :=
  send_config (Z.lor bidcos.DefaultFlags bidcos.Burst)
    ([channel; bidcos.ConfigPeerAdd] ++ bidcos.addr_bytes peerAddr
       ++ [peerChannel; 0x00]).

Definition ConfigPeerRemove (channel : Z) (peerAddr : bidcos.addr)
    (peerChannel : Z) : M unit :=
  send_config (Z.lor bidcos.DefaultFlags bidcos.Burst)
    ([channel; bidcos.ConfigPeerRemove] ++ bidcos.addr_bytes peerAddr
       ++ [peerChannel; 0x00]).

(** [mem[i] = v] on a slice: an index past the end panics. *)
Definition store (mem : list Z) (i : Z) (v : Z) : option (list Z) :=
  if (Z.to_nat i <? length mem)%nat then Some (<[Z.to_nat i := v]> mem)
  else None.

(** [for i := 1; i < len(p); i += 2 { mem[p[i]] = p[i+1] }]; [kv] is
    [p[i:]].  The result carries the memory as far as it was written. *)
Fixpoint write_pairs (kv : list Z) (mem : list Z) : outcome unit * list Z :=
  match kv with
  | [] => (Ok tt, mem)
  | [_] => (Panic, mem)
  | idx :: val :: kv' =>
    match store mem idx val with
    | Some mem' => write_pairs kv' mem'
    | None => (Panic, mem)
    end
  end.

(** [for i := 0; i < len(p)-2; i++ { mem[p[1]+byte(i)] = p[2+i] }];
    [vals] is [p[2+i:]] and [start] is [p[1]]. *)
Fixpoint write_seq (start : Z) (i : nat) (vals : list Z) (mem : list Z)
  : outcome unit * list Z :=
  match vals with
  | [] => (Ok tt, mem)
  | v :: vals' =>
    match store mem (wrap8 (start + wrap8 (Z.of_nat i))) v with
    | Some mem' => write_seq start (S i) vals' mem'
    | None => (Panic, mem)
    end
  end.

Definition bytes_eqb (a b : list Z) : bool :=
  (length a =? length b)%nat && forallb (fun xy => fst xy =? snd xy) (combine a b).

(** The [ReadConfig] loop of [LoadConfig].  Every iteration takes the
    next delivery of the gateway, so the loop recurses on the inbox; the
    result is the outcome, the memory and the inbox left. *)
Fixpoint readConfig (sdAddr : bidcos.addr) (ib : list bidcos.read_result)
    (mem : list Z) : outcome unit * list Z * list bidcos.read_result :=
  match ib with
  | [] => (Err ReadFailed, mem, [])
  | r :: ib' =>
    match bidcos.packet_of r with
    | Err e => (Err e, mem, ib')
    | Panic => (Panic, mem, ib')
    | Ok pkt =>
      if negb (bidcos.addr_eqb (bidcos.Source pkt) sdAddr)
      then readConfig sdAddr ib' mem
      else
        match bidcos.Payload pkt with
        | [] => (Panic, mem, ib')
        | p0 :: p1 =>
          if p0 =? bidcos.InfoParamResponsePairs then
            if bytes_eqb p1 [0x00; 0x00] then (Ok tt, mem, ib')
            else
              match write_pairs p1 mem with
              | (Ok _, mem') => readConfig sdAddr ib' mem'
              | (r', mem') => (r', mem', ib')
              end
          else if p0 =? bidcos.InfoParamResponseSeq then
            match p1 with
            | [] => (Panic, mem, ib')
            | start :: vals =>
              if start =? 0x00 then (Ok tt, mem, ib')
              else
                match write_seq start 0 vals mem with
                | (Ok _, mem') => readConfig sdAddr ib' mem'
                | (r', mem') => (r', mem', ib')
                end
            end
          else (Err UnexpectedReply, mem, ib')
        end
    end
  end.

(** [StandardDevice.LoadConfig]; [mem] is updated in place, so it is
    returned whatever the outcome. *)
Definition LoadConfig (mem : list Z) (channel paramlist : Z) (st : state)
  : outcome unit * list Z * state :=
  match ConfigParamReq channel paramlist st with
  | (Ok _, st1) =>
    let '(r, mem', ib') := readConfig (Addr (dev st1)) (inbox_of st1) mem in
    (r, mem', set_inbox ib' st1)
  | (Err e, st1) => (Err e, mem, st1)
  | (Panic, st1) => (Panic, mem, st1)
  end.

(** The diff loop of [EnsureConfigured]:
    [for i := 0; i < len(devmem); i++ { if devmem[i] != target[i] {
       pairs = append(pairs, byte(i), target[i]) } }];
    [n] counts the iterations left. *)
Fixpoint diff_loop (n : nat) (i : nat) (devmem target : list Z)
    (pairs : list Z) : list Z :=
  match n with
  | O => pairs
  | S n' =>
    let pairs' :=
      if nth i devmem 0 =? nth i target 0 then pairs
      else pairs ++ [wrap8 (Z.of_nat i); nth i target 0] in
    diff_loop n' (S i) devmem target pairs'
  end.

(** The send loop of [EnsureConfigured]:
    [for i := 0; i < pkts; i++ { offset := 14 * i; rest := len(pairs) -
       offset; if rest > 14 { rest = 14 }; ConfigWriteIndex(0,
       pairs[offset:offset+rest]) }]; [n] counts the iterations left. *)
Fixpoint write_loop (n : nat) (i : nat) (pairs : list Z) : M unit :=
  match n with
  | O => ret tt
  | S n' =>
    let offset := (14 * i)%nat in
    let rest := (length pairs - offset)%nat in
    let rest := if (14 <? rest)%nat then 14%nat else rest in
    let* _ := ConfigWriteIndex 0 (take rest (drop offset pairs)) in
    write_loop n' (S i) pairs
  end.

(** [StandardDevice.EnsureConfigured].  The callback works on [target], a
    copy of the loaded memory; [None] is its error. *)
Definition EnsureConfigured (channel paramlist : Z)
    (cb : list Z -> option (list Z)) : M unit :=
  fun st =>
    match LoadConfig (replicate 256 0) channel paramlist st with
    | (Ok _, devmem, st1) =>
      match cb devmem with
      | None => (Err CallbackFailed, st1)
      | Some target =>
        let pairs := diff_loop (length devmem) 0 devmem target [] in
        match pairs with
        | [] => (Ok tt, st1)
        | _ =>
          let pkts := (length pairs / 14)%nat in
          let pkts :=
            if (0 <? length pairs mod 14)%nat then S pkts else pkts in
          (let* _ := ConfigStart channel paramlist in
           let* _ := write_loop pkts 0 pairs in
           ConfigEnd channel) st1
        end
      end
    | (Err e, _, st1) => (Err e, st1)
    | (Panic, _, st1) => (Panic, st1)
    end.

(** The inner loop of [ReadPeers] over the 4-byte records of one reply:
    [true] when the end-of-list record was met. *)
Fixpoint parse_peers (recs : list Z) (peers : list FullyQualifiedChannel)
  : bool * list FullyQualifiedChannel :=
  match recs with
  | a :: b :: c :: d :: rest =>
    if bytes_eqb [a; b; c; d] [0x00; 0x00; 0x00; 0x00] then (true, peers)
    else parse_peers rest (peers ++ [mkFQC (a, b, c) d])
  | _ => (false, peers)
  end.

(** The [ReadPeers] loop of [EnsurePeeredWith], recursing on the inbox as
    [readConfig] does. *)
Fixpoint readPeers (sdAddr : bidcos.addr) (ib : list bidcos.read_result)
    (peers : list FullyQualifiedChannel)
  : outcome (list FullyQualifiedChannel) * list bidcos.read_result :=
  match ib with
  | [] => (Err ReadFailed, [])
  | r :: ib' =>
    match bidcos.packet_of r with
    | Err e => (Err e, ib')
    | Panic => (Panic, ib')
    | Ok pkt =>
      if negb (bidcos.addr_eqb (bidcos.Source pkt) sdAddr)
      then readPeers sdAddr ib' peers
      else
        match bidcos.Payload pkt with
        | [] => (Panic, ib')
        | p0 :: recs =>
          if negb (p0 =? 0x01) then (Err UnexpectedPayload, ib')
          else
            match parse_peers recs peers with
            | (true, peers') => (Ok peers', ib')
            | (false, peers') => readPeers sdAddr ib' peers'
            end
        end
    end
  end.

(** Reading one reply and checking it as the peer add and remove paths
    do: the command, a payload of at least one byte, status 0x00. *)
Definition expect_ack (want : Z) : M unit :=
  let* pkt := ReadPacket in
  fun st =>
    if negb (bidcos.Cmd pkt =? want) then (Err UnexpectedCommand, st)
    else
      match bidcos.Payload pkt with
      | [] => (Err ShortPayload, st)
      | p0 :: _ =>
        if negb (p0 =? 0x00) then (Err UnexpectedStatus, st)
        else (Ok tt, st)
      end.

(** The part of [EnsurePeeredWith] after the [ReadPeers] loop. *)
Definition reconcile (channel : Z) (dest : FullyQualifiedChannel)
    (peers : list FullyQualifiedChannel) : M unit :=
  let add :=
    let* _ := ConfigPeerAdd channel (Peer dest) (Channel dest) in
    expect_ack 0x02 in
  match peers with
  | [] => add
  | [existing] =>
    if bidcos.addr_eqb (Peer existing) (Peer dest) then ret tt
    else
      let* _ := ConfigPeerRemove channel (Peer existing) (Channel existing) in
      let* _ := expect_ack 0x10 in
      add
  | _ => fun st => (Err UnpeeringNotImplemented, st)
  end.

(** [StandardDevice.EnsurePeeredWith]. *)
Definition EnsurePeeredWith (channel : Z) (dest : FullyQualifiedChannel)
  : M unit :=
  let* _ := ConfigPeerListReq channel in
  fun st =>
    match readPeers (Addr (dev st)) (inbox_of st) [] with
    | (Ok peers, ib') => reconcile channel dest peers (set_inbox ib' st)
    | (Err e, ib') => (Err e, set_inbox ib' st)
    | (Panic, ib') => (Panic, set_inbox ib' st)
    end.

End hm.

(** ** thermal: the wall thermostat *)

Module thermal.

(** [time.Weekday]. *)
Definition Sunday : Z := 0.
Definition Monday : Z := 1.
Definition Tuesday : Z := 2.
Definition Wednesday : Z := 3.
Definition Thursday : Z := 4.
Definition Friday : Z := 5.
Definition Saturday : Z := 6.

Definition WeekdayMask : Z :=
  Z.lor (Z.shiftl 1 Monday)
    (Z.lor (Z.shiftl 1 Tuesday)
       (Z.lor (Z.shiftl 1 Wednesday)
          (Z.lor (Z.shiftl 1 Thursday) (Z.shiftl 1 Friday)))).
Definition WeekendMask : Z := Z.lor (Z.shiftl 1 Saturday) (Z.shiftl 1 Sunday).

Record ProgramEntry : Type := mkEntry {
  Endtime : Z;
  Temperature : spec_float
}.

(** [Endtimes] is a [[13]ProgramEntry]; the list holds its leading
    entries, the others being the zero value. *)
Record Program : Type := mkProgram {
  DayMask : Z;
  Endtimes : list ProgramEntry
}.

Definition zeroEntry : ProgramEntry := mkEntry 0 f64.zero.

(** The body of the loop of [encodeProgramDay] for [entries[i]]: the two
    bytes stored at [2*i] and [2*i+1]. *)
Definition encode_entry (e : ProgramEntry) : Z * Z :=
  let endtime := if Endtime e =? 0 then 1440 else Endtime e in
  let temperature :=
    if SFeqb (Temperature e) f64.zero then f64.of_Z 17 else Temperature e in
  let e5 := (endtime / 5) mod 65536 in
  let t2 := f64.to_uint16 (f64.mul temperature (f64.of_Z 2)) in
  (wrap8 (Z.lor (Z.shiftr (Z.land e5 0x0100) 8)
                ((Z.shiftl (Z.land t2 hm.Mask6Bit) 1) mod 65536)),
   wrap8 (Z.shiftr (Z.land e5 0x00FF) 0)).

Fixpoint encode_loop (n : nat) (i : nat) (entries : list ProgramEntry)
    (result : list Z) : list Z :=
  match n with
  | O => result
  | S n' =>
    let '(b0, b1) := encode_entry (nth i entries zeroEntry) in
    encode_loop n' (S i) entries
      (<[(2 * i + 1)%nat := b1]> (<[(2 * i)%nat := b0]> result))
  end.

(** [ThermalControl.encodeProgramDay]. *)
Definition encodeProgramDay (entries : list ProgramEntry) : list Z :=
  encode_loop 13 0 entries (replicate 26 0).

(** [programOffsets]; a weekday that is no key of the map reads as 0. *)
Definition programOffsets (day : Z) : nat :=
  if day =? Saturday then 20
  else if day =? Sunday then 46
  else if day =? Monday then 72
  else if day =? Tuesday then 98
  else if day =? Wednesday then 124
  else if day =? Thursday then 150
  else if day =? Friday then 176
  else 0.

(** [copy(mem[off:], src)]: slicing past the end panics; [copy] stops at
    the shorter of the two. *)
Definition copy_at (mem : list Z) (off : nat) (src : list Z)
  : outcome (list Z) :=
  if (length mem <? off)%nat then Panic
  else Ok (take off mem ++ take (length mem - off) src
             ++ drop (off + length src) mem).

(** The inner loop [for _, pg := range programs] for one day. *)
Fixpoint programs_loop (day : Z) (programs : list Program) (mem : list Z)
  : outcome (list Z) :=
  match programs with
  | [] => Ok mem
  | pg :: rest =>
    if negb (Z.land (Z.shiftl 1 day) (DayMask pg) =? 0) then
      match copy_at mem (programOffsets day) (encodeProgramDay (Endtimes pg)) with
      | Ok mem' => programs_loop day rest mem'
      | o => o
      end
    else programs_loop day rest mem
  end.

(** The outer loop over the weekdays. *)
Fixpoint days_loop (days : list Z) (programs : list Program) (mem : list Z)
  : outcome (list Z) :=
  match days with
  | [] => Ok mem
  | day :: days' =>
    match programs_loop day programs mem with
    | Ok mem' => days_loop days' programs mem'
    | o => o
    end
  end.

(** [ThermalControl.SetPrograms]; the memory is changed in place. *)
Definition SetPrograms (mem : list Z) (programs : list Program)
  : outcome (list Z) :=
  days_loop [Saturday; Sunday; Monday; Tuesday; Wednesday; Thursday; Friday]
            programs mem.

Record WeatherEvent : Type := mkWeatherEvent {
  we_Temperature : spec_float;
  we_Humidity : Z
}.

(** Conversion to [int16], two's complement. *)
Definition to_int16 (x : Z) : Z := (x + 32768) mod 65536 - 32768.

(** The integer under the division in [DecodeWeatherEvent]:
    [(int16(payload[0])<<8 | int16(payload[1])) & 0x3FFF]. *)
Definition weather_raw (p0 p1 : Z) : Z :=
  Z.land (Z.lor (to_int16 (Z.shiftl (to_int16 p0) 8)) (to_int16 p1)) 0x3FFF.

(** [ThermalControl.DecodeWeatherEvent] (the metrics and the
    latest-event slot left out). *)
Definition DecodeWeatherEvent (payload : list Z) : outcome WeatherEvent :=
  match payload with
  | [p0; p1; p2] =>
    Ok {| we_Temperature := f64.div (f64.of_Z (weather_raw p0 p1)) (f64.of_Z 10);
          we_Humidity := p2 |}
  | _ => Err PayloadSize
  end.

End thermal.

(** ** heating: the radiator thermostat *)

Module heating.

Record InfoEvent : Type := mkInfoEvent {
  SetTemperature : spec_float;
  ActualTemperature : spec_float;
  Fault : Z;
  BatteryState : spec_float;
  ValveState : Z;
  Control : Z;
  BoostState : Z
}.

(** The integer under the division for [ActualTemperature]:
    [(int64(payload[1])&hm.Mask2Bit)|int64(payload[2])]. *)
Definition actual_raw (p1 p2 : Z) : Z := Z.lor (Z.land p1 hm.Mask2Bit) p2.

(** [Thermostat.DecodeInfoEvent] (the metrics and the latest-event slot
    left out). *)
Definition DecodeInfoEvent (payload : list Z) : outcome InfoEvent :=
  match payload with
  | [p0; p1; p2; p3; p4; p5] =>
    Ok {| SetTemperature :=
            f64.div (f64.of_Z (Z.land (Z.shiftr p1 2) hm.Mask6Bit)) (f64.of_Z 2);
          ActualTemperature :=
            f64.div (f64.of_Z (actual_raw p1 p2)) (f64.of_Z 10);
          Fault := Z.land (Z.shiftr p3 5) hm.Mask3Bit;
          BatteryState :=
            f64.add (f64.div (f64.of_Z (Z.land p3 hm.Mask5Bit)) (f64.of_Z 10))
                    f64.one_and_a_half;
          ValveState := Z.land p4 hm.Mask7Bit;
          Control := Z.land (Z.shiftr p5 6) hm.Mask2Bit;
          BoostState := Z.land p5 hm.Mask6Bit |}
  | _ => Err PayloadSize
  end.

End heating.

(** ** hm: pairing *)

Module pairing.
Import hm.

(** [StandardDevice.Pair]: the address of the controller goes to the
    parameters 0x0a to 0x0c of channel 0. *)
Definition Pair : M unit :=
  let* _ := ConfigStart 0 0 in
  fun st =>
    let '(a0, a1, a2) := bidcos.Addr (BCS (dev st)) in
    (let* _ := ConfigWriteIndex 0 [0x02; 0x01; 0x0a; a0; 0x0b; a1; 0x0c; a2] in
     ConfigEnd 0) st.

End pairing.

(** ** power: the switch with power metering *)

Module power.

Record PowerEvent : Type := mkPowerEvent {
  Boot : bool;
  EnergyCounter : spec_float;
  Power : spec_float;
  Current : spec_float;
  Voltage : spec_float;
  Frequency : spec_float
}.

(** The integers under the conversions to float64 in [DecodePowerEvent]. *)
Definition energy_raw (p0 p1 p2 : Z) : Z :=
  Z.lor (Z.lor (Z.shiftl (Z.land p0 hm.Mask7Bit) 16) (Z.shiftl p1 8)) p2.

Definition power_raw (p3 p4 p5 : Z) : Z :=
  Z.lor (Z.lor (Z.shiftl p3 16) (Z.shiftl p4 8)) p5.

Definition current_raw (p6 p7 : Z) : Z := Z.lor (Z.shiftl p6 8) p7.

Definition voltage_raw (p8 p9 : Z) : Z := Z.lor (Z.shiftl p8 8) p9.

(** [PowerSwitch.DecodePowerEvent] (the metrics and the latest-event slot
    left out). *)
Definition DecodePowerEvent (payload : list Z) : outcome PowerEvent :=
  match payload with
  | [p0; p1; p2; p3; p4; p5; p6; p7; p8; p9; p10] =>
    Ok {| Boot := Z.land (Z.shiftr p0 7) hm.Mask1Bit =? 1;
          EnergyCounter :=
            f64.div (f64.of_Z (energy_raw p0 p1 p2)) (f64.of_Z 10);
          Power := f64.div (f64.of_Z (power_raw p3 p4 p5)) (f64.of_Z 100);
          Current := f64.of_Z (current_raw p6 p7);
          Voltage := f64.div (f64.of_Z (voltage_raw p8 p9)) (f64.of_Z 10);
          Frequency :=
            f64.add (f64.div (f64.of_Z p10) (f64.of_Z 100)) (f64.of_Z 50) |}
  | _ => Err PayloadSize
  end.

(** [PowerSwitch.LevelSet]: the packet names no message counter. *)
Definition LevelSet (channel state onTime : Z) : hm.M unit :=
  fun st =>
    hm.WritePacket
      {| bidcos.status := 0; bidcos.info := 0; bidcos.rssi := 0;
         bidcos.Msgcnt := 0; bidcos.Flags := bidcos.DefaultFlags;
         bidcos.Cmd := 0x11;
         bidcos.Source := (0, 0, 0); bidcos.Dest := hm.Addr (hm.dev st);
         bidcos.Payload := [0x02; channel; state; 0x00; onTime] |} st.

End power.

(** ** thermal: the events of the wall thermostat *)

Module thermal_events.

Record InfoEvent : Type := mkInfoEvent {
  SetTemperature : spec_float;
  ActualTemperature : spec_float;
  LowbatReporting : bool;
  CommunicationReporting : bool;
  WindowOpenReporting : bool;
  BatteryState : spec_float;
  Control : Z;
  BoostState : Z
}.

(** [ThermalControl.DecodeInfoEvent] (the metrics and the latest-event
    slot left out); the shifts are shifts of a byte. *)
Definition DecodeInfoEvent (payload : list Z) : outcome InfoEvent :=
  match payload with
  | [p0; p1; p2; p3; p4] =>
    Ok {| SetTemperature :=
            f64.div (f64.of_Z (Z.land (Z.shiftr p1 2) hm.Mask6Bit)) (f64.of_Z 2);
          ActualTemperature :=
            f64.div (f64.of_Z (Z.lor (Z.land p1 hm.Mask2Bit) p2)) (f64.of_Z 10);
          LowbatReporting := Z.shiftr p3 7 =? 1;
          CommunicationReporting := Z.shiftr p3 6 =? 1;
          WindowOpenReporting := Z.shiftr p3 5 =? 1;
          BatteryState :=
            f64.add (f64.div (f64.of_Z (Z.land p3 hm.Mask5Bit)) (f64.of_Z 10))
                    f64.one_and_a_half;
          Control := Z.land (Z.shiftr p4 6) hm.Mask2Bit;
          BoostState := Z.land p4 hm.Mask6Bit |}
  | _ => Err PayloadSize
  end.



End thermal_events.

(** ** uartgw: commands, frames and the session *)

Module uartgw_session.
Import uartgw.

(** [uartdest]. *)
Definition OS : Z := 0.
Definition App : Z := 1.
Definition Dual : Z := 254.
Definition DualErr : Z := 255.

Inductive uartcmd : Type :=
| OSGetApp | OSGetFirmware | OSChangeApp | OSAck | OSUpdateFirmware
| OSNormalMode | OSUpdateMode | OSGetCredits | OSEnableCredits
| OSEnableCSMACA | OSGetSerial | OSSetTime
| AppSetHMID | AppGetHMID | AppSend | AppSetCurrentKey | AppAck | AppRecv
| AppAddPeer | AppRemovePeer | AppGetPeers | AppPeerAddAES
| AppPeerRemoveAES | AppSetTempKey | AppSetPreviousKey | AppDefaultHMID
| DualGetApp | DualChangeApp.

Inductive uart_error : Type :=
| ErrEOF               (* io.EOF *)
| ErrUnexpectedEOF     (* io.ErrUnexpectedEOF *)
| ErrUnknownCommand    (* Command, Byte: unknown command *)
| ErrUnknownState      (* Command: unknown device state *)
| ErrChecksum          (* ReadPacket: unexpected checksum *)
| ErrUnexpectedCmd     (* a reply with another command than wanted *)
| ErrBufferTooShort.   (* Read: buffer too short for packet *)

Inductive result (A : Type) : Type :=
| ROk (a : A)
| RErr (e : uart_error)
| RPanic.
Arguments ROk {A} a.
Arguments RErr {A} e.
Arguments RPanic {A}.

(** [UARTGW.Command]: the command a byte stands for in the device state. *)
Definition Command (devstate : Z) (cmd : Z) : result uartcmd :=
  if devstate =? OS then
    if cmd =? 0x00 then ROk OSGetApp
    else if cmd =? 0x02 then ROk OSGetFirmware
    else if cmd =? 0x03 then ROk OSChangeApp
    else if cmd =? 0x04 then ROk OSAck
    else if cmd =? 0x05 then ROk OSUpdateFirmware
    else if cmd =? 0x06 then ROk OSNormalMode
    else if cmd =? 0x07 then ROk OSUpdateMode
    else if cmd =? 0x08 then ROk OSGetCredits
    else if cmd =? 0x09 then ROk OSEnableCredits
    else if cmd =? 0x0a then ROk OSEnableCSMACA
    else if cmd =? 0x0b then ROk OSGetSerial
    else if cmd =? 0x0e then ROk OSSetTime
    else RErr ErrUnknownCommand
  else if devstate =? App then
    if cmd =? 0x00 then ROk OSGetApp
    else if cmd =? 0x01 then ROk AppGetHMID
    else if cmd =? 0x02 then ROk AppSend
    else if cmd =? 0x03 then ROk AppSetCurrentKey
    else if cmd =? 0x04 then ROk AppAck
    else if cmd =? 0x05 then ROk AppRecv
    else if cmd =? 0x06 then ROk AppAddPeer
    else if cmd =? 0x07 then ROk AppRemovePeer
    else if cmd =? 0x08 then ROk AppGetPeers
    else if cmd =? 0x09 then ROk AppPeerAddAES
    else if cmd =? 0x0a then ROk AppPeerRemoveAES
    else if cmd =? 0x0b then ROk AppSetTempKey
    else if cmd =? 0x0f then ROk AppSetPreviousKey
    else if cmd =? 0x10 then ROk AppDefaultHMID
    else RErr ErrUnknownCommand
  else RErr ErrUnknownState.

(** [uartcmd.Byte]. *)
Definition Byte (c : uartcmd) : result Z :=
  match c with
  | OSGetApp => ROk 0x00
  | OSGetFirmware => ROk 0x02
  | OSChangeApp => ROk 0x03
  | OSAck => ROk 0x04
  | OSUpdateFirmware => ROk 0x05
  | OSNormalMode => ROk 0x06
  | OSUpdateMode => ROk 0x07
  | OSGetCredits => ROk 0x08
  | OSEnableCredits => ROk 0x09
  | OSEnableCSMACA => ROk 0x0a
  | OSGetSerial => ROk 0x0b
  | OSSetTime => ROk 0x0e
  | AppSetHMID => ROk 0x00
  | AppSend => ROk 0x02
  | AppSetCurrentKey => ROk 0x03
  | AppAck => ROk 0x04
  | AppRecv => ROk 0x05
  | AppAddPeer => ROk 0x06
  | AppGetPeers => ROk 0x08
  | AppPeerRemoveAES => ROk 0x0a
  | _ => RErr ErrUnknownCommand
  end.

Definition uartcmd_eqb (a b : uartcmd) : bool :=
  match a, b with
  | OSGetApp, OSGetApp | OSGetFirmware, OSGetFirmware
  | OSChangeApp, OSChangeApp | OSAck, OSAck
  | OSUpdateFirmware, OSUpdateFirmware | OSNormalMode, OSNormalMode
  | OSUpdateMode, OSUpdateMode | OSGetCredits, OSGetCredits
  | OSEnableCredits, OSEnableCredits | OSEnableCSMACA, OSEnableCSMACA
  | OSGetSerial, OSGetSerial | OSSetTime, OSSetTime
  | AppSetHMID, AppSetHMID | AppGetHMID, AppGetHMID | AppSend, AppSend
  | AppSetCurrentKey, AppSetCurrentKey | AppAck, AppAck | AppRecv, AppRecv
  | AppAddPeer, AppAddPeer | AppRemovePeer, AppRemovePeer
  | AppGetPeers, AppGetPeers | AppPeerAddAES, AppPeerAddAES
  | AppPeerRemoveAES, AppPeerRemoveAES | AppSetTempKey, AppSetTempKey
  | AppSetPreviousKey, AppSetPreviousKey | AppDefaultHMID, AppDefaultHMID
  | DualGetApp, DualGetApp | DualChangeApp, DualChangeApp => true
  | _, _ => false
  end.

(** The packet of the serial gateway. *)
Record Packet : Type := mkPacket {
  Dst : Z;
  pkt_msgcnt : Z;
  Cmd : uartcmd;
  Payload : list Z
}.

(** The gateway: the serial line is the bytes still to come (with the
    schedule of short reads) and the bytes written so far. *)
Record UARTGW : Type := mkUARTGW {
  uart_in : reader;
  uart_out : list Z;
  msgcnt : Z;
  devstate : Z
}.

(** A [uint16] in big-endian order, and back. *)
Definition be16 (x : Z) : list Z := [(x / 256) mod 256; x mod 256].

Definition of_be16 (bs : list Z) : Z := nth 0 bs 0 * 256 + nth 1 bs 0.

Section Checksum.

(** [crc16.Checksum(_, bidcosTable)], of the library github.com/sigurn/crc16:
    a function from the bytes to a [uint16]. *)
Variable crc : list Z -> Z.

(** [UARTGW.WritePacket].  The delimiter goes to the line as it is, the
    rest through the escaping writer; [fullpkt] collects the unescaped
    bytes for the checksum. *)
Definition WritePacket (pkt : Packet) (u : UARTGW) : result unit * UARTGW :=
  let out0 := uart_out u ++ [0xfd] in
  let fullpkt0 := [0xfd] in
  let len := (3 + Z.of_nat (length (Payload pkt))) mod 65536 in
  let out1 := snd (escapingWriter_Write (be16 len) out0) in
  let fullpkt1 := fullpkt0 ++ be16 len in
  match Byte (Cmd pkt) with
  | ROk cmd =>
    let hdr := [Dst pkt; msgcnt u; cmd] in
    let out2 := snd (escapingWriter_Write hdr out1) in
    let fullpkt2 := fullpkt1 ++ hdr in
    let out3 := snd (escapingWriter_Write (Payload pkt) out2) in
    let fullpkt3 := fullpkt2 ++ Payload pkt in
    let out4 := snd (escapingWriter_Write (be16 (crc fullpkt3)) out3) in
    (ROk tt, mkUARTGW (uart_in u) out4 (wrap8 (msgcnt u + 1)) (devstate u))
  | RErr e => (RErr e, mkUARTGW (uart_in u) out1 (msgcnt u) (devstate u))
  | RPanic => (RPanic, mkUARTGW (uart_in u) out1 (msgcnt u) (devstate u))
  end.

(** Reading [need] bytes through the unescaping reader, as [io.ReadFull]
    and [io.CopyN] do: every call passes a buffer for what is still
    missing (a smaller buffer is a short read, which the schedule of the
    line covers); a call that fails ends the loop with what was stored.
    A call that returns without error stores at least one byte, so
    [need] calls are enough: that is the fuel. *)
Fixpoint read_loop (fuel : nat) (need : nat) (r : reader)
  : list Z * option error * reader :=
  match need with
  | O => ([], None, r)
  | S _ =>
    match fuel with
    | O => ([], Some EOF, r)
    | S fuel' =>
      let '(out, err, r') := unescapingReader_Read need r in
      match err with
      | Some e => (out, Some e, r')
      | None =>
        let '(rest, err', r'') :=
          read_loop fuel' (need - length out) r' in
        (out ++ rest, err', r'')
      end
    end
  end.

Definition read_full (need : nat) (r : reader) : list Z * option error * reader :=
  read_loop need need r.

(** [binary.Read] of a [uint16] goes through [io.ReadFull]: with two
    bytes stored there is no error; nothing at all is [io.EOF], one byte
    is [io.ErrUnexpectedEOF]. *)
Definition read_uint16 (r : reader) : result Z * list Z * reader :=
  let '(bs, _, r') := read_full 2 r in
  if (2 <=? length bs)%nat then (ROk (of_be16 bs), bs, r')
  else
    match bs with
    | [] => (RErr ErrEOF, bs, r')
    | _ => (RErr ErrUnexpectedEOF, bs, r')
    end.

(** The body of [ReadPacket] after the frame delimiter has been read;
    [io.CopyN] fails with [io.EOF] unless it copied [len] bytes. *)
Definition read_frame (devstate : Z) (r : reader) : result Packet * reader :=
  let fullpkt0 := [0xfd] in
  let '(rl, lbs, r1) := read_uint16 r in
  match rl with
  | ROk len =>
    let '(frame, _, r2) := read_full (Z.to_nat len) r1 in
    if negb (length frame =? Z.to_nat len)%nat then (RErr ErrEOF, r2)
    else
      let want := crc (fullpkt0 ++ lbs ++ frame) in
      let '(rg, _, r3) := read_uint16 r2 in
      match rg with
      | ROk got =>
        if negb (got =? want) then (RErr ErrChecksum, r3)
        else
          match frame with
          | f0 :: f1 :: f2 :: payload =>
            match Command devstate f2 with
            | ROk cmd => (ROk (mkPacket f0 f1 cmd payload), r3)
            | RErr e => (RErr e, r3)
            | RPanic => (RPanic, r3)
            end
          | _ => (RPanic, r3)
          end
      | RErr e => (RErr e, r3)
      | RPanic => (RPanic, r3)
      end
  | RErr e => (RErr e, r1)
  | RPanic => (RPanic, r1)
  end.

(** The loop of [ReadPacket]: bytes are skipped until the delimiter
    0xfd; [None] when the fuel, one unit per skipped byte, runs out. *)
Fixpoint read_packet_loop (fuel : nat) (devstate : Z) (r : reader)
  : option (result Packet * reader) :=
  match fuel with
  | O => None
  | S fuel' =>
    let '(b, err, r1) := unescapingReader_Read 1 r in
    match err with
    | Some _ => Some (RErr ErrEOF, r1)
    | None =>
      if negb (nth 0 b 0 =? 0xfd) then read_packet_loop fuel' devstate r1
      else Some (read_frame devstate r1)
    end
  end.

(** [UARTGW.ReadPacket]. *)
Definition ReadPacket (fuel : nat) (u : UARTGW)
  : option (result Packet * UARTGW) :=
  match read_packet_loop fuel (devstate u) (uart_in u) with
  | Some (res, r) =>
    Some (res, mkUARTGW r (uart_out u) (msgcnt u) (devstate u))
  | None => None
  end.

(** [UARTGW.Confirm]: packets received from the radio are dropped until
    another packet comes, which must be the acknowledgement; [fuel]
    bounds the packets read and the bytes skipped before each. *)
Fixpoint Confirm (fuel : nat) (u : UARTGW) : option (result unit * UARTGW) :=
  match fuel with
  | O => None
  | S fuel' =>
    match ReadPacket (S fuel') u with
    | None => None
    | Some (ROk pkt, u') =>
      if uartcmd_eqb (Cmd pkt) AppRecv then Confirm fuel' u'
      else if negb (uartcmd_eqb (Cmd pkt) AppAck)
           then Some (RErr ErrUnexpectedCmd, u')
           else Some (ROk tt, u')
    | Some (RErr e, u') => Some (RErr e, u')
    | Some (RPanic, u') => Some (RPanic, u')
    end
  end.

(** [UARTGW.AppSend] and [UARTGW.Write]. *)
Definition UARTGW_AppSend (payload : list Z) (u : UARTGW) : result unit * UARTGW :=
  WritePacket (mkPacket App 0 AppSend payload) u.

Definition Write (p : list Z) (u : UARTGW) : nat * result unit * UARTGW :=
  let '(res, u') := UARTGW_AppSend p u in (length p, res, u').

(** [UARTGW.Read] into a buffer of [k] bytes: the bytes copied. *)
Definition Read (fuel : nat) (k : nat) (u : UARTGW)
  : option (result (list Z) * UARTGW) :=
  match ReadPacket fuel u with
  | None => None
  | Some (ROk pkt, u') =>
    if negb (uartcmd_eqb (Cmd pkt) AppRecv) then Some (RErr ErrUnexpectedCmd, u')
    else if (k <? length (Payload pkt))%nat then Some (RErr ErrBufferTooShort, u')
    else Some (ROk (Payload pkt), u')
  | Some (RErr e, u') => Some (RErr e, u')
  | Some (RPanic, u') => Some (RPanic, u')
  end.

End Checksum.

End uartgw_session.

(** * Vocabulary of the properties *)

Module uartgw_spec.

(** What one pass of the unescaping loop over the first [n] bytes of an
    escaped stream yields: a prefix of the original bytes, and either the
    escaped rest, or, when the cut fell inside an escape pair, the pending
    second byte followed by the escaped rest. *)
Inductive chunk_spec (b : list Z) (n : nat) : bool * list Z -> Prop :=
| chunk_whole b1 b2 :
    b = b1 ++ b2 ->
    drop n (flat_map uartgw.escape_byte b) = flat_map uartgw.escape_byte b2 ->
    (b <> [] -> (0 < n)%nat -> b1 <> []) ->
    chunk_spec b n (false, b1)
| chunk_pending b1 c b2 :
    b = b1 ++ c :: b2 ->
    drop n (flat_map uartgw.escape_byte b) = Z.land c 0x7f :: flat_map uartgw.escape_byte b2 ->
    Z.lor (Z.land c 0x7f) 0x80 = c ->
    chunk_spec b n (true, b1).

End uartgw_spec.

Module bidcos_spec.

(** The third status byte of an encoded packet. *)
Definition burst_byte (flags : Z) : Z :=
  if Z.land flags 0x10 =? 0x10 then 0x01 else 0x00.

End bidcos_spec.

Module hm_spec.

(** The indices named by the (index, value) pairs of [kv]. *)
Fixpoint pair_indices (kv : list Z) : list nat :=
  match kv with
  | idx :: _ :: kv' => Z.to_nat idx :: pair_indices kv'
  | _ => []
  end.

(** The indices covered by a run of [n] bytes that starts at [start];
    the index is a byte, so the run wraps at 256. *)
Definition run_indices (start : Z) (n : nat) : list nat :=
  map (fun k => Z.to_nat ((start + Z.of_nat k) mod 256)) (seq 0 n).

(** The indices a reply payload reports; the two end-of-response forms
    report none. *)
Definition named_by_payload (p : list Z) : list nat :=
  match p with
  | 0x02 :: kv => if hm.bytes_eqb kv [0x00; 0x00] then [] else pair_indices kv
  | 0x03 :: start :: vals =>
    if start =? 0x00 then [] else run_indices start (length vals)
  | _ => []
  end.

(** The indices reported by the deliveries [rs] that decode to a packet
    of the device [sdAddr]. *)
Definition named_by (sdAddr : bidcos.addr) (r : bidcos.read_result) : list nat :=
  match bidcos.packet_of r with
  | Ok pkt =>
    if bidcos.addr_eqb (bidcos.Source pkt) sdAddr
    then named_by_payload (bidcos.Payload pkt) else []
  | _ => []
  end.

Definition named (sdAddr : bidcos.addr) (rs : list bidcos.read_result)
  : list nat :=
  flat_map (named_by sdAddr) rs.

(** A controller and a device for the worked examples: the device
    [0xaabbcc] behind a gateway that delivers [ib] and never fails. *)
Definition controller : bidcos.addr := (0xfd, 0xee, 0xdd).
Definition device : bidcos.addr := (0xaa, 0xbb, 0xcc).

Definition reply_from (src : bidcos.addr) (cmd : Z) (payload : list Z)
  : bidcos.read_result :=
  bidcos.RData ([0x00; 0x00; 0x30; 0x2a; 0x80; cmd]
                  ++ bidcos.addr_bytes src ++ bidcos.addr_bytes controller
                  ++ payload).

Definition device_with (ib : list bidcos.read_result) : hm.state :=
  hm.mkState
    (hm.mkSD (bidcos.mkSender (bidcos.mkGateway ib [] [] []) controller)
             device 0)
    0.

(** The differing indices between the loaded memory and the target. *)
Definition diff_indices (devmem target : list Z) : list nat :=
  List.filter (fun i => negb (nth i devmem 0 =? nth i target 0))
              (seq 0 (length devmem)).

(** A written byte string that is a ConfigWriteIndexPairs packet, and
    the key/value bytes it carries. *)
Definition is_write_index (bs : list Z) : bool :=
  match bidcos.Decode bs with
  | Ok pkt =>
    (bidcos.Cmd pkt =? bidcos.Config) &&
    match bidcos.Payload pkt with
    | _ :: sub :: _ => sub =? bidcos.ConfigWriteIndexPairs
    | _ => false
    end
  | _ => false
  end.

Definition kv_of (bs : list Z) : list Z :=
  match bidcos.Decode bs with
  | Ok pkt => drop 2 (bidcos.Payload pkt)
  | _ => []
  end.

Definition ceil_div (a b : nat) : nat := ((a + b - 1) / b)%nat.

(** A mutator for the examples: set the first [n] bytes to 1. *)
Definition set_first (n : nat) (mem : list Z) : option (list Z) :=
  Some (replicate n 1 ++ drop n mem).

(** The gateway accepts every write and confirms it. *)
Definition no_write_failures (st : hm.state) : Prop :=
  bidcos.wfail (bidcos.Gateway (hm.BCS (hm.dev st))) = [] /\
  bidcos.cfail (bidcos.Gateway (hm.BCS (hm.dev st))) = [].

(** The next delivery is an acknowledgement as the peering paths want
    it: a packet with command [want] whose payload starts with 0x00. *)
Definition ack_ok (want : Z) (ib : list bidcos.read_result) : bool :=
  match ib with
  | r :: _ =>
    match bidcos.packet_of r with
    | Ok pkt =>
      (bidcos.Cmd pkt =? want) &&
      match bidcos.Payload pkt with
      | p0 :: _ => p0 =? 0x00
      | [] => false
      end
    | _ => false
    end
  | [] => false
  end.

Definition payload_of (bs : list Z) : list Z :=
  match bidcos.Decode bs with
  | Ok pkt => bidcos.Payload pkt
  | _ => []
  end.

Definition peer_payload (channel sub : Z) (p : hm.FullyQualifiedChannel)
  : list Z :=
  [channel; sub] ++ bidcos.addr_bytes (hm.Peer p) ++ [hm.Channel p; 0x00].

End hm_spec.

Module thermal_spec.

Definition weekdays : list Z :=
  [thermal.Saturday; thermal.Sunday; thermal.Monday; thermal.Tuesday;
   thermal.Wednesday; thermal.Thursday; thermal.Friday].

(** The program has the day's bit set in its DayMask. *)
Definition day_matches (day : Z) (pg : thermal.Program) : bool :=
  negb (Z.land (Z.shiftl 1 day) (thermal.DayMask pg) =? 0).

(** The first and the last program of the list that has the day's bit
    set. *)
Definition first_matching (day : Z) (programs : list thermal.Program)
  : option thermal.Program :=
  List.find (day_matches day) programs.

Fixpoint last_matching (day : Z) (programs : list thermal.Program)
  : option thermal.Program :=
  match programs with
  | [] => None
  | pg :: rest =>
    match last_matching day rest with
    | Some q => Some q
    | None => if day_matches day pg then Some pg else None
    end
  end.

(** The 26 bytes of parameter memory that start at [off]. *)
Definition region (off : nat) (mem : list Z) : list Z := take 26 (drop off mem).

(** Two programs for Monday, for the examples. *)
Definition monday_early : thermal.Program :=
  thermal.mkProgram (Z.shiftl 1 thermal.Monday)
    [thermal.mkEntry 360 (f64.of_Z 17); thermal.mkEntry 1320 (f64.of_Z 22)].
Definition monday_late : thermal.Program :=
  thermal.mkProgram thermal.WeekdayMask
    [thermal.mkEntry 600 (f64.of_Z 18); thermal.mkEntry 1380 (f64.of_Z 21)].

End thermal_spec.

Module decoder_spec.

(** The actual temperature as the frame layout gives it: a ten-bit
    number of tenths of a degree, two bits from one byte and eight from
    the next. *)
Definition ten_bit_tenths (hi lo : Z) : spec_float :=
  f64.div (f64.of_Z (Z.lor (Z.shiftl (Z.land hi 0x03) 8) lo)) (f64.of_Z 10).

(** The 14-bit field of the weather event. *)
Definition weather_field (p0 p1 : Z) : Z :=
  Z.land (Z.lor (Z.shiftl p0 8) p1) 0x3FFF.

Definition negative (f : spec_float) : bool := SFltb f f64.zero.

(** float64 literals of the examples, as sign, mantissa and exponent. *)
Definition f64_22_6 : spec_float := S754_finite false 6361334473660826 (-48).
Definition f64_0_1 : spec_float := S754_finite false 7205759403792794 (-56).
Definition f64_25_6 : spec_float := S754_finite false 7205759403792794 (-48).
Definition f64_819_2 : spec_float := S754_finite false 7205759403792794 (-43).
Definition f64_25_3 : spec_float := S754_finite false 7121316910779597 (-48).

(** A float that is not below zero by its shape: its sign bit is
    clear, or it is not a number. *)
Definition sign_clear (f : spec_float) : Prop :=
  match f with
  | S754_zero s | S754_infinity s | S754_finite s _ _ => s = false
  | S754_nan => True
  end.

End decoder_spec.

Module uartgw_session_spec.
Import uartgw uartgw_session.

(** A frame on the line: the delimiter, then, escaped, the length of the
    body, the body and a checksum. *)
Definition frame_with (body : list Z) (sum : Z) : list Z :=
  0xfd :: flat_map escape_byte
            (be16 (Z.of_nat (length body) mod 65536) ++ body ++ be16 sum).

(** The checksum is taken over the unescaped delimiter, length and body. *)
Definition frame_sum (crc : list Z -> Z) (body : list Z) : Z :=
  crc (0xfd :: be16 (Z.of_nat (length body) mod 65536) ++ body).

Definition frame (crc : list Z -> Z) (body : list Z) : list Z :=
  frame_with body (frame_sum crc body).

(** The body of the frame of a packet. *)
Definition body_of (dst cnt cmd : Z) (payload : list Z) : list Z :=
  dst :: cnt :: cmd :: payload.

(** Neither the delimiter nor the escape byte. *)
Definition plain (x : Z) : Prop := x <> 0xfd /\ x <> 0xfc.

(** A checksum function in place of the library's, for examples. *)
Definition sum16 (bs : list Z) : Z := fold_right Z.add 0 bs mod 65536.

(** What [ReadPacket] makes of the body of a frame whose checksum is
    right. *)
Definition parsed (devstate : Z) (body : list Z) : result Packet :=
  match body with
  | f0 :: f1 :: f2 :: payload =>
    match Command devstate f2 with
    | ROk cmd => ROk (mkPacket f0 f1 cmd payload)
    | RErr e => RErr e
    | RPanic => RPanic
    end
  | _ => RPanic
  end.

(** The line of a gateway that has written nothing yet. *)
Definition fresh (u : UARTGW) : Prop := uart_out u = [].

(** The gateway with other bytes still to come. *)
Definition with_input (u : UARTGW) (d : list Z) (caps : list nat) : UARTGW :=
  mkUARTGW (mkReader d caps) (uart_out u) (msgcnt u) (devstate u).

(** The device state a command belongs to, by its name. *)
Definition state_of (c : uartcmd) : Z :=
  match c with
  | OSGetApp | OSGetFirmware | OSChangeApp | OSAck | OSUpdateFirmware
  | OSNormalMode | OSUpdateMode | OSGetCredits | OSEnableCredits
  | OSEnableCSMACA | OSGetSerial | OSSetTime => OS
  | DualGetApp | DualChangeApp => Dual
  | _ => App
  end.

(** A frame from the radio and the frame of an acknowledgement, as the
    gateway in application state sees them. *)
Definition received (body : list Z) : Prop :=
  exists d m p, body = body_of d m 0x05 p.

End uartgw_session_spec.

Module device_spec.
Import hm.

(** The values that [n] calls of [count] in a row return. *)
Fixpoint counts (n : nat) (st : state) : list Z :=
  match n with
  | O => []
  | S n' =>
    match count st with
    | (Ok c, st') => c :: counts n' st'
    | _ => []
    end
  end.

(** A delivery that the read loops of a device do not skip: anything but
    a packet of another source. *)
Definition relevant (sdAddr : bidcos.addr) (r : bidcos.read_result) : bool :=
  match bidcos.packet_of r with
  | Ok pkt => bidcos.addr_eqb (bidcos.Source pkt) sdAddr
  | _ => true
  end.

(** A delivery that ends a parameter response: a packet of the device
    whose payload is 0x02 0x00 0x00, or starts with 0x03 0x00. *)
Definition ends_response (sdAddr : bidcos.addr) (r : bidcos.read_result)
  : bool :=
  match bidcos.packet_of r with
  | Ok pkt =>
    bidcos.addr_eqb (bidcos.Source pkt) sdAddr &&
    match bidcos.Payload pkt with
    | p0 :: p1 =>
      if p0 =? 0x02 then bytes_eqb p1 [0x00; 0x00]
      else if p0 =? 0x03 then
        match p1 with
        | start :: _ => start =? 0x00
        | [] => false
        end
      else false
    | [] => false
    end
  | _ => false
  end.

(** The value that the (index, value) pairs of [kv] leave at index [j]:
    that of the last pair that names [j]. *)
Fixpoint last_value (kv : list Z) (j : nat) : option Z :=
  match kv with
  | idx :: val :: kv' =>
    match last_value kv' j with
    | Some v => Some v
    | None => if (Z.to_nat idx =? j)%nat then Some val else None
    end
  | _ => None
  end.

(** The four bytes of a peer in a peer list. *)
Definition peer_record (p : FullyQualifiedChannel) : list Z :=
  bidcos.addr_bytes (Peer p) ++ [Channel p].

Definition is_end_record (p : FullyQualifiedChannel) : bool :=
  bytes_eqb (peer_record p) [0x00; 0x00; 0x00; 0x00].

(** The payloads of the three packets of [Pair]. *)
Definition pair_payloads (controller : bidcos.addr) : list (list Z) :=
  [[0; bidcos.ConfigStart; 0; 0; 0; 0; 0];
   [0; bidcos.ConfigWriteIndexPairs; 0x02; 0x01]
     ++ [0x0a; fst (fst controller); 0x0b; snd (fst controller);
         0x0c; snd controller];
   [0; bidcos.ConfigEnd]].

End device_spec.

Module program_spec.

(** The float64 of [k] half degrees, k / 2. *)
Definition half_degrees (k : Z) : spec_float :=
  binary_normalize 53 1024 k (-1) false.

(** The two bytes of an entry from the fields as integers: [e5] is the
    end time in units of five minutes, [t2] the temperature in half
    degrees. *)
Definition entry_bytes (e5 t2 : Z) : Z * Z :=
  (wrap8 (Z.lor (Z.shiftr (Z.land e5 0x0100) 8)
                ((Z.shiftl (Z.land t2 hm.Mask6Bit) 1) mod 65536)),
   wrap8 (Z.shiftr (Z.land e5 0x00FF) 0)).

(** The fields read back from the two bytes. *)
Definition entry_endtime5 (b0 b1 : Z) : Z := Z.land b0 1 * 256 + b1.
Definition entry_half_degrees (b0 : Z) : Z := Z.shiftr b0 1.

Definition entry_ok (e5 t2 : Z) : bool :=
  let '(b0, b1) := entry_bytes e5 t2 in
  (entry_endtime5 b0 b1 =? e5) && (entry_half_degrees b0 =? t2)
  && (0 <=? b0) && (b0 <? 128) && (0 <=? b1) && (b1 <? 256).

Definition half_degrees_ok (k : Z) : bool :=
  negb (SFeqb (half_degrees k) f64.zero)
  && (f64.to_uint16 (f64.mul (half_degrees k) (f64.of_Z 2)) =? k).

End program_spec.

Module event_spec.

(** The number two or three bytes make, most significant byte first. *)
Definition be2 (hi lo : Z) : Z := hi * 256 + lo.
Definition be3 (hi mid lo : Z) : Z := hi * 65536 + mid * 256 + lo.



(** float64 literals of the test of the power event. *)
Definition f64_90_6 : spec_float := S754_finite false 6375408222496358 (-46).
Definition f64_1_87 : spec_float := S754_finite false 8421731303182828 (-52).
Definition f64_16 : spec_float := S754_finite false 4503599627370496 (-48).
Definition f64_231_2 : spec_float := S754_finite false 8134626826937958 (-45).
Definition f64_52_55 : spec_float := S754_finite false 7395755013072486 (-47).

End event_spec.

(** * Properties *)

Lemma wrap8_is_byte x : is_byte (wrap8 x).
Proof. unfold is_byte, wrap8. apply Z.mod_pos_bound. lia. Qed.

Lemma wrap8_small x : is_byte x -> wrap8 x = x.
Proof. unfold is_byte, wrap8. intros H. apply Z.mod_small. lia. Qed.

(** ** Byte stuffing round trip *)

Module uartgw_props.
Import uartgw uartgw_spec.

(** The escaping loop appends the escaped bytes to its accumulator. *)
Lemma escape_loop_acc p : forall acc,
  escape_loop p acc = acc ++ flat_map escape_byte p.
Proof.
  induction p as [|b p IH]; intros acc; simpl.
  - now rewrite app_nil_r.
  - rewrite IH. now rewrite <- app_assoc.
Qed.

Lemma escape_loop_flat p : escape_loop p [] = flat_map escape_byte p.
Proof. apply escape_loop_acc. Qed.

(** For the two bytes that are escaped, masking with 0x7f and flipping
    bit 7 agree. *)
Lemma escape_byte_xor x :
  escape_byte x =
  if (x =? 0xfd) || (x =? 0xfc) then [0xfc; Z.lxor x 0x80] else [x].
Proof.
  unfold escape_byte.
  destruct (Z.eqb_spec x 0xfd) as [->|]; [reflexivity|].
  destruct (Z.eqb_spec x 0xfc) as [->|]; reflexivity.
Qed.

Lemma escape_loop_escaped_form p : escape_loop p [] = escaped_form p.
Proof.
  rewrite escape_loop_flat. unfold escaped_form.
  induction p as [|b p IH]; simpl; [reflexivity|].
  now rewrite IH, escape_byte_xor.
Qed.

Lemma Write_sink p w :
  snd (escapingWriter_Write p w) = w ++ escape_loop p [].
Proof.
  destruct p; simpl; [now rewrite app_nil_r | reflexivity].
Qed.

(** The unescaping loop appends to its output. *)
Lemma unescape_loop_acc raw : forall e out,
  unescape_loop raw e out =
  (fst (unescape_loop raw e []), out ++ snd (unescape_loop raw e [])).
Proof.
  induction raw as [|b raw IH]; intros e out; simpl.
  - now rewrite app_nil_r.
  - destruct (b =? 0xfc).
    + apply IH.
    + destruct e.
      * rewrite IH. rewrite (IH false [Z.lor b 128]). simpl.
        now rewrite <- app_assoc.
      * rewrite IH. rewrite (IH false [b]). simpl.
        now rewrite <- app_assoc.
Qed.

Lemma escape_cons_special x b :
  (x =? 0xfd) || (x =? 0xfc) = true ->
  flat_map escape_byte (x :: b) =
  0xfc :: Z.land x 0x7f :: flat_map escape_byte b.
Proof. intros H. simpl. unfold escape_byte at 1. now rewrite H. Qed.

Lemma escape_cons_plain x b :
  (x =? 0xfd) || (x =? 0xfc) = false ->
  flat_map escape_byte (x :: b) = x :: flat_map escape_byte b.
Proof. intros H. simpl. unfold escape_byte at 1. now rewrite H. Qed.

Lemma unescape_chunk b : forall n,
  chunk_spec b n (unescape_loop (take n (flat_map escape_byte b)) false []).
Proof.
  induction b as [|x b IH]; intros n.
  - simpl. rewrite take_nil. simpl.
    apply (chunk_whole [] n [] []); auto. simpl. apply drop_nil.
  - destruct n as [|n].
    + simpl. apply (chunk_whole _ _ [] (x :: b)); auto. lia.
    + destruct ((x =? 0xfd) || (x =? 0xfc)) eqn:Hx.
      * (* an escaped byte: 0xfc, then x & 0x7f *)
        assert (Hc : Z.lor (Z.land x 0x7f) 0x80 = x
                     /\ (Z.land x 0x7f =? 0xfc) = false).
        { apply orb_true_iff in Hx as [Hx|Hx]; apply Z.eqb_eq in Hx; subst x;
            split; reflexivity. }
        destruct Hc as [Hc1 Hc2].
        rewrite (escape_cons_special x b Hx).
        destruct n as [|n].
        -- simpl. apply (chunk_pending _ _ [] x b); auto.
           now rewrite (escape_cons_special x b Hx).
        -- simpl. rewrite Hc2, Hc1.
           rewrite unescape_loop_acc.
           specialize (IH n).
           inversion IH as [b1 b2 Hb Hd Hne Heq|b1 c b2 Hb Hd Hc Heq]; simpl.
           ++ apply (chunk_whole _ _ (x :: b1) b2).
              ** now rewrite Hb.
              ** now rewrite (escape_cons_special x b Hx).
              ** intros _ _. discriminate.
           ++ apply (chunk_pending _ _ (x :: b1) c b2); auto.
              ** now rewrite Hb.
              ** now rewrite (escape_cons_special x b Hx).
      * (* an ordinary byte *)
        rewrite (escape_cons_plain x b Hx).
        apply orb_false_iff in Hx as Hx'. destruct Hx' as [_ Hx'].
        simpl. rewrite Hx'.
        rewrite unescape_loop_acc.
        specialize (IH n).
        inversion IH as [b1 b2 Hb Hd Hne Heq|b1 c b2 Hb Hd Hc Heq]; simpl.
        -- apply (chunk_whole _ _ (x :: b1) b2).
           ++ now rewrite Hb.
           ++ now rewrite (escape_cons_plain x b Hx).
           ++ intros _ _. discriminate.
        -- apply (chunk_pending _ _ (x :: b1) c b2); auto.
           ++ now rewrite Hb.
           ++ now rewrite (escape_cons_plain x b Hx).
Qed.

Lemma escape_nonempty b : b <> [] -> flat_map escape_byte b <> [].
Proof.
  destruct b as [|x b]; [congruence|]. intros _. simpl.
  unfold escape_byte. destruct ((x =? 0xfd) || (x =? 0xfc)); discriminate.
Qed.

Lemma reader_Read_data k d caps :
  d <> [] ->
  exists n, (k <> 0 -> 0 < n)%nat /\
    reader_Read k (mkReader d caps) =
    (take n d, None, mkReader (drop n d) (tl caps)).
Proof.
  intros Hd. unfold reader_Read. simpl.
  destruct d as [|x d]; [congruence|].
  destruct caps as [|c caps].
  - exists k. split; [lia | reflexivity].
  - exists (Nat.min k (Nat.max 1 c)). split; [lia | reflexivity].
Qed.

Lemma reader_Read_one x d caps :
  reader_Read 1 (mkReader (x :: d) caps) = ([x], None, mkReader d (tl caps)).
Proof.
  unfold reader_Read. cbn [rdata rcaps].
  destruct caps as [|c caps]; [reflexivity|].
  replace (Nat.min 1 (Nat.max 1 c)) with 1%nat by lia. reflexivity.
Qed.

(** One call of [Read] on an escaped stream delivers a non-empty prefix
    of the original bytes and leaves the escaped form of the rest: the
    escape state never crosses a call. *)
Lemma Read_escaped b k caps :
  b <> [] -> (0 < k)%nat ->
  exists b1 b2 caps',
    b = b1 ++ b2 /\ b1 <> [] /\
    unescapingReader_Read k (mkReader (flat_map escape_byte b) caps) =
    (b1, None, mkReader (flat_map escape_byte b2) caps').
Proof.
  intros Hb Hk. unfold unescapingReader_Read.
  destruct k as [|k]; [lia|].
  destruct (reader_Read_data (S k) _ caps (escape_nonempty b Hb))
    as (n & Hn & ->).
  pose proof (unescape_chunk b n) as Hc.
  inversion Hc as [b1 b2 Hb12 Hd Hne Heq|b1 c b2 Hb12 Hd Hlor Heq].
  - exists b1, b2, (tl caps). rewrite Hd.
    split; [exact Hb12|]. split; [|reflexivity].
    apply Hne; [exact Hb | apply Hn; lia].
  - exists (b1 ++ [c]), b2, (tl (tl caps)). rewrite Hd.
    rewrite reader_Read_one. simpl. rewrite Hlor.
    split; [now rewrite <- app_assoc|]. split; [|reflexivity].
    destruct b1; discriminate.
Qed.

Lemma Read_eof k caps :
  (0 < k)%nat ->
  unescapingReader_Read k (mkReader [] caps) = ([], Some EOF, mkReader [] caps).
Proof. intros Hk. destruct k; [lia|]. reflexivity. Qed.

Lemma read_all_escaped fuel : forall b ks caps,
  (forall i, 0 < ks i)%nat ->
  (length b < fuel)%nat ->
  read_all fuel ks (mkReader (flat_map escape_byte b) caps) = Some b.
Proof.
  induction fuel as [|fuel IH]; intros b ks caps Hks Hlen; [lia|].
  simpl. destruct b as [|x b].
  - simpl. now rewrite Read_eof.
  - destruct (Read_escaped (x :: b) (ks 0%nat) caps) as (b1 & b2 & caps' & Hb & Hne & ->);
      [discriminate | apply Hks |].
    rewrite IH.
    + now rewrite Hb.
    + intros i. apply Hks.
    + assert (Hl : length (x :: b) = length (b1 ++ b2)) by now rewrite Hb.
      rewrite length_app in Hl. simpl in Hl, Hlen.
      destruct b1; [congruence|]. simpl in Hl. lia.
Qed.

(** C2.  The escaping writer replaces each 0xfd or 0xfc by the two bytes
    0xfc, (b XOR 0x80) and leaves the other bytes as they are; reading
    what it wrote back through the unescaping reader, with any buffer
    sizes and any pattern of short reads, returns the original bytes. *)
Theorem unescape_escape_roundtrip (b : list Z) (ks : nat -> nat)
    (caps : list nat) (fuel : nat) :
  (forall i, 0 < ks i)%nat ->
  (length b < fuel)%nat ->
  snd (escapingWriter_Write b []) = escaped_form b /\
  read_all fuel ks (mkReader (snd (escapingWriter_Write b [])) caps) = Some b.
Proof.
  intros Hks Hfuel. rewrite Write_sink. simpl. split.
  - apply escape_loop_escaped_form.
  - rewrite escape_loop_flat. now apply read_all_escaped.
Qed.

Lemma unescape_escape_roundtrip_witness :
  snd (escapingWriter_Write [0x01; 0xfc; 0xfd; 0x7c; 0xff] [])
    = escaped_form [0x01; 0xfc; 0xfd; 0x7c; 0xff] /\
  read_all 6 (fun _ => 2%nat)
    (mkReader (snd (escapingWriter_Write [0x01; 0xfc; 0xfd; 0x7c; 0xff] []))
              [3%nat; 1%nat])
    = Some [0x01; 0xfc; 0xfd; 0x7c; 0xff].
Proof.
  apply (unescape_escape_roundtrip [0x01; 0xfc; 0xfd; 0x7c; 0xff]
           (fun _ => 2%nat) [3%nat; 1%nat] 6).
  - intros i. lia.
  - simpl. lia.
Defined.

End uartgw_props.

(** ** Packet codec *)

Module bidcos_props.
Import bidcos bidcos_spec.

(** C1, as the specification states it, fails: a packet whose [Msgcnt]
    is 0 is sent with the value of the rolling counter, so after the
    first such packet the decoded [Msgcnt] differs from the one encoded. *)
Lemma Decode_Encode_Msgcnt_counterexample :
  let p := {| status := 0; info := 0; rssi := 0; Msgcnt := 0;
              Flags := DefaultFlags; Cmd := Config;
              Source := (0xfd, 0xee, 0xdd); Dest := (0xaa, 0xbb, 0xcc);
              Payload := [0x00; 0x06] |} in
  (length (Payload p) <= 17)%nat /\
  exists q, Decode (fst (Encode p 9)) = Ok q /\ Msgcnt q = 9 /\
            Msgcnt q <> Msgcnt p.
Proof.
  simpl. split; [lia|]. eexists. split; [reflexivity|].
  simpl. split; [reflexivity | discriminate].
Qed.

(** C1, amended.  Decoding an encoded packet succeeds and gives back
    Flags, Cmd, Source, Dest and Payload; the three status bytes are 00,
    00 and burst; Msgcnt comes back when it is not 0, and is the value of
    the rolling counter when it is 0. *)
Theorem Decode_Encode (p : Packet) (counter : Z) :
  exists q,
    Decode (fst (Encode p counter)) = Ok q /\
    status q = 0x00 /\ info q = 0x00 /\ rssi q = burst_byte (Flags p) /\
    Msgcnt q = (if Msgcnt p =? 0 then counter else Msgcnt p) /\
    Flags q = Flags p /\ Cmd q = Cmd p /\
    Source q = Source p /\ Dest q = Dest p /\ Payload q = Payload p.
Proof.
  unfold Encode, burst_byte.
  destruct p as [st inf rs mc fl cm [[s0 s1] s2] [[d0 d1] d2] pl]; simpl.
  destruct (mc =? 0); simpl; eexists; repeat split; reflexivity.
Qed.

(** C5.  An encode of a packet whose Msgcnt is 0 moves the global
    counter on by 9 modulo 256 (and sends the old value); every call of
    [StandardDevice.count] returns the device counter and moves it on by 9
    modulo 256. *)
Theorem counter_stride (p : Packet) (counter : Z) (st : hm.state) :
  Msgcnt p = 0 ->
  snd (Encode p counter) = wrap8 (counter + 9) /\
  nth 3 (fst (Encode p counter)) 0 = counter /\
  fst (hm.count st) = Ok (hm.msgcnt (hm.dev st)) /\
  hm.msgcnt (hm.dev (snd (hm.count st))) = wrap8 (hm.msgcnt (hm.dev st) + 9).
Proof.
  intros H. unfold Encode. rewrite H. simpl. repeat split; reflexivity.
Qed.

Lemma counter_stride_witness :
  let p := {| status := 0; info := 0; rssi := 0; Msgcnt := 0;
              Flags := DefaultFlags; Cmd := Config;
              Source := (0, 0, 0); Dest := (0xaa, 0xbb, 0xcc);
              Payload := [0x00; 0x06] |} in
  let st := hm.mkState
              (hm.mkSD (mkSender (mkGateway [] [] [] []) (0xfd, 0xee, 0xdd))
                       (0xaa, 0xbb, 0xcc) 252)
              250 in
  snd (Encode p 250) = 3 /\
  nth 3 (fst (Encode p 250)) 0 = 250 /\
  fst (hm.count st) = Ok 252 /\
  hm.msgcnt (hm.dev (snd (hm.count st))) = 5.
Proof.
  intros p st.
  exact (counter_stride p 250 st eq_refl).
Defined.

(** A packet whose Msgcnt is not 0 leaves the global counter alone. *)
Lemma Encode_counter_kept (p : Packet) (counter : Z) :
  Msgcnt p <> 0 -> snd (Encode p counter) = counter.
Proof.
  intros H. unfold Encode. apply Z.eqb_neq in H. now rewrite H.
Qed.

End bidcos_props.

(** ** Parameter memory *)

Module hm_props.
Import hm hm_spec.

Lemma pair_ind (P : list Z -> Prop) :
  P [] -> (forall x, P [x]) -> (forall x y l, P l -> P (x :: y :: l)) ->
  forall l, P l.
Proof.
  intros H0 H1 H2.
  fix IH 1. intros [|x [|y l]]; [exact H0 | apply H1 | apply H2, IH].
Qed.

Lemma store_frame mem i v mem' :
  store mem i v = Some mem' ->
  length mem' = length mem /\
  forall j : nat, j <> Z.to_nat i -> mem' !! j = mem !! j.
Proof.
  unfold store. destruct (Z.to_nat i <? length mem)%nat; [|discriminate].
  intros [= <-]. split; [apply length_insert|].
  intros j Hj. now apply list_lookup_insert_ne.
Qed.

Lemma write_pairs_frame kv : forall mem r mem',
  write_pairs kv mem = (r, mem') ->
  length mem' = length mem /\
  forall j : nat, ~ In j (pair_indices kv) -> mem' !! j = mem !! j.
Proof.
  induction kv as [|x|idx val kv IH] using pair_ind; intros mem r mem' H.
  - now inversion H.
  - now inversion H.
  - simpl in H. destruct (store mem idx val) as [mem1|] eqn:Hs.
    + destruct (store_frame _ _ _ _ Hs) as [Hl1 Hf1].
      destruct (IH _ _ _ H) as [Hl Hf]. split; [congruence|].
      intros j Hj. simpl in Hj.
      rewrite Hf by tauto. apply Hf1. intros ->. tauto.
    + now inversion H.
Qed.

Lemma write_seq_frame vals : forall start i mem r mem',
  write_seq start i vals mem = (r, mem') ->
  length mem' = length mem /\
  forall j : nat,
    (forall k, (k < length vals)%nat ->
               j <> Z.to_nat ((start + Z.of_nat (i + k)) mod 256)) ->
    mem' !! j = mem !! j.
Proof.
  induction vals as [|v vals IH]; intros start i mem r mem' H.
  - now inversion H.
  - simpl in H.
    destruct (store mem _ v) as [mem1|] eqn:Hs.
    + destruct (store_frame _ _ _ _ Hs) as [Hl1 Hf1].
      destruct (IH _ _ _ _ _ H) as [Hl Hf]. split; [congruence|].
      intros j Hj. rewrite Hf.
      * apply Hf1. specialize (Hj 0%nat ltac:(simpl; lia)).
        unfold wrap8. rewrite Zplus_mod_idemp_r.
        now rewrite Nat.add_0_r in Hj.
      * intros k Hk. specialize (Hj (S k) ltac:(simpl; lia)).
        now replace (S i + k)%nat with (i + S k)%nat by lia.
    + now inversion H.
Qed.

Lemma run_indices_In start n j :
  ~ In j (run_indices start n) ->
  forall k, (k < n)%nat -> j <> Z.to_nat ((start + Z.of_nat (0 + k)) mod 256).
Proof.
  intros Hj k Hk Heq. apply Hj. unfold run_indices.
  apply in_map_iff. exists k. split; [now subst j|].
  apply in_seq. lia.
Qed.

(** Sending a Config request touches neither the inbox nor the device
    address; when it succeeds, exactly one byte string has been written:
    a Config packet that carries the payload. *)
Lemma send_config_any flags payload st :
  inbox_of (snd (send_config flags payload st)) = inbox_of st /\
  Addr (dev (snd (send_config flags payload st))) = Addr (dev st).
Proof.
  destruct st as [[[[ib wf cf sn] sa] a mc] c].
  unfold send_config, bind, count, WritePacket, bidcos.WritePacket,
    bidcos.Encode, bidcos.Gateway_Write, bidcos.Gateway_Confirm, inbox_of.
  simpl. destruct (mc =? 0); simpl;
    destruct wf as [|[|] wf]; simpl; destruct cf as [|[|] cf]; simpl; auto.
Qed.

Lemma send_config_ok flags payload st st' :
  send_config flags payload st = (Ok tt, st') ->
  exists bs pkt,
    sent_of st' = sent_of st ++ [bs] /\
    bidcos.Decode bs = Ok pkt /\
    bidcos.Cmd pkt = bidcos.Config /\ bidcos.Flags pkt = flags /\
    bidcos.Dest pkt = Addr (dev st) /\ bidcos.Payload pkt = payload.
Proof.
  destruct st as [[[[ib wf cf sn] [[s0 s1] s2]] [[a0 a1] a2] mc] c].
  unfold send_config, bind, count, WritePacket, bidcos.WritePacket,
    bidcos.Encode, bidcos.Gateway_Write, bidcos.Gateway_Confirm, sent_of.
  simpl. destruct (mc =? 0); simpl;
    destruct wf as [|[|] wf]; simpl; destruct cf as [|[|] cf]; simpl;
    intros [= <-]; simpl; do 2 eexists; (split; [reflexivity|]);
    (split; [reflexivity|]); simpl; auto.
Qed.

Lemma send_config_sent flags payload st :
  exists l, sent_of (snd (send_config flags payload st)) = sent_of st ++ l.
Proof.
  destruct st as [[[[ib wf cf sn] sa] a mc] c].
  unfold send_config, bind, count, WritePacket, bidcos.WritePacket,
    bidcos.Encode, bidcos.Gateway_Write, bidcos.Gateway_Confirm, sent_of.
  simpl. destruct (mc =? 0); simpl;
    destruct wf as [|[|] wf]; simpl; destruct cf as [|[|] cf]; simpl;
    first [ now exists [] ; rewrite app_nil_r | eexists; reflexivity ].
Qed.

Lemma inbox_of_set_inbox ib st : inbox_of (set_inbox ib st) = ib.
Proof. reflexivity. Qed.

Lemma sent_of_set_inbox ib st : sent_of (set_inbox ib st) = sent_of st.
Proof. reflexivity. Qed.

(** The read loop changes the memory only where the replies it consumed
    say so, whatever its outcome. *)
Lemma readConfig_frame a ib : forall mem r mem' ib',
  readConfig a ib mem = (r, mem', ib') ->
  exists consumed,
    ib = consumed ++ ib' /\
    length mem' = length mem /\
    forall j : nat, ~ In j (named a consumed) -> mem' !! j = mem !! j.
Proof.
  induction ib as [|d ib IH]; intros mem r mem' ib' H.
  - simpl in H. inversion H; subst. exists []. auto.
  - simpl in H.
    assert (Hstop : forall r0 mem1,
      length mem1 = length mem ->
      (forall j : nat, ~ In j (named_by a d) -> mem1 !! j = mem !! j) ->
      (r0, mem1, ib) = (r, mem', ib') ->
      exists consumed,
        d :: ib = consumed ++ ib' /\ length mem' = length mem /\
        forall j : nat, ~ In j (named a consumed) -> mem' !! j = mem !! j).
    { intros r0 mem1 Hl1 Hf1 [= _ <- <-]. exists [d].
      split; [reflexivity|]. split; [exact Hl1|].
      intros j Hj. apply Hf1. unfold named in Hj. simpl in Hj.
      now rewrite app_nil_r in Hj. }
    assert (Hnext : forall mem1,
      length mem1 = length mem ->
      (forall j : nat, ~ In j (named_by a d) -> mem1 !! j = mem !! j) ->
      readConfig a ib mem1 = (r, mem', ib') ->
      exists consumed,
        d :: ib = consumed ++ ib' /\ length mem' = length mem /\
        forall j : nat, ~ In j (named a consumed) -> mem' !! j = mem !! j).
    { intros mem1 Hl1 Hf1 Hrec.
      destruct (IH _ _ _ _ Hrec) as (cons & Hib & Hl & Hf).
      exists (d :: cons). split; [now rewrite Hib|]. split; [congruence|].
      intros j Hj. unfold named in Hj. simpl in Hj. rewrite in_app_iff in Hj.
      rewrite Hf by (unfold named; tauto). apply Hf1. tauto. }
    unfold named_by in Hstop, Hnext.
    destruct (bidcos.packet_of d) as [pkt| |];
      [|eapply (Hstop _ mem); eauto|eapply (Hstop _ mem); eauto].
    destruct (bidcos.addr_eqb (bidcos.Source pkt) a); simpl in H;
      [|apply (Hnext mem); auto].
    destruct (bidcos.Payload pkt) as [|p0 p1]; [eapply (Hstop _ mem); eauto|].
    unfold bidcos.InfoParamResponsePairs, bidcos.InfoParamResponseSeq in H.
    destruct (Z.eqb_spec p0 2) as [->|Hp2].
    + simpl in Hstop, Hnext.
      destruct (bytes_eqb p1 [0; 0]) eqn:Hend; [eapply (Hstop _ mem); eauto|].
      destruct (write_pairs p1 mem) as [r1 mem1] eqn:Hw.
      destruct (write_pairs_frame _ _ _ _ Hw) as [Hl Hf].
      destruct r1; [apply (Hnext mem1); auto| |];
        eapply (Hstop _ mem1); eauto.
    + destruct (Z.eqb_spec p0 3) as [->|Hp3];
        [|eapply (Hstop _ mem); eauto; destruct p0 as [|[|[|]|]|]; auto].
      destruct p1 as [|start vals]; [eapply (Hstop _ mem); eauto|].
      simpl in Hstop, Hnext.
      destruct (start =? 0) eqn:Hend; [eapply (Hstop _ mem); eauto|].
      destruct (write_seq start 0 vals mem) as [r1 mem1] eqn:Hw.
      destruct (write_seq_frame _ _ _ _ _ _ Hw) as [Hl Hf].
      assert (Hf' : forall j : nat,
                ~ In j (run_indices start (length vals)) ->
                mem1 !! j = mem !! j).
      { intros j Hj. apply Hf. now apply run_indices_In. }
      destruct r1; [apply (Hnext mem1); auto| |];
        eapply (Hstop _ mem1); eauto.
Qed.

(** The frame property of [LoadConfig], for any initial memory. *)
Lemma LoadConfig_keeps_unreported (mem : list Z) (channel paramlist : Z)
    (st : state) (mem' : list Z) (st' : state) :
  LoadConfig mem channel paramlist st = (Ok tt, mem', st') ->
  exists consumed,
    inbox_of st = consumed ++ inbox_of st' /\
    length mem' = length mem /\
    forall j : nat,
      ~ In j (named (Addr (dev st)) consumed) -> mem' !! j = mem !! j.
Proof.
  unfold LoadConfig, ConfigParamReq. intros H.
  pose proof (send_config_any
                (Z.lor bidcos.DefaultFlags bidcos.Burst)
                [channel; bidcos.ConfigParamReq; 0; 0; 0; 0; paramlist] st)
    as [Hib Ha].
  destruct (send_config _ _ st) as [[u| |] st1]; [|discriminate|discriminate].
  simpl in Hib, Ha.
  destruct (readConfig (Addr (dev st1)) (inbox_of st1) mem)
    as [[r1 mem1] ib1] eqn:Hr.
  inversion H; subst.
  destruct (readConfig_frame _ _ _ _ _ _ Hr) as (cons & Hc & Hl & Hf).
  exists cons. rewrite inbox_of_set_inbox, <- Hib, <- Ha. auto.
Qed.

(** C3.  When [LoadConfig] returns without error, the replies it
    consumed are a prefix of what the gateway had to deliver, the memory
    has kept its length, and every index that no consumed reply of the
    device reported, neither in an (index, value) pair nor inside a run,
    holds the value it held before; on the all-zero memory of a first
    read that value is zero. *)
Theorem LoadConfig_frame (mem : list Z) (channel paramlist : Z)
    (st : state) (mem' : list Z) (st' : state) :
  LoadConfig mem channel paramlist st = (Ok tt, mem', st') ->
  exists consumed,
    inbox_of st = consumed ++ inbox_of st' /\
    length mem' = length mem /\
    (forall j : nat,
       ~ In j (named (Addr (dev st)) consumed) -> mem' !! j = mem !! j) /\
    (mem = replicate 256 0 ->
     forall j : nat, (j < 256)%nat ->
       ~ In j (named (Addr (dev st)) consumed) -> mem' !! j = Some 0).
Proof.
  intros H.
  destruct (LoadConfig_keeps_unreported _ _ _ _ _ _ H) as (c & Hc & Hl & Hf).
  exists c. split; [exact Hc|]. split; [exact Hl|]. split; [exact Hf|].
  intros -> j Hj Hn. rewrite (Hf j Hn). now apply lookup_replicate_2.
Qed.

Lemma LoadConfig_frame_witness :
  let st := device_with
              [ reply_from device 0x10 [0x02; 0x05; 0x07; 0x09; 0x01];
                reply_from controller 0x10 [0x02; 0x06; 0x66];
                reply_from device 0x10 [0x03; 0xff; 0x11; 0x22];
                reply_from device 0x10 [0x02; 0x00; 0x00];
                reply_from device 0x10 [0x02; 0x08; 0x08] ] in
  let res := LoadConfig (replicate 256 0) 0 7 st in
  fst (fst res) = Ok tt /\
  snd (fst res) !! 5%nat = Some 0x07 /\
  snd (fst res) !! 255%nat = Some 0x11 /\
  snd (fst res) !! 0%nat = Some 0x22 /\
  exists consumed,
    inbox_of st = consumed ++ inbox_of (snd res) /\
    length (snd (fst res)) = length (replicate 256 0) /\
    (forall j : nat,
       ~ In j (named device consumed) ->
       snd (fst res) !! j = replicate 256 0 !! j) /\
    (replicate 256 0 = replicate 256 0 ->
     forall j : nat, (j < 256)%nat ->
       ~ In j (named device consumed) -> snd (fst res) !! j = Some 0).
Proof.
  intros st res.
  split; [reflexivity|]. split; [reflexivity|].
  split; [reflexivity|]. split; [reflexivity|].
  apply (LoadConfig_frame (replicate 256 0) 0 7 st (snd (fst res)) (snd res)).
  reflexivity.
Defined.

(** C10.  A reply of the device that starts with InfoParamResponsePairs
    and carries an odd number of bytes after it makes [LoadConfig] index
    the payload past its end: the outcome is a panic, not an error; so
    does an InfoParamResponseSeq reply of one byte, and a reply with no
    payload at all. *)
Theorem LoadConfig_malformed_reply_panics :
  fst (fst (LoadConfig (replicate 256 0) 0 7
              (device_with [reply_from device 0x10 [0x02; 0x05]]))) = Panic /\
  fst (fst (LoadConfig (replicate 256 0) 0 7
              (device_with [reply_from device 0x10 [0x02; 0x05; 0x07; 0x09]])))
    = Panic /\
  fst (fst (LoadConfig (replicate 256 0) 0 7
              (device_with [reply_from device 0x10 [0x03]]))) = Panic /\
  fst (fst (LoadConfig (replicate 256 0) 0 7
              (device_with [reply_from device 0x10 []]))) = Panic.
Proof. repeat split; reflexivity. Qed.

Lemma write_pairs_odd_panics kv : forall mem,
  Nat.Odd (length kv) -> all_bytes kv -> length mem = 256%nat ->
  fst (write_pairs kv mem) = Panic.
Proof.
  induction kv as [|x|idx val kv IH] using pair_ind; intros mem Ho Hb Hl.
  - destruct Ho as [k Hk]. simpl in Hk. lia.
  - reflexivity.
  - simpl. unfold store.
    assert (Hidx : is_byte idx) by now inversion Hb.
    assert (Hlt : (Z.to_nat idx <? length mem)%nat = true).
    { apply Nat.ltb_lt. unfold is_byte in Hidx. lia. }
    rewrite Hlt. apply IH.
    + destruct Ho as [k Hk]. simpl in Hk. exists (k - 1)%nat. lia.
    + inversion Hb as [|? ? _ Hb']. now inversion Hb'.
    + now rewrite length_insert.
Qed.

(** The panic of C10 in general: whatever reply of the device begins
    with InfoParamResponsePairs and goes on with an odd number of bytes
    (up to the 16 a packet can hold) makes a first read panic. *)
Lemma LoadConfig_odd_pairs_panics (kv : list Z)
    (rest : list bidcos.read_result) :
  Nat.Odd (length kv) -> all_bytes kv -> (length kv <= 16)%nat ->
  fst (fst (LoadConfig (replicate 256 0) 0 7
              (device_with (reply_from device 0x10 (0x02 :: kv) :: rest))))
  = Panic.
Proof.
  intros Ho Hb Hlen.
  unfold LoadConfig, ConfigParamReq, device_with.
  cbn -[readConfig replicate].
  unfold readConfig; fold readConfig.
  unfold bidcos.packet_of, reply_from, bidcos.deliver.
  cbn [app bidcos.addr_bytes controller device length].
  replace ((17 + 12 <? _)%nat) with false
    by (symmetry; apply Nat.ltb_ge; simpl; lia).
  cbn -[write_pairs replicate bytes_eqb].
  assert (Hne : bytes_eqb kv [0; 0] = false).
  { unfold bytes_eqb. destruct (Nat.eqb_spec (length kv) (length [0; 0])) as [E|E];
      [|reflexivity]. destruct Ho as [k Hk]. simpl in E. lia. }
  rewrite Hne.
  pose proof (write_pairs_odd_panics kv (replicate 256 0) Ho Hb
                (length_replicate _ _)) as Hp.
  destruct (write_pairs kv (replicate 256 0)) as [r1 mem1].
  simpl in Hp. subst r1. reflexivity.
Qed.

(** ** The configuration transaction *)

Lemma diff_loop_length devmem target n : forall i pairs,
  length (diff_loop n i devmem target pairs) =
  Nat.add (length pairs)
    (Nat.mul 2
       (length (List.filter
                  (fun k => negb (nth k devmem 0 =? nth k target 0))
                  (seq i n)))).
Proof.
  induction n as [|n IH]; intros i pairs; simpl; [lia|].
  rewrite IH.
  destruct (nth i devmem 0 =? nth i target 0) eqn:E; simpl.
  - lia.
  - rewrite length_app. simpl. lia.
Qed.

Lemma diff_loop_pairs devmem target :
  length (diff_loop (length devmem) 0 devmem target []) =
  (2 * length (diff_indices devmem target))%nat.
Proof. rewrite diff_loop_length. reflexivity. Qed.

Lemma write_loop_S n i pairs :
  write_loop (S n) i pairs =
  bind (ConfigWriteIndex 0
          (take (if (14 <? length pairs - 14 * i)%nat then 14%nat
                 else (length pairs - 14 * i)%nat)
                (drop (14 * i) pairs)))
       (fun _ => write_loop n (S i) pairs).
Proof. reflexivity. Qed.

Lemma write_loop_sent pairs n : forall i st st',
  write_loop n i pairs st = (Ok tt, st') ->
  exists ws,
    sent_of st' = sent_of st ++ ws /\
    length ws = n /\
    Forall (fun bs => is_write_index bs = true /\ (length (kv_of bs) <= 14)%nat)
           ws /\
    map kv_of ws =
    map (fun k => take 14 (drop (14 * k) pairs)) (seq i n).
Proof.
  induction n as [|n IH]; intros i st st' H.
  - inversion H. exists []. rewrite app_nil_r. auto.
  - rewrite write_loop_S in H. unfold bind in H.
    destruct (ConfigWriteIndex 0 _ st) as [[[]| |] st1] eqn:Hw;
      [|discriminate|discriminate].
    apply send_config_ok in Hw as (bs & pkt & Hs & Hd & Hc & _ & _ & Hp).
    destruct (IH _ _ _ H) as (ws & Hs' & Hl & Hf & Hm).
    set (off := (14 * i)%nat) in *.
    assert (Hchunk :
      take (if (14 <? length pairs - off)%nat then 14%nat
            else (length pairs - off)%nat) (drop off pairs)
      = take 14 (drop off pairs)).
    { destruct (Nat.ltb_spec 14 (length pairs - off)); [reflexivity|].
      rewrite !take_ge; [reflexivity| |]; rewrite length_drop; lia. }
    rewrite Hchunk in Hp.
    assert (Hkv : kv_of bs = take 14 (drop off pairs)).
    { unfold kv_of. rewrite Hd, Hp. reflexivity. }
    exists (bs :: ws). split; [rewrite Hs', Hs, <- app_assoc; reflexivity|].
    split; [simpl; congruence|]. split.
    + constructor; [|exact Hf]. split.
      * unfold is_write_index. rewrite Hd, Hc, Hp. reflexivity.
      * rewrite Hkv, length_take. lia.
    + simpl. now rewrite Hkv, Hm.
Qed.

Lemma packets_count (d : nat) :
  (if (0 <? (2 * d) mod 14)%nat then S ((2 * d) / 14) else ((2 * d) / 14)%nat)
  = ceil_div d 7.
Proof.
  unfold ceil_div.
  pose proof (Nat.div_mod_eq (2 * d) 14) as H1.
  pose proof (Nat.mod_upper_bound (2 * d) 14 ltac:(lia)) as H2.
  pose proof (Nat.div_mod_eq (d + 7 - 1) 7) as H3.
  pose proof (Nat.mod_upper_bound (d + 7 - 1) 7 ltac:(lia)) as H4.
  destruct (Nat.ltb_spec 0 ((2 * d) mod 14)); lia.
Qed.


(** What [EnsureConfigured] writes after the load. *)
Lemma EnsureConfigured_transaction (channel paramlist : Z)
    (cb : list Z -> option (list Z)) (st st1 st' : state)
    (devmem target : list Z) :
  LoadConfig (replicate 256 0) channel paramlist st = (Ok tt, devmem, st1) ->
  cb devmem = Some target ->
  EnsureConfigured channel paramlist cb st = (Ok tt, st') ->
  (diff_indices devmem target = [] -> st' = st1) /\
  (diff_indices devmem target <> [] ->
   exists start writes finish,
     sent_of st' = sent_of st1 ++ start :: writes ++ [finish] /\
     is_write_index start = false /\ is_write_index finish = false /\
     Forall (fun bs => is_write_index bs = true /\
                       (length (kv_of bs) <= 14)%nat) writes /\
     length writes = ceil_div (length (diff_indices devmem target)) 7).
Proof.
  intros HL Hcb H. unfold EnsureConfigured in H. rewrite HL, Hcb in H.
  pose proof (diff_loop_pairs devmem target) as Hlen.
  destruct (diff_loop (length devmem) 0 devmem target []) as [|x l] eqn:Hp.
  - inversion H; subst. split; [reflexivity|].
    intros Hne. simpl in Hlen. destruct (diff_indices devmem target);
      [congruence | simpl in Hlen; lia].
  - split.
    { intros HD. rewrite HD in Hlen. simpl in Hlen. lia. }
    intros _. rewrite <- Hp in H. unfold bind in H.
    destruct (ConfigStart channel paramlist st1) as [[[]| |] st2] eqn:Hs;
      [|discriminate|discriminate].
    destruct (write_loop _ 0 _ st2) as [[[]| |] st3] eqn:Hw;
      [|discriminate|discriminate].
    apply send_config_ok in Hs as (b1 & p1 & Hs1 & Hd1 & Hc1 & _ & _ & Hp1).
    apply send_config_ok in H as (b3 & p3 & Hs3 & Hd3 & Hc3 & _ & _ & Hp3).
    apply write_loop_sent in Hw as (ws & Hs2 & Hl2 & Hf2 & _).
    exists b1, ws, b3.
    split; [rewrite Hs3, Hs2, Hs1, <- !app_assoc; reflexivity|].
    split; [unfold is_write_index; rewrite Hd1, Hc1, Hp1; reflexivity|].
    split; [unfold is_write_index; rewrite Hd3, Hc3, Hp3; reflexivity|].
    split; [exact Hf2|].
    rewrite Hl2, Hp, Hlen. apply packets_count.
Qed.

Lemma diff_indices_same (mem : list Z) : diff_indices mem mem = [].
Proof.
  unfold diff_indices.
  induction (seq 0 (length mem)) as [|k ks IH]; [reflexivity|].
  simpl. now rewrite Z.eqb_refl.
Qed.



(** With the identity as mutator nothing is written after the load. *)
Corollary EnsureConfigured_identity (channel paramlist : Z)
    (st st1 st' : state) (devmem : list Z) :
  LoadConfig (replicate 256 0) channel paramlist st = (Ok tt, devmem, st1) ->
  EnsureConfigured channel paramlist Some st = (Ok tt, st') ->
  st' = st1.
Proof.
  intros HL H.
  destruct (EnsureConfigured_transaction _ _ Some _ _ _ _ devmem HL eq_refl H)
    as [Hid _].
  apply Hid, diff_indices_same.
Qed.

(** ** Peering *)

Lemma addr_eqb_eq a b : bidcos.addr_eqb a b = true <-> a = b.
Proof.
  destruct a as [[a0 a1] a2], b as [[b0 b1] b2]. unfold bidcos.addr_eqb.
  rewrite !andb_true_iff, !Z.eqb_eq. split.
  - intros [[-> ->] ->]. reflexivity.
  - intros [= -> -> ->]. auto.
Qed.

Lemma send_config_succeeds flags payload st :
  no_write_failures st ->
  exists st' bs,
    send_config flags payload st = (Ok tt, st') /\
    no_write_failures st' /\ inbox_of st' = inbox_of st /\
    sent_of st' = sent_of st ++ [bs] /\ payload_of bs = payload.
Proof.
  destruct st as [[[[ib wf cf sn] [[s0 s1] s2]] [[a0 a1] a2] mc] c].
  unfold no_write_failures. simpl. intros [-> ->].
  unfold send_config, bind, count, WritePacket, bidcos.WritePacket,
    bidcos.Encode, bidcos.Gateway_Write, bidcos.Gateway_Confirm, sent_of,
    inbox_of, no_write_failures.
  simpl. destruct (mc =? 0); simpl; do 2 eexists;
    (split; [reflexivity|]); simpl; auto.
Qed.

Lemma packet_of_no_panic r : bidcos.packet_of r <> Panic.
Proof.
  unfold bidcos.packet_of, bidcos.deliver. destruct r as [bs|]; [|discriminate].
  destruct (17 + 12 <? length bs)%nat; [discriminate|].
  unfold bidcos.Decode.
  do 12 (destruct bs as [|? bs]; [discriminate|]). discriminate.
Qed.

Lemma ReadPacket_cons st :
  ReadPacket st =
  match inbox_of st with
  | [] => (Err ReadFailed, st)
  | r :: rest => (bidcos.packet_of r, set_inbox rest st)
  end.
Proof.
  destruct st as [[[[ib wf cf sn] sa] a mc] c].
  unfold ReadPacket, bidcos.ReadPacket, bidcos.Gateway_Read,
    inbox_of, set_inbox, bidcos.packet_of.
  simpl. destruct ib as [|r0 ib]; simpl; [reflexivity|].
  destruct (bidcos.deliver 29 r0); reflexivity.
Qed.

Lemma set_inbox_same st : set_inbox (inbox_of st) st = st.
Proof. now destruct st as [[[[ib wf cf sn] sa] a mc] c]. Qed.

Lemma expect_ack_spec want st :
  snd (expect_ack want st) = set_inbox (tl (inbox_of st)) st /\
  (fst (expect_ack want st) = Ok tt <-> ack_ok want (inbox_of st) = true) /\
  (fst (expect_ack want st) = Ok tt \/ exists e, fst (expect_ack want st) = Err e).
Proof.
  unfold expect_ack, bind, ack_ok. rewrite (ReadPacket_cons st).
  destruct (inbox_of st) as [|r ib] eqn:Hib; simpl.
  - rewrite <- Hib, set_inbox_same.
    split; [reflexivity|]. split; [split; discriminate | right; eauto].
  - pose proof (packet_of_no_panic r) as Hnp.
    destruct (bidcos.packet_of r) as [pkt|e|]; simpl; [| |congruence].
    + destruct (bidcos.Cmd pkt =? want); simpl.
      * destruct (bidcos.Payload pkt) as [|p0 pl]; simpl.
        -- split; [reflexivity|]. split; [split; discriminate | right; eauto].
        -- destruct (p0 =? 0); simpl; (split; [reflexivity|]);
             (split; [split; (reflexivity || discriminate) | eauto]).
      * split; [reflexivity|]. split; [split; discriminate | right; eauto].
    + split; [reflexivity|]. split; [split; discriminate | right; eauto].
Qed.

Lemma no_write_failures_set_inbox ib st :
  no_write_failures st -> no_write_failures (set_inbox ib st).
Proof. now destruct st as [[[[ib0 wf cf sn] sa] a mc] c]. Qed.

(** C7, as the specification states it, fails: a single existing peer
    with the desired address but another channel differs from the
    desired FullyQualifiedChannel, yet nothing is removed or added; the
    only packet written is the peer list request. *)
Lemma EnsurePeeredWith_channel_counterexample :
  let existing := mkFQC (0x11, 0x22, 0x33) 0x01 in
  let dest := mkFQC (0x11, 0x22, 0x33) 0x02 in
  let st := device_with
              [reply_from device 0x10
                 [0x01; 0x11; 0x22; 0x33; 0x01; 0x00; 0x00; 0x00; 0x00]] in
  let res := EnsurePeeredWith 0x02 dest st in
  existing <> dest /\
  fst (readPeers device (inbox_of st) []) = Ok [existing] /\
  fst res = Ok tt /\
  map payload_of (sent_of (snd res)) = [[0x02; bidcos.ConfigPeerListReq]].
Proof.
  simpl. split; [discriminate|]. vm_compute. repeat split; reflexivity.
Qed.

Lemma reconcile_same_peer channel dest existing st :
  Peer existing = Peer dest ->
  reconcile channel dest [existing] st = (Ok tt, st).
Proof.
  intros H. unfold reconcile. apply addr_eqb_eq in H. now rewrite H.
Qed.

Lemma reconcile_other_peer channel dest existing st :
  Peer existing <> Peer dest ->
  no_write_failures st ->
  let res := reconcile channel dest [existing] st in
  let ib := inbox_of st in
  (fst res = Ok tt <-> ack_ok 0x10 ib = true /\ ack_ok 0x02 (tl ib) = true) /\
  (fst res = Ok tt \/ exists e, fst res = Err e) /\
  exists rm,
    payload_of rm = peer_payload channel bidcos.ConfigPeerRemove existing /\
    if ack_ok 0x10 ib
    then exists add,
           sent_of (snd res) = sent_of st ++ [rm; add] /\
           payload_of add = peer_payload channel bidcos.ConfigPeerAdd dest
    else sent_of (snd res) = sent_of st ++ [rm].
Proof.
  intros Hne Hw res ib. subst res ib. unfold reconcile.
  assert (Hb : bidcos.addr_eqb (Peer existing) (Peer dest) = false).
  { destruct (bidcos.addr_eqb _ _) eqn:E; [|reflexivity].
    apply addr_eqb_eq in E. contradiction. }
  rewrite Hb. unfold bind, ConfigPeerRemove, ConfigPeerAdd.
  destruct (send_config_succeeds
              (Z.lor bidcos.DefaultFlags bidcos.Burst)
              ([channel; bidcos.ConfigPeerRemove]
                 ++ bidcos.addr_bytes (Peer existing) ++ [Channel existing; 0])
              st Hw)
    as (st1 & rm & -> & Hw1 & Hib1 & Hs1 & Hp1).
  destruct (expect_ack_spec 0x10 st1) as (Hst2 & Hok2 & Her2).
  rewrite Hib1 in Hst2, Hok2.
  destruct (expect_ack 0x10 st1) as [r2 st2]. simpl in Hst2, Hok2, Her2.
  destruct r2 as [[]|e2|].
  - (* the removal was acknowledged *)
    assert (Hack1 : ack_ok 0x10 (inbox_of st) = true) by now apply Hok2.
    rewrite Hack1.
    assert (Hw2 : no_write_failures st2)
      by (subst st2; now apply no_write_failures_set_inbox).
    destruct (send_config_succeeds
                (Z.lor bidcos.DefaultFlags bidcos.Burst)
                ([channel; bidcos.ConfigPeerAdd]
                   ++ bidcos.addr_bytes (Peer dest) ++ [Channel dest; 0])
                st2 Hw2)
      as (st3 & add & -> & Hw3 & Hib3 & Hs3 & Hp3).
    destruct (expect_ack_spec 0x02 st3) as (Hst4 & Hok4 & Her4).
    assert (Hib2 : inbox_of st2 = tl (inbox_of st))
      by (subst st2; apply inbox_of_set_inbox).
    rewrite Hib3, Hib2 in Hst4, Hok4.
    split; [rewrite Hok4; tauto|]. split; [exact Her4|].
    exists rm. split; [exact Hp1|]. exists add. split; [|exact Hp3].
    rewrite Hst4, sent_of_set_inbox, Hs3. subst st2.
    rewrite sent_of_set_inbox, Hs1, <- app_assoc. reflexivity.
  - (* the removal was refused *)
    assert (Hack1 : ack_ok 0x10 (inbox_of st) = false).
    { destruct (ack_ok 16 (inbox_of st)); [|reflexivity].
      destruct Hok2 as [_ Hok2]. specialize (Hok2 eq_refl). discriminate. }
    rewrite Hack1. simpl.
    split; [split; [discriminate | intros [? _]; discriminate]|].
    split; [right; eauto|].
    exists rm. split; [exact Hp1|].
    subst st2. now rewrite sent_of_set_inbox.
  - destruct Her2 as [?|[? ?]]; discriminate.
Qed.

(** C7, amended.  When the peer list read by [EnsurePeeredWith] holds
    exactly one peer: if its three-byte address is the desired one (the
    channel is not compared) nothing more is written and the call
    succeeds; if the address differs, a ConfigPeerRemove for the existing
    peer is written and one reply is read, which must have command 0x10
    and status byte 0x00; only then a ConfigPeerAdd for the desired peer
    is written and one more reply is read, which must have command 0x02
    and status byte 0x00.  The call succeeds exactly when both replies
    are as wanted, and otherwise returns an error. *)
Theorem EnsurePeeredWith_one_peer (channel : Z)
    (dest existing : FullyQualifiedChannel) (st0 st1 : state)
    (ib' : list bidcos.read_result) :
  ConfigPeerListReq channel st0 = (Ok tt, st1) ->
  readPeers (Addr (dev st1)) (inbox_of st1) [] = (Ok [existing], ib') ->
  no_write_failures st1 ->
  let res := EnsurePeeredWith channel dest st0 in
  (Peer existing = Peer dest -> res = (Ok tt, set_inbox ib' st1)) /\
  (Peer existing <> Peer dest ->
   (fst res = Ok tt <->
    ack_ok 0x10 ib' = true /\ ack_ok 0x02 (tl ib') = true) /\
   (fst res = Ok tt \/ exists e, fst res = Err e) /\
   exists rm,
     payload_of rm = peer_payload channel bidcos.ConfigPeerRemove existing /\
     if ack_ok 0x10 ib'
     then exists add,
            sent_of (snd res) = sent_of st1 ++ [rm; add] /\
            payload_of add = peer_payload channel bidcos.ConfigPeerAdd dest
     else sent_of (snd res) = sent_of st1 ++ [rm]).
Proof.
  intros Hreq Hpeers Hw res.
  assert (Hres : res = reconcile channel dest [existing] (set_inbox ib' st1)).
  { subst res. unfold EnsurePeeredWith, bind. now rewrite Hreq, Hpeers. }
  rewrite Hres. split.
  - apply reconcile_same_peer.
  - intros Hne.
    pose proof (reconcile_other_peer channel dest existing
                  (set_inbox ib' st1) Hne
                  (no_write_failures_set_inbox _ _ Hw)) as H.
    simpl in H. rewrite inbox_of_set_inbox, sent_of_set_inbox in H. exact H.
Qed.

Lemma EnsurePeeredWith_one_peer_witness :
  let existing := mkFQC (0x44, 0x55, 0x66) 0x01 in
  let dest := mkFQC (0x11, 0x22, 0x33) 0x02 in
  let acks := [reply_from device 0x10 [0x00]; reply_from device 0x02 [0x00]] in
  let st0 := device_with
               (reply_from device 0x10
                  [0x01; 0x44; 0x55; 0x66; 0x01; 0x00; 0x00; 0x00; 0x00]
                :: acks) in
  let st1 := snd (ConfigPeerListReq 0x02 st0) in
  let res := EnsurePeeredWith 0x02 dest st0 in
  (Peer existing = Peer dest -> res = (Ok tt, set_inbox acks st1)) /\
  (Peer existing <> Peer dest ->
   (fst res = Ok tt <->
    ack_ok 0x10 acks = true /\ ack_ok 0x02 (tl acks) = true) /\
   (fst res = Ok tt \/ exists e, fst res = Err e) /\
   exists rm,
     payload_of rm = peer_payload 0x02 bidcos.ConfigPeerRemove existing /\
     if ack_ok 0x10 acks
     then exists add,
            sent_of (snd res) = sent_of st1 ++ [rm; add] /\
            payload_of add = peer_payload 0x02 bidcos.ConfigPeerAdd dest
     else sent_of (snd res) = sent_of st1 ++ [rm]).
Proof.
  intros existing dest acks st0 st1 res.
  apply (EnsurePeeredWith_one_peer 0x02 dest existing st0 st1 acks).
  - vm_compute. reflexivity.
  - vm_compute. reflexivity.
  - split; reflexivity.
Defined.

(** The run of the witness, evaluated: the removal and the addition are
    written after the peer list request, and the call succeeds. *)
Example EnsurePeeredWith_replace_run :
  let res := EnsurePeeredWith 0x02 (mkFQC (0x11, 0x22, 0x33) 0x02)
               (device_with
                  [reply_from device 0x10
                     [0x01; 0x44; 0x55; 0x66; 0x01; 0x00; 0x00; 0x00; 0x00];
                   reply_from device 0x10 [0x00];
                   reply_from device 0x02 [0x00]]) in
  fst res = Ok tt /\
  map payload_of (sent_of (snd res)) =
    [[0x02; 0x03];
     [0x02; 0x02; 0x44; 0x55; 0x66; 0x01; 0x00];
     [0x02; 0x01; 0x11; 0x22; 0x33; 0x02; 0x00]].
Proof. vm_compute. split; reflexivity. Qed.

End hm_props.

(** ** Weekly programs *)

Module thermal_props.
Import thermal thermal_spec.

Lemma encode_loop_length n : forall i entries result,
  length (encode_loop n i entries result) = length result.
Proof.
  induction n as [|n IH]; intros i entries result; simpl; [reflexivity|].
  destruct (encode_entry (nth i entries zeroEntry)) as [b0 b1]. rewrite IH.
  now rewrite !length_insert.
Qed.

Lemma encodeProgramDay_length entries :
  length (encodeProgramDay entries) = 26%nat.
Proof. unfold encodeProgramDay. now rewrite encode_loop_length. Qed.

(** Two memories that agree on a day's 26 bytes have the same region. *)
Lemma region_ext off (l1 l2 : list Z) :
  (forall i, (off <= i < off + 26)%nat -> l1 !! i = l2 !! i) ->
  region off l1 = region off l2.
Proof.
  intros H. unfold region. apply list_eq. intros k.
  destruct (Nat.lt_ge_cases k 26) as [Hk|Hk].
  - rewrite !lookup_take_lt, !lookup_drop by exact Hk. apply H. lia.
  - now rewrite !lookup_take_ge.
Qed.

(** [copy] of 26 bytes into a memory that has room for them. *)
Lemma copy_at_spec (mem : list Z) (off : nat) (src : list Z) :
  length src = 26%nat -> (off + 26 <= length mem)%nat ->
  exists mem',
    copy_at mem off src = Ok mem' /\
    length mem' = length mem /\
    region off mem' = src /\
    forall i, (i < off \/ off + 26 <= i)%nat -> mem' !! i = mem !! i.
Proof.
  intros Hs Hl. unfold copy_at.
  destruct (Nat.ltb_spec (length mem) off) as [Hlt|_]; [lia|].
  eexists. split; [reflexivity|].
  rewrite (take_ge src) by lia. rewrite Hs.
  assert (Htake : length (take off mem) = off) by (rewrite length_take; lia).
  split; [|split].
  - rewrite !length_app, Htake, length_drop. lia.
  - unfold region.
    rewrite drop_app_length' by (symmetry; exact Htake).
    now rewrite take_app_length' by (symmetry; exact Hs).
  - intros i [Hi|Hi].
    + rewrite lookup_app_l by lia. now apply lookup_take_lt.
    + rewrite lookup_app_r by lia. rewrite lookup_app_r by lia.
      rewrite lookup_drop, Htake, Hs. f_equal. lia.
Qed.

(** The loop over the programs for one day: it ends without panic, keeps
    everything outside the day's region, and leaves in the region the
    encoding of the last program that has the day's bit set. *)
Lemma programs_loop_spec day programs : forall mem,
  (programOffsets day + 26 <= length mem)%nat ->
  exists mem',
    programs_loop day programs mem = Ok mem' /\
    length mem' = length mem /\
    (forall i, (i < programOffsets day \/ programOffsets day + 26 <= i)%nat ->
               mem' !! i = mem !! i) /\
    region (programOffsets day) mem' =
      match last_matching day programs with
      | Some pg => encodeProgramDay (Endtimes pg)
      | None => region (programOffsets day) mem
      end.
Proof.
  induction programs as [|pg rest IH]; intros mem Hl.
  - exists mem. simpl. auto.
  - simpl. fold (day_matches day pg).
    destruct (day_matches day pg).
    + destruct (copy_at_spec mem (programOffsets day)
                  (encodeProgramDay (Endtimes pg))
                  (encodeProgramDay_length _) Hl)
        as (mem1 & -> & Hl1 & Hr1 & Hf1).
      destruct (IH mem1 ltac:(lia)) as (mem' & -> & Hl' & Hf' & Hr').
      exists mem'. split; [reflexivity|]. split; [congruence|]. split.
      * intros i Hi. rewrite Hf' by exact Hi. now apply Hf1.
      * rewrite Hr'. destruct (last_matching day rest); [reflexivity|exact Hr1].
    + destruct (IH mem Hl) as (mem' & -> & Hl' & Hf' & Hr').
      exists mem'. split; [reflexivity|]. split; [exact Hl'|].
      split; [exact Hf'|].
      rewrite Hr'. now destruct (last_matching day rest).
Qed.

(** The loop over the days, for any list of days whose regions fit the
    memory: the region of a day outside the list is kept; the region of a
    day in the list, when no other day of the list overlaps it, ends as
    its own loop over the programs leaves it. *)
Lemma days_loop_spec programs days : forall mem,
  (forall d, In d days -> (programOffsets d + 26 <= length mem)%nat) ->
  exists mem',
    days_loop days programs mem = Ok mem' /\
    length mem' = length mem /\
    forall d,
      (forall d', In d' days -> d' <> d ->
         (programOffsets d + 26 <= programOffsets d'
          \/ programOffsets d' + 26 <= programOffsets d)%nat) ->
      (~ In d days ->
       region (programOffsets d) mem' = region (programOffsets d) mem) /\
      (In d days -> List.NoDup days ->
       region (programOffsets d) mem' =
         match last_matching d programs with
         | Some pg => encodeProgramDay (Endtimes pg)
         | None => region (programOffsets d) mem
         end).
Proof.
  induction days as [|d0 ds IH]; intros mem Hfit.
  - exists mem. simpl. split; [reflexivity|]. split; [reflexivity|].
    intros d _. split; [reflexivity | intros []].
  - simpl.
    destruct (programs_loop_spec d0 programs mem (Hfit d0 (or_introl eq_refl)))
      as (mem1 & -> & Hl1 & Hf1 & Hr1).
    destruct (IH mem1) as (mem' & -> & Hl' & Hd').
    { intros d Hd. rewrite Hl1. apply Hfit. now right. }
    exists mem'. split; [reflexivity|]. split; [congruence|].
    intros d Hdisj.
    assert (Hrest : forall d', In d' ds -> d' <> d ->
              (programOffsets d + 26 <= programOffsets d'
               \/ programOffsets d' + 26 <= programOffsets d)%nat).
    { intros d' Hin. apply Hdisj. now right. }
    destruct (Hd' d Hrest) as [Hout Hin].
    assert (Hkeep : d0 <> d ->
              region (programOffsets d) mem1 = region (programOffsets d) mem).
    { intros Hne. apply region_ext. intros i Hi. apply Hf1.
      specialize (Hdisj d0 (or_introl eq_refl) Hne). lia. }
    split.
    + intros Hnot. rewrite Hout by (intros ?; apply Hnot; now right).
      apply Hkeep. intros ->. apply Hnot. now left.
    + intros Hd Hnd. inversion Hnd as [|? ? Hnotin Hnd']; subst.
      destruct Hd as [->|Hd].
      * rewrite Hout by exact Hnotin. exact Hr1.
      * assert (Hne : d0 <> d) by (intros ->; contradiction).
        rewrite (Hin Hd Hnd').
        destruct (last_matching d programs); [reflexivity|]. now apply Hkeep.
Qed.

Lemma weekdays_NoDup : List.NoDup weekdays.
Proof.
  unfold weekdays, Saturday, Sunday, Monday, Tuesday, Wednesday, Thursday,
    Friday.
  repeat (constructor; [simpl; intros H; repeat destruct H as [H|H]; try discriminate; exact H|]).
  constructor.
Qed.

(** C6, as the specification states it, fails: of two programs that both
    have Monday's bit set, the bytes at Monday's offset end as the
    encoding of the second, not of the first. *)
Lemma SetPrograms_first_program_counterexample :
  let programs := [monday_early; monday_late] in
  first_matching Monday programs = Some monday_early /\
  exists mem',
    SetPrograms (replicate 256 0) programs = Ok mem' /\
    region 72 mem' = encodeProgramDay (Endtimes monday_late) /\
    region 72 mem' <> encodeProgramDay (Endtimes monday_early).
Proof.
  simpl. split; [reflexivity|]. eexists. split; [vm_compute; reflexivity|].
  split; [vm_compute; reflexivity | vm_compute; discriminate].
Qed.

(** C6, amended.  The days' offsets are Saturday 20, Sunday 46, Monday
    72, Tuesday 98, Wednesday 124, Thursday 150 and Friday 176.  On a
    memory that holds all seven regions, [SetPrograms] ends without panic,
    keeps the length, and for each weekday leaves at the day's offset the
    26-byte encoding of the last program of the list whose DayMask has
    the day's bit set (a later program overrides an earlier one); when no
    program has the bit set the 26 bytes are unchanged. *)
Theorem SetPrograms_last_program_wins (mem : list Z)
    (programs : list Program) (day : Z) :
  In day weekdays ->
  (202 <= length mem)%nat ->
  map programOffsets weekdays = [20; 46; 72; 98; 124; 150; 176]%nat /\
  exists mem',
    SetPrograms mem programs = Ok mem' /\
    length mem' = length mem /\
    length (region (programOffsets day) mem') = 26%nat /\
    region (programOffsets day) mem' =
      match last_matching day programs with
      | Some pg => encodeProgramDay (Endtimes pg)
      | None => region (programOffsets day) mem
      end.
Proof.
  intros Hday Hlen. split; [reflexivity|].
  destruct (days_loop_spec programs weekdays mem) as (mem' & Hrun & Hl & Hd).
  { intros d Hd. simpl in Hd.
    repeat destruct Hd as [<-|Hd]; try contradiction; simpl; lia. }
  exists mem'. split; [exact Hrun|]. split; [exact Hl|].
  assert (Hfit : (programOffsets day + 26 <= length mem')%nat).
  { rewrite Hl. simpl in Hday.
    repeat destruct Hday as [<-|Hday]; try contradiction; simpl; lia. }
  split.
  { unfold region. rewrite length_take, length_drop. lia. }
  apply Hd; [|exact Hday|exact weekdays_NoDup].
  intros d' Hd' Hne. simpl in Hday, Hd'.
  repeat destruct Hday as [<-|Hday]; try contradiction;
    repeat destruct Hd' as [<-|Hd']; try contradiction;
    try congruence;
    unfold programOffsets, Saturday, Sunday, Monday, Tuesday, Wednesday,
      Thursday, Friday; simpl; lia.
Qed.

Lemma SetPrograms_last_program_wins_witness :
  map programOffsets weekdays = [20; 46; 72; 98; 124; 150; 176]%nat /\
  exists mem',
    SetPrograms (replicate 256 0) [monday_early; monday_late] = Ok mem' /\
    length mem' = length (replicate 256 0) /\
    length (region (programOffsets Monday) mem') = 26%nat /\
    region (programOffsets Monday) mem' =
      match last_matching Monday [monday_early; monday_late] with
      | Some pg => encodeProgramDay (Endtimes pg)
      | None => region (programOffsets Monday) (replicate 256 0)
      end.
Proof.
  apply (SetPrograms_last_program_wins (replicate 256 0)
           [monday_early; monday_late] Monday).
  - simpl. auto.
  - rewrite length_replicate. lia.
Defined.

End thermal_props.

(** ** Event decoders *)

Module decoder_props.
Import decoder_spec.

(** What [DecodeInfoEvent] computes for the actual temperature: the two
    low bits of the second byte are OR-ed into the third byte, without a
    shift. *)
Lemma DecodeInfoEvent_actual (p0 p1 p2 p3 p4 p5 : Z) :
  exists ie,
    heating.DecodeInfoEvent [p0; p1; p2; p3; p4; p5] = Ok ie /\
    heating.ActualTemperature ie =
      f64.div (f64.of_Z (Z.lor (Z.land p1 0x03) p2)) (f64.of_Z 10).
Proof. eexists. split; reflexivity. Qed.

(** Where the two bits are clear, this is the ten-bit value. *)
Lemma DecodeInfoEvent_actual_low (p0 p1 p2 p3 p4 p5 : Z) :
  Z.land p1 0x03 = 0 ->
  exists ie,
    heating.DecodeInfoEvent [p0; p1; p2; p3; p4; p5] = Ok ie /\
    heating.ActualTemperature ie = ten_bit_tenths p1 p2.
Proof.
  intros H. eexists. split; [reflexivity|]. simpl.
  unfold heating.actual_raw, ten_bit_tenths, hm.Mask2Bit. now rewrite H.
Qed.

(** C8.  The test vector 0a b0 e2 08 00 00 decodes to 22.6; the payload
    0a b1 00 08 00 00, whose ten-bit field is 256, decodes to 0.1 where
    the layout gives 25.6. *)
Theorem DecodeInfoEvent_actual_temperature_runs :
  (exists ie,
     heating.DecodeInfoEvent [0x0a; 0xb0; 0xe2; 0x08; 0x00; 0x00] = Ok ie /\
     heating.ActualTemperature ie = f64_22_6 /\
     ten_bit_tenths 0xb0 0xe2 = f64_22_6) /\
  (exists ie,
     heating.DecodeInfoEvent [0x0a; 0xb1; 0x00; 0x08; 0x00; 0x00] = Ok ie /\
     heating.ActualTemperature ie = f64_0_1 /\
     ten_bit_tenths 0xb1 0x00 = f64_25_6 /\
     heating.ActualTemperature ie <> ten_bit_tenths 0xb1 0x00).
Proof.
  split; eexists; (split; [reflexivity|]); vm_compute;
    repeat split; try reflexivity; discriminate.
Qed.

Lemma to_int16_byte x : is_byte x -> thermal.to_int16 x = x.
Proof.
  unfold is_byte, thermal.to_int16. intros H.
  rewrite Z.mod_small by lia. lia.
Qed.

Lemma land_to_int16 x : Z.land (thermal.to_int16 x) 0x3FFF = Z.land x 0x3FFF.
Proof.
  change 0x3FFF with (Z.ones 14). rewrite !Z.land_ones by lia.
  unfold thermal.to_int16. change (2 ^ 14) with 16384.
  pose proof (Z.div_mod (x + 32768) 65536 ltac:(lia)) as H1.
  pose proof (Z.mod_pos_bound (x + 32768) 65536 ltac:(lia)) as H2.
  replace ((x + 32768) mod 65536 - 32768)
    with (x + (- (4 * ((x + 32768) / 65536))) * 16384) by lia.
  apply Z_mod_plus_full.
Qed.

Lemma weather_raw_field p0 p1 :
  is_byte p0 -> is_byte p1 ->
  thermal.weather_raw p0 p1 = weather_field p0 p1.
Proof.
  intros H0 H1. unfold thermal.weather_raw, weather_field.
  rewrite (to_int16_byte p0 H0), (to_int16_byte p1 H1).
  rewrite !Z.land_lor_distr_l. now rewrite land_to_int16.
Qed.

Lemma weather_field_range p0 p1 : 0 <= weather_field p0 p1 < 16384.
Proof.
  unfold weather_field. change 0x3FFF with (Z.ones 14).
  rewrite Z.land_ones by lia. apply Z.mod_pos_bound. reflexivity.
Qed.

Lemma sign_clear_not_negative f : sign_clear f -> negative f = false.
Proof. destruct f as [s|s| |s m e]; simpl; intros H; subst; reflexivity. Qed.

Lemma binary_round_aux_sign_clear mx ex lx :
  sign_clear (binary_round_aux 53 1024 false mx ex lx).
Proof.
  unfold binary_round_aux.
  destruct (shr_fexp 53 1024 mx ex lx) as [mrs' e'].
  destruct (shr_fexp 53 1024 _ e' loc_Exact) as [mrs'' e''].
  destruct (shr_m mrs'') as [|m|m]; simpl; [reflexivity| |exact I].
  destruct (e'' <=? 1024 - 53); reflexivity.
Qed.

Lemma of_Z_sign_clear n : 0 <= n -> sign_clear (f64.of_Z n).
Proof.
  intros H. unfold f64.of_Z, binary_normalize.
  destruct n as [|m|m]; [reflexivity| |lia].
  unfold binary_round.
  destruct (shl_align m 0 (fexp 53 1024 (Z.pos (digits2_pos m) + 0)))
    as [mz ez].
  apply binary_round_aux_sign_clear.
Qed.

Lemma div_sign_clear x m e :
  sign_clear x -> sign_clear (f64.div x (S754_finite false m e)).
Proof.
  unfold f64.div, SFdiv. destruct x as [s|s| |s mx ex]; simpl; intros H;
    subst; try reflexivity.
  destruct (SFdiv_core_binary 53 1024 (Z.pos mx) ex (Z.pos m) e)
    as [[mz ez] lz].
  apply binary_round_aux_sign_clear.
Qed.

Lemma tenths_not_negative n :
  0 <= n -> negative (f64.div (f64.of_Z n) (f64.of_Z 10)) = false.
Proof.
  intros H. apply sign_clear_not_negative.
  change (f64.of_Z 10) with (S754_finite false 5629499534213120 (-49)).
  apply div_sign_clear. now apply of_Z_sign_clear.
Qed.

(** C9, as the specification states it, fails: the field 0x2000 has bit
    13 set and decodes to 819.2, which is not negative. *)
Lemma DecodeWeatherEvent_sign_counterexample :
  Z.testbit (weather_field 0x20 0x00) 13 = true /\
  exists we,
    thermal.DecodeWeatherEvent [0x20; 0x00; 0x39] = Ok we /\
    thermal.we_Temperature we = f64_819_2 /\
    negative (thermal.we_Temperature we) = false.
Proof.
  split; [reflexivity|]. eexists. split; [reflexivity|].
  vm_compute. split; reflexivity.
Qed.

(** C9, amended.  For every payload of three bytes [DecodeWeatherEvent]
    succeeds; the temperature is the 14-bit field
    ((p0<<8 | p1) & 0x3FFF), taken as an unsigned number, divided by 10;
    it is never negative, whatever bit 13 is; the humidity is the third
    byte. *)
Theorem DecodeWeatherEvent_unsigned (p0 p1 p2 : Z) :
  is_byte p0 -> is_byte p1 -> is_byte p2 ->
  exists we,
    thermal.DecodeWeatherEvent [p0; p1; p2] = Ok we /\
    thermal.we_Temperature we =
      f64.div (f64.of_Z (weather_field p0 p1)) (f64.of_Z 10) /\
    0 <= weather_field p0 p1 < 16384 /\
    negative (thermal.we_Temperature we) = false /\
    thermal.we_Humidity we = p2.
Proof.
  intros H0 H1 H2. eexists. split; [reflexivity|]. simpl.
  rewrite (weather_raw_field p0 p1 H0 H1).
  pose proof (weather_field_range p0 p1) as Hr.
  split; [reflexivity|]. split; [exact Hr|].
  split; [apply tenths_not_negative; lia | reflexivity].
Qed.

Lemma DecodeWeatherEvent_unsigned_witness :
  exists we,
    thermal.DecodeWeatherEvent [0x00; 0xfd; 0x39] = Ok we /\
    thermal.we_Temperature we =
      f64.div (f64.of_Z (weather_field 0x00 0xfd)) (f64.of_Z 10) /\
    0 <= weather_field 0x00 0xfd < 16384 /\
    negative (thermal.we_Temperature we) = false /\
    thermal.we_Humidity we = 0x39.
Proof.
  apply (DecodeWeatherEvent_unsigned 0x00 0xfd 0x39);
    unfold is_byte; lia.
Defined.

(** The test vector of the weather event: 00 fd 39 is 25.3 degrees and
    57 percent. *)
Example DecodeWeatherEvent_test_vector :
  thermal.DecodeWeatherEvent [0x00; 0xfd; 0x39]
  = Ok (thermal.mkWeatherEvent f64_25_3 57).
Proof. vm_compute. reflexivity. Qed.

(** A payload of another length is refused. *)
Lemma DecodeWeatherEvent_length (payload : list Z) :
  length payload <> 3%nat ->
  thermal.DecodeWeatherEvent payload = Err PayloadSize.
Proof.
  destruct payload as [|a [|b [|c [|d l]]]]; simpl; intros H;
    try reflexivity; congruence.
Qed.

Lemma DecodeInfoEvent_length (payload : list Z) :
  length payload <> 6%nat ->
  heating.DecodeInfoEvent payload = Err PayloadSize.
Proof.
  intros H.
  do 7 (try (destruct payload as [|? payload]; [try reflexivity|]));
    simpl in H; try reflexivity; congruence.
Qed.

End decoder_props.

(** ** Frames of the serial gateway *)

Module uartgw_session_props.
Import uartgw uartgw_spec uartgw_props uartgw_session uartgw_session_spec.

(** The unescaping loop only appends to its output. *)
Lemma unescape_loop_mono raw : forall e out,
  (length out <= length (snd (unescape_loop raw e out)))%nat.
Proof.
  induction raw as [|b raw IH]; intros e out; simpl; [lia|].
  destruct (b =? 0xfc); [apply IH|].
  destruct e.
  - etransitivity; [|apply IH]. rewrite length_app. simpl. lia.
  - etransitivity; [|apply IH]. rewrite length_app. simpl. lia.
Qed.

(** Every input byte gives at most one output byte, and an escape byte
    still pending gave none. *)
Lemma unescape_loop_bound raw : forall e out,
  (length (snd (unescape_loop raw e out))
   + (if fst (unescape_loop raw e out) then 1 else 0)
   <= length out + length raw + (if e then 1 else 0))%nat.
Proof.
  induction raw as [|b raw IH]; intros e out; simpl; [lia|].
  destruct (b =? 0xfc).
  - specialize (IH true out). simpl in IH. destruct e; lia.
  - destruct e.
    + specialize (IH false (out ++ [Z.lor b 128])).
      rewrite length_app in IH. simpl in IH. lia.
    + specialize (IH false (out ++ [b])).
      rewrite length_app in IH. simpl in IH. lia.
Qed.

(** A pass over at least one byte that ends outside an escape pair has
    stored a byte. *)
Lemma unescape_loop_progress raw : forall e out,
  raw <> [] -> fst (unescape_loop raw e out) = false ->
  (length out < length (snd (unescape_loop raw e out)))%nat.
Proof.
  induction raw as [|b raw IH]; intros e out Hne Hf; [congruence|].
  simpl in *. destruct (b =? 0xfc).
  - destruct raw as [|b' raw]; [simpl in Hf; discriminate|].
    apply IH; [discriminate | exact Hf].
  - destruct e.
    + pose proof (unescape_loop_mono raw false (out ++ [Z.lor b 128])) as H.
      rewrite length_app in H. simpl in H. lia.
    + pose proof (unescape_loop_mono raw false (out ++ [b])) as H.
      rewrite length_app in H. simpl in H. lia.
Qed.

Lemma reader_Read_bounded k d caps :
  d <> [] -> (0 < k)%nat ->
  exists n, (0 < n <= k)%nat /\
    reader_Read k (mkReader d caps) =
    (take n d, None, mkReader (drop n d) (tl caps)).
Proof.
  intros Hd Hk. unfold reader_Read. simpl.
  destruct d as [|x d]; [congruence|].
  destruct caps as [|c caps].
  - exists k. split; [lia | reflexivity].
  - exists (Nat.min k (Nat.max 1 c)). split; [lia | reflexivity].
Qed.

(** X1.  For every stream and every schedule of short reads, [Read] stores
    no more bytes than its buffer holds (the index [idx] stays inside
    [p]); when it returns without error into a non-empty buffer it has
    stored at least one byte, and when it fails the buffer is not full. *)
Theorem Read_within_buffer (k : nat) (r : reader) :
  (length (fst (fst (unescapingReader_Read k r))) <= k)%nat /\
  (snd (fst (unescapingReader_Read k r)) = None -> (0 < k)%nat ->
   fst (fst (unescapingReader_Read k r)) <> []) /\
  (snd (fst (unescapingReader_Read k r)) <> None ->
   (length (fst (fst (unescapingReader_Read k r))) < k)%nat).
Proof.
  unfold unescapingReader_Read.
  destruct k as [|k]; [simpl; repeat split; try lia; congruence|].
  destruct r as [d caps].
  destruct d as [|x d].
  - simpl. repeat split; try lia; congruence.
  - destruct (reader_Read_bounded (S k) (x :: d) caps) as (n & Hn & ->);
      [discriminate | lia |].
    pose proof (unescape_loop_bound (take n (x :: d)) false []) as Hb.
    pose proof (unescape_loop_progress (take n (x :: d)) false []) as Hp.
    assert (Hlen : (length (take n (x :: d)) <= n)%nat)
      by (rewrite length_take; lia).
    assert (Hne : take n (x :: d) <> [])
      by (destruct n; [lia | discriminate]).
    destruct (unescape_loop (take n (x :: d)) false []) as [e out].
    simpl in Hb, Hp. destruct e.
    + destruct (drop n (x :: d)) as [|y rest] eqn:Hdrop.
      * simpl. repeat split; try lia; congruence.
      * rewrite reader_Read_one. simpl. rewrite length_app. simpl.
        repeat split; try lia; try congruence.
        intros _ _. destruct out; discriminate.
    + simpl. specialize (Hp Hne eq_refl).
      repeat split; try lia; try congruence.
      intros _ _. destruct out; [simpl in Hp; lia | discriminate].
Qed.

(** The escaped form never holds the frame delimiter. *)
Lemma escape_no_delimiter p : ~ In 0xfd (flat_map escape_byte p).
Proof.
  induction p as [|b p IH]; simpl; [tauto|].
  intros H. apply in_app_or in H as [H|H]; [|tauto].
  unfold escape_byte in H.
  destruct (Z.eqb_spec b 0xfd) as [->|Hd]; simpl in H.
  - destruct H as [H|[H|[]]]; discriminate.
  - destruct (Z.eqb_spec b 0xfc) as [->|Hc]; simpl in H.
    + destruct H as [H|[H|[]]]; discriminate.
    + destruct H as [H|[]]. congruence.
Qed.

Lemma escape_length p :
  (length p <= length (flat_map escape_byte p) <= 2 * length p)%nat.
Proof.
  induction p as [|b p IH]; simpl; [lia|].
  rewrite length_app.
  assert (H : (1 <= length (escape_byte b) <= 2)%nat).
  { unfold escape_byte. destruct ((b =? 0xfd) || (b =? 0xfc)); simpl; lia. }
  lia.
Qed.

Lemma escape_app p q :
  flat_map escape_byte (p ++ q) = flat_map escape_byte p ++ flat_map escape_byte q.
Proof. apply flat_map_app. Qed.

(** One call of [Read] on an escaped stream that is followed by other
    bytes: with a buffer no longer than the original stream the call
    stays inside the escaped part. *)
Lemma Read_escaped_app b rest k caps :
  (0 < k <= length b)%nat ->
  exists b1 b2 caps',
    b = b1 ++ b2 /\ b1 <> [] /\ (length b1 <= k)%nat /\
    unescapingReader_Read k (mkReader (flat_map escape_byte b ++ rest) caps) =
    (b1, None, mkReader (flat_map escape_byte b2 ++ rest) caps').
Proof.
  intros Hk. unfold unescapingReader_Read.
  destruct k as [|k]; [lia|].
  assert (Hb : b <> []) by (destruct b; [simpl in Hk; lia | discriminate]).
  assert (Hne : flat_map escape_byte b ++ rest <> []).
  { pose proof (escape_nonempty b Hb).
    destruct (flat_map escape_byte b); [congruence | discriminate]. }
  destruct (reader_Read_bounded (S k) _ caps Hne) as (n & Hn & ->); [lia|].
  pose proof (escape_length b) as Hel.
  rewrite take_app_le by lia.
  rewrite drop_app_le by lia.
  pose proof (unescape_chunk b n) as Hc.
  pose proof (unescape_loop_bound (take n (flat_map escape_byte b)) false []) as Hbd.
  assert (Hlen : (length (take n (flat_map escape_byte b)) <= n)%nat)
    by (rewrite length_take; lia).
  inversion Hc as [b1 b2 Hb12 Hd Hne1 Heq|b1 c b2 Hb12 Hd Hlor Heq];
    rewrite <- Heq in Hbd; simpl in Hbd.
  - exists b1, b2, (tl caps). rewrite Hd.
    split; [exact Hb12|]. split; [apply Hne1; [exact Hb | lia]|].
    split; [lia | reflexivity].
  - exists (b1 ++ [c]), b2, (tl (tl caps)). rewrite Hd.
    rewrite <- app_comm_cons, reader_Read_one. simpl. rewrite Hlor.
    split; [now rewrite <- app_assoc|].
    split; [destruct b1; discriminate|].
    split; [rewrite length_app; simpl; lia | reflexivity].
Qed.

(** Reading [need] bytes off an escaped stream followed by other bytes
    gives the first [need] original bytes and leaves the escaped rest. *)
Lemma read_loop_escaped fuel : forall need b rest caps,
  (need <= length b)%nat -> (need <= fuel)%nat ->
  exists caps',
    read_loop fuel need (mkReader (flat_map escape_byte b ++ rest) caps) =
    (take need b, None,
     mkReader (flat_map escape_byte (drop need b) ++ rest) caps').
Proof.
  induction fuel as [|fuel IH]; intros need b rest caps Hb Hf.
  - assert (need = 0)%nat as -> by lia. simpl. exists caps.
    now rewrite take_0, drop_0.
  - destruct need as [|need].
    + simpl. exists caps. now rewrite take_0, drop_0.
    + cbn [read_loop].
      destruct (Read_escaped_app b rest (S need) caps)
        as (b1 & b2 & caps1 & Hb12 & Hne & Hl & ->); [lia|].
      assert (Hl1 : (0 < length b1)%nat)
        by (destruct b1; [congruence | simpl; lia]).
      destruct (IH (S need - length b1)%nat b2 rest caps1) as (caps' & ->).
      * subst b. rewrite length_app in Hb. lia.
      * lia.
      * exists caps'. subst b.
        f_equal; [f_equal|].
        -- rewrite take_app_ge by lia. reflexivity.
        -- rewrite drop_app_ge by lia. reflexivity.
Qed.

Lemma read_full_escaped need b rest caps :
  (need <= length b)%nat ->
  exists caps',
    read_full need (mkReader (flat_map escape_byte b ++ rest) caps) =
    (take need b, None,
     mkReader (flat_map escape_byte (drop need b) ++ rest) caps').
Proof. intros H. apply read_loop_escaped; [exact H | lia]. Qed.

Lemma of_be16_be16 x : 0 <= x < 65536 -> of_be16 (be16 x) = x.
Proof.
  intros Hx. unfold of_be16, be16. simpl.
  assert (H : 0 <= x / 256 < 256).
  { split; [apply Z.div_pos; lia | apply Z.div_lt_upper_bound; lia]. }
  rewrite (Z.mod_small (x / 256)) by lia.
  pose proof (Z.div_mod x 256). lia.
Qed.

Lemma read_uint16_escaped x tail rest caps :
  0 <= x < 65536 ->
  exists caps',
    read_uint16 (mkReader (flat_map escape_byte (be16 x ++ tail) ++ rest) caps) =
    (ROk x, be16 x, mkReader (flat_map escape_byte tail ++ rest) caps').
Proof.
  intros Hx. unfold read_uint16.
  destruct (read_full_escaped 2 (be16 x ++ tail) rest caps) as (caps' & ->).
  { rewrite length_app. simpl. lia. }
  exists caps'. change (take 2 (be16 x ++ tail)) with (be16 x).
  change (drop 2 (be16 x ++ tail)) with tail.
  cbn [length Nat.leb]. now rewrite of_be16_be16.
Qed.

(** The body of [ReadPacket] on a frame of the line. *)
Lemma read_frame_with crc st body sum rest caps :
  Z.of_nat (length body) < 65536 -> 0 <= sum < 65536 ->
  exists caps',
    read_frame crc st
      (mkReader (tl (frame_with body sum) ++ rest) caps) =
    (if negb (sum =? frame_sum crc body) then RErr ErrChecksum
     else parsed st body,
     mkReader rest caps').
Proof.
  intros Hlen Hsum. unfold frame_with, read_frame. cbn [tl].
  rewrite (Z.mod_small (Z.of_nat (length body))) by lia.
  destruct (read_uint16_escaped (Z.of_nat (length body))
              (body ++ be16 sum) rest caps) as (caps1 & ->); [lia|].
  rewrite Nat2Z.id.
  destruct (read_full_escaped (length body) (body ++ be16 sum) rest caps1)
    as (caps2 & ->).
  { rewrite length_app. lia. }
  rewrite take_app_length, drop_app_length.
  rewrite Nat.eqb_refl. cbn [negb].
  destruct (read_uint16_escaped sum [] rest caps2) as (caps3 & H); [lia|].
  rewrite app_nil_r in H. rewrite H. exists caps3.
  unfold frame_sum. rewrite (Z.mod_small (Z.of_nat (length body))) by lia.
  cbn [app flat_map].
  destruct (negb (sum =? crc (253 :: be16 (Z.of_nat (length body)) ++ body)));
    [reflexivity|].
  unfold parsed.
  destruct body as [|f0 [|f1 [|f2 payload]]]; try reflexivity.
  destruct (Command st f2); reflexivity.
Qed.

Lemma Read_one_plain x d caps :
  x <> 0xfc ->
  unescapingReader_Read 1 (mkReader (x :: d) caps) =
  ([x], None, mkReader d (tl caps)).
Proof.
  intros Hx. unfold unescapingReader_Read. rewrite reader_Read_one.
  simpl. destruct (Z.eqb_spec x 252); [congruence | reflexivity].
Qed.

(** Bytes that are neither delimiter nor escape are skipped one by one. *)
Lemma read_packet_loop_skip crc st g : forall d caps fuel,
  Forall plain g ->
  exists caps',
    read_packet_loop crc (length g + fuel) st (mkReader (g ++ d) caps) =
    read_packet_loop crc fuel st (mkReader d caps').
Proof.
  induction g as [|x g IH]; intros d caps fuel Hg.
  - exists caps. reflexivity.
  - inversion Hg as [|? ? [Hx1 Hx2] Hg']; subst.
    destruct (IH d (tl caps) fuel Hg') as (caps' & IH').
    exists caps'. rewrite <- IH'.
    cbn [length Nat.add app read_packet_loop].
    rewrite Read_one_plain by exact Hx2.
    cbn [nth]. destruct (Z.eqb_spec x 253); [congruence | reflexivity].
Qed.

Lemma read_packet_loop_frame crc st g body sum rest caps fuel :
  Forall plain g ->
  Z.of_nat (length body) < 65536 -> 0 <= sum < 65536 ->
  (length g < fuel)%nat ->
  exists caps',
    read_packet_loop crc fuel st
      (mkReader (g ++ frame_with body sum ++ rest) caps) =
    Some (if negb (sum =? frame_sum crc body) then RErr ErrChecksum
          else parsed st body,
          mkReader rest caps').
Proof.
  intros Hg Hlen Hsum Hfuel.
  replace fuel with (length g + S (fuel - length g - 1))%nat by lia.
  destruct (read_packet_loop_skip crc st g (frame_with body sum ++ rest) caps
              (S (fuel - length g - 1)) Hg) as (caps1 & ->).
  cbn [read_packet_loop].
  assert (Hf : frame_with body sum ++ rest =
               0xfd :: (tl (frame_with body sum) ++ rest)) by reflexivity.
  rewrite Hf. rewrite Read_one_plain by discriminate.
  cbn [nth]. change (negb (253 =? 253)) with false. cbv iota.
  destruct (read_frame_with crc st body sum rest (tl caps1) Hlen Hsum)
    as (caps' & ->).
  exists caps'. reflexivity.
Qed.

Lemma WritePacket_sent crc pkt u c :
  Byte (Cmd pkt) = ROk c ->
  WritePacket crc pkt u =
  (ROk tt,
   mkUARTGW (uart_in u)
     (uart_out u ++ frame crc (body_of (Dst pkt) (msgcnt u) c (Payload pkt)))
     (wrap8 (msgcnt u + 1)) (devstate u)).
Proof.
  intros Hc. unfold WritePacket. rewrite Hc.
  rewrite !Write_sink, !escape_loop_flat.
  f_equal. f_equal.
  unfold frame, frame_with, frame_sum, body_of.
  replace (Z.of_nat (length (Dst pkt :: msgcnt u :: c :: Payload pkt)))
    with (3 + Z.of_nat (length (Payload pkt))) by (cbn [length]; lia).
  change (Dst pkt :: msgcnt u :: c :: Payload pkt)
    with ([Dst pkt; msgcnt u; c] ++ Payload pkt).
  rewrite !escape_app. rewrite <- !app_assoc. reflexivity.
Qed.

(** X2.  A packet whose command has a byte is written as one frame: the
    delimiter 0xfd, then the escaped length, body and checksum.  The
    delimiter occurs nowhere else in what was written, the frame is
    between 8 + n and 1 + 2 (7 + n) bytes long for a payload of n bytes,
    and the message counter of the gateway goes up by one modulo 256. *)
Theorem WritePacket_one_delimiter (crc : list Z -> Z) (pkt : Packet)
    (u : UARTGW) (c : Z) :
  Byte (Cmd pkt) = ROk c ->
  exists tail,
    WritePacket crc pkt u =
    (ROk tt,
     mkUARTGW (uart_in u) (uart_out u ++ 0xfd :: tail)
       (wrap8 (msgcnt u + 1)) (devstate u)) /\
    0xfd :: tail = frame crc (body_of (Dst pkt) (msgcnt u) c (Payload pkt)) /\
    ~ In 0xfd tail /\
    (7 + length (Payload pkt) <= length tail
     <= 2 * (7 + length (Payload pkt)))%nat.
Proof.
  intros Hc. rewrite (WritePacket_sent crc pkt u c Hc).
  unfold frame, frame_with.
  eexists. split; [reflexivity|]. split; [reflexivity|].
  split; [apply escape_no_delimiter|].
  match goal with |- context [flat_map escape_byte ?l] =>
    pose proof (escape_length l) as H;
    assert (Hl : length l = (7 + length (Payload pkt))%nat)
  end.
  { rewrite !length_app. unfold body_of. cbn [length be16]. lia. }
  lia.
Qed.

Lemma WritePacket_one_delimiter_witness :
  exists tail,
    WritePacket sum16 (mkPacket App 0 AppSetHMID [0xfd; 0xb0; 0x2c])
      (mkUARTGW (mkReader [] []) [] 6 App) =
    (ROk tt, mkUARTGW (mkReader [] []) ([] ++ 0xfd :: tail) (wrap8 (6 + 1)) App) /\
    0xfd :: tail = frame sum16 (body_of App 6 0x00 [0xfd; 0xb0; 0x2c]) /\
    ~ In 0xfd tail /\
    (7 + 3 <= length tail <= 2 * (7 + 3))%nat.
Proof.
  apply (WritePacket_one_delimiter sum16
           (mkPacket App 0 AppSetHMID [0xfd; 0xb0; 0x2c])
           (mkUARTGW (mkReader [] []) [] 6 App) 0x00).
  reflexivity.
Defined.

(** X3.  A packet whose command has no byte is refused, but only after
    the delimiter and the length have gone to the line: the line is left
    with the start of a frame, and the message counter is unchanged. *)
Theorem WritePacket_unencodable (crc : list Z -> Z) (pkt : Packet)
    (u : UARTGW) (e : uart_error) :
  Byte (Cmd pkt) = RErr e ->
  fst (WritePacket crc pkt u) = RErr e /\
  msgcnt (snd (WritePacket crc pkt u)) = msgcnt u /\
  uart_out (snd (WritePacket crc pkt u)) =
    uart_out u ++
    0xfd :: flat_map escape_byte
              (be16 ((3 + Z.of_nat (length (Payload pkt))) mod 65536)) /\
  (3 <= length (uart_out (snd (WritePacket crc pkt u)))
        - length (uart_out u) <= 5)%nat.
Proof.
  intros He. unfold WritePacket. rewrite He. cbn [fst snd msgcnt uart_out].
  rewrite Write_sink, escape_loop_flat.
  split; [reflexivity|]. split; [reflexivity|].
  split; [now rewrite <- app_assoc|].
  rewrite !length_app.
  match goal with |- context [flat_map escape_byte ?l] =>
    pose proof (escape_length l) as H; change (length l) with 2%nat in H
  end.
  cbn [length]. lia.
Qed.

Lemma WritePacket_unencodable_witness :
  fst (WritePacket sum16 (mkPacket App 0 AppGetHMID [])
         (mkUARTGW (mkReader [] []) [] 6 App)) = RErr ErrUnknownCommand /\
  msgcnt (snd (WritePacket sum16 (mkPacket App 0 AppGetHMID [])
                 (mkUARTGW (mkReader [] []) [] 6 App))) = 6 /\
  uart_out (snd (WritePacket sum16 (mkPacket App 0 AppGetHMID [])
                   (mkUARTGW (mkReader [] []) [] 6 App))) =
    [] ++ 0xfd :: flat_map escape_byte
                    (be16 ((3 + Z.of_nat (length (@nil Z))) mod 65536)) /\
  (3 <= length (uart_out (snd (WritePacket sum16 (mkPacket App 0 AppGetHMID [])
                                 (mkUARTGW (mkReader [] []) [] 6 App))))
        - length (@nil Z) <= 5)%nat.
Proof.
  apply (WritePacket_unencodable sum16 (mkPacket App 0 AppGetHMID [])
           (mkUARTGW (mkReader [] []) [] 6 App) ErrUnknownCommand).
  reflexivity.
Defined.

Lemma ReadPacket_with_input crc fuel u d caps :
  ReadPacket crc fuel (with_input u d caps) =
  match read_packet_loop crc fuel (devstate u) (mkReader d caps) with
  | Some (res, r) => Some (res, with_input u (rdata r) (rcaps r))
  | None => None
  end.
Proof.
  unfold ReadPacket, with_input. cbn [devstate uart_in uart_out msgcnt].
  destruct (read_packet_loop crc fuel (devstate u) (mkReader d caps))
    as [[res [d' caps']]|]; reflexivity.
Qed.

(** A frame with the right checksum, after bytes that are skipped. *)
Lemma ReadPacket_parsed crc u g body rest caps fuel :
  (forall l, 0 <= crc l < 65536) ->
  Forall plain g ->
  Z.of_nat (length body) < 65536 ->
  (length g < fuel)%nat ->
  exists caps',
    ReadPacket crc fuel (with_input u (g ++ frame crc body ++ rest) caps) =
    Some (parsed (devstate u) body, with_input u rest caps').
Proof.
  intros Hcrc Hg Hlen Hfuel. rewrite ReadPacket_with_input.
  destruct (read_packet_loop_frame crc (devstate u) g body
              (frame_sum crc body) rest caps fuel Hg Hlen (Hcrc _) Hfuel)
    as (caps' & H).
  unfold frame. rewrite H. rewrite Z.eqb_refl. cbn [negb].
  exists caps'. reflexivity.
Qed.

(** X4.  Frame round trip.  What [WritePacket] puts on a line,
    [ReadPacket] at the other end reads back as the same destination,
    message counter and payload, with the command its own device state
    gives to the command byte; bytes before the frame that are neither
    delimiter nor escape are skipped, and what follows the frame is left
    on the line.  This holds for every payload, whatever bytes need
    escaping, and for every pattern of short reads. *)
Theorem ReadPacket_WritePacket (crc : list Z -> Z) (pkt : Packet)
    (u v : UARTGW) (c : Z) (cmd : uartcmd) (g rest : list Z)
    (caps : list nat) (fuel : nat) :
  (forall l, 0 <= crc l < 65536) ->
  Byte (Cmd pkt) = ROk c ->
  Command (devstate v) c = ROk cmd ->
  Z.of_nat (length (Payload pkt)) + 3 < 65536 ->
  fresh u ->
  Forall plain g ->
  (length g < fuel)%nat ->
  exists caps',
    fst (WritePacket crc pkt u) = ROk tt /\
    ReadPacket crc fuel
      (with_input v (g ++ uart_out (snd (WritePacket crc pkt u)) ++ rest) caps) =
    Some (ROk (mkPacket (Dst pkt) (msgcnt u) cmd (Payload pkt)),
          with_input v rest caps').
Proof.
  intros Hcrc Hc Hcmd Hlen Hu Hg Hfuel.
  rewrite (WritePacket_sent crc pkt u c Hc). cbn [fst snd uart_out].
  rewrite Hu. cbn [app].
  destruct (ReadPacket_parsed crc v g
              (body_of (Dst pkt) (msgcnt u) c (Payload pkt)) rest caps fuel
              Hcrc Hg) as (caps' & H); [|exact Hfuel|].
  { unfold body_of. cbn [length]. lia. }
  exists caps'. split; [reflexivity|]. rewrite H.
  unfold parsed, body_of. now rewrite Hcmd.
Qed.

Lemma ReadPacket_WritePacket_witness :
  exists caps',
    fst (WritePacket sum16 (mkPacket App 0 AppAck [0xfc; 0x01; 0xfd])
           (mkUARTGW (mkReader [] []) [] 0xfc App)) = ROk tt /\
    ReadPacket sum16 3
      (with_input (mkUARTGW (mkReader [] []) [] 0 App)
         ([0x00; 0x41] ++
          uart_out (snd (WritePacket sum16
                           (mkPacket App 0 AppAck [0xfc; 0x01; 0xfd])
                           (mkUARTGW (mkReader [] []) [] 0xfc App))) ++
          [0xfd]) [1%nat; 2%nat; 1%nat]) =
    Some (ROk (mkPacket App 0xfc AppAck [0xfc; 0x01; 0xfd]),
          with_input (mkUARTGW (mkReader [] []) [] 0 App) [0xfd] caps').
Proof.
  apply (ReadPacket_WritePacket sum16 (mkPacket App 0 AppAck [0xfc; 0x01; 0xfd])
           (mkUARTGW (mkReader [] []) [] 0xfc App)
           (mkUARTGW (mkReader [] []) [] 0 App)
           0x04 AppAck [0x00; 0x41] [0xfd] [1%nat; 2%nat; 1%nat] 3).
  - intros l. unfold sum16. apply Z.mod_pos_bound. lia.
  - reflexivity.
  - reflexivity.
  - simpl. lia.
  - reflexivity.
  - repeat constructor; discriminate.
  - simpl. lia.
Defined.

(** X5.  A frame whose checksum bytes are not the checksum of its
    delimiter, length and body is refused with the checksum error; the
    whole frame has been consumed, so the next call starts after it. *)
Theorem ReadPacket_bad_checksum (crc : list Z -> Z) (u : UARTGW)
    (g body rest : list Z) (sum : Z) (caps : list nat) (fuel : nat) :
  Forall plain g ->
  Z.of_nat (length body) < 65536 ->
  0 <= sum < 65536 ->
  sum <> frame_sum crc body ->
  (length g < fuel)%nat ->
  exists caps',
    ReadPacket crc fuel (with_input u (g ++ frame_with body sum ++ rest) caps) =
    Some (RErr ErrChecksum, with_input u rest caps').
Proof.
  intros Hg Hlen Hsum Hne Hfuel. rewrite ReadPacket_with_input.
  destruct (read_packet_loop_frame crc (devstate u) g body sum rest caps fuel
              Hg Hlen Hsum Hfuel) as (caps' & ->).
  destruct (Z.eqb_spec sum (frame_sum crc body)); [congruence|].
  exists caps'. reflexivity.
Qed.

Lemma ReadPacket_bad_checksum_witness :
  exists caps',
    ReadPacket sum16 1
      (with_input (mkUARTGW (mkReader [] []) [] 0 App)
         ([] ++ frame_with [0x01; 0x00; 0x04; 0x01] 0 ++ [0xfd]) []) =
    Some (RErr ErrChecksum,
          with_input (mkUARTGW (mkReader [] []) [] 0 App) [0xfd] caps').
Proof.
  apply (ReadPacket_bad_checksum sum16 (mkUARTGW (mkReader [] []) [] 0 App)
           [] [0x01; 0x00; 0x04; 0x01] [0xfd] 0 [] 1).
  - constructor.
  - simpl. lia.
  - lia.
  - vm_compute. discriminate.
  - simpl. lia.
Defined.

(** X6.  A frame with a right checksum but a body of fewer than three
    bytes makes [ReadPacket] index past the end of the body: it panics
    instead of returning an error. *)
Theorem ReadPacket_short_frame_panics (crc : list Z -> Z) (u : UARTGW)
    (g body rest : list Z) (caps : list nat) (fuel : nat) :
  (forall l, 0 <= crc l < 65536) ->
  Forall plain g ->
  (length body < 3)%nat ->
  (length g < fuel)%nat ->
  exists caps',
    ReadPacket crc fuel (with_input u (g ++ frame crc body ++ rest) caps) =
    Some (RPanic, with_input u rest caps').
Proof.
  intros Hcrc Hg Hlen Hfuel.
  destruct (ReadPacket_parsed crc u g body rest caps fuel Hcrc Hg)
    as (caps' & H); [lia | exact Hfuel |].
  exists caps'. rewrite H.
  destruct body as [|f0 [|f1 [|f2 payload]]]; try reflexivity.
  simpl in Hlen. lia.
Qed.

Lemma ReadPacket_short_frame_panics_witness :
  exists caps',
    ReadPacket sum16 1
      (with_input (mkUARTGW (mkReader [] []) [] 0 App)
         ([] ++ frame sum16 [0x01; 0x00] ++ []) []) =
    Some (RPanic, with_input (mkUARTGW (mkReader [] []) [] 0 App) [] caps').
Proof.
  apply (ReadPacket_short_frame_panics sum16
           (mkUARTGW (mkReader [] []) [] 0 App) [] [0x01; 0x00] [] [] 1).
  - intros l. unfold sum16. apply Z.mod_pos_bound. lia.
  - constructor.
  - simpl. lia.
  - simpl. lia.
Defined.

Lemma with_input_again u d caps d' caps' :
  with_input (with_input u d caps) d' caps' = with_input u d' caps'.
Proof. reflexivity. Qed.

(** In application state only the byte 0x05 is [AppRecv] and only the
    byte 0x04 is [AppAck]. *)
Lemma Command_App_recv_ack c cmd :
  Command App c = ROk cmd ->
  uartcmd_eqb cmd AppRecv = (c =? 0x05) /\
  uartcmd_eqb cmd AppAck = (c =? 0x04).
Proof.
  unfold Command. change (App =? OS) with false. change (App =? App) with true.
  cbv iota.
  repeat match goal with
  | |- context [if c =? ?k then _ else _] =>
      destruct (Z.eqb_spec c k) as [->|?];
      [intros [= <-]; split; reflexivity|]
  end.
  discriminate.
Qed.

(** X7.  In application state [Confirm] drops every frame received from
    the radio (command byte 0x05), however many precede the answer, and
    then takes the next frame as the answer: it succeeds when that frame
    is an acknowledgement (command byte 0x04) and fails for every other
    command; the frames it read are gone from the line. *)
Theorem Confirm_drops_received (crc : list Z -> Z) (u : UARTGW)
    (recvs : list (list Z)) (d m c : Z) (cmd : uartcmd) (p rest : list Z)
    (caps : list nat) (fuel : nat) :
  (forall l, 0 <= crc l < 65536) ->
  devstate u = App ->
  Forall (fun body => received body /\ Z.of_nat (length body) < 65536) recvs ->
  Command App c = ROk cmd -> c <> 0x05 ->
  Z.of_nat (length p) + 3 < 65536 ->
  (length recvs < fuel)%nat ->
  exists caps',
    Confirm crc fuel
      (with_input u (flat_map (frame crc) recvs
                     ++ frame crc (body_of d m c p) ++ rest) caps) =
    Some (if c =? 0x04 then ROk tt else RErr ErrUnexpectedCmd,
          with_input u rest caps').
Proof.
  intros Hcrc Hst Hrecvs Hcmd Hc Hlen. revert caps fuel.
  induction Hrecvs as [|body recvs [(d' & m' & p' & ->) Hbl] _ IH];
    intros caps fuel Hfuel.
  - destruct fuel as [|fuel]; [simpl in Hfuel; lia|].
    cbn [flat_map app Confirm].
    destruct (ReadPacket_parsed crc u [] (body_of d m c p) rest caps (S fuel)
                Hcrc) as (caps' & H).
    { constructor. } { unfold body_of. cbn [length]. lia. } { simpl. lia. }
    cbn [app] in H. rewrite H. exists caps'.
    unfold parsed, body_of. cbn [devstate with_input]. rewrite Hst, Hcmd.
    cbn [Cmd].
    destruct (Command_App_recv_ack c cmd Hcmd) as [-> ->].
    destruct (Z.eqb_spec c 5); [congruence|].
    destruct (c =? 4); reflexivity.
  - destruct fuel as [|fuel]; [simpl in Hfuel; lia|].
    cbn [flat_map Confirm]. rewrite <- app_assoc.
    destruct (ReadPacket_parsed crc u [] (body_of d' m' 5 p')
                (flat_map (frame crc) recvs ++ frame crc (body_of d m c p) ++ rest)
                caps (S fuel) Hcrc) as (caps1 & H).
    { constructor. } { exact Hbl. } { simpl. lia. }
    cbn [app] in H. rewrite H.
    unfold parsed, body_of at 1. cbn [devstate with_input]. rewrite Hst.
    change (Command App 5) with (ROk AppRecv). cbn [Cmd uartcmd_eqb].
    destruct (IH caps1 fuel) as (caps' & IH'); [simpl in Hfuel; lia|].
    exists caps'. exact IH'.
Qed.

Lemma Confirm_drops_received_witness :
  exists caps',
    Confirm sum16 2
      (with_input (mkUARTGW (mkReader [] []) [] 0 App)
         (flat_map (frame sum16) [body_of 0x01 0x07 0x05 [0xfd; 0x10]]
          ++ frame sum16 (body_of 0x01 0x08 0x04 [0x01]) ++ [0xfd]) [1%nat]) =
    Some (if 0x04 =? 0x04 then ROk tt else RErr ErrUnexpectedCmd,
          with_input (mkUARTGW (mkReader [] []) [] 0 App) [0xfd] caps').
Proof.
  apply (Confirm_drops_received sum16 (mkUARTGW (mkReader [] []) [] 0 App)
           [body_of 0x01 0x07 0x05 [0xfd; 0x10]] 0x01 0x08 0x04 AppAck
           [0x01] [0xfd] [1%nat] 2).
  - intros l. unfold sum16. apply Z.mod_pos_bound. lia.
  - reflexivity.
  - constructor; [|constructor]. split.
    + exists 0x01, 0x07, [0xfd; 0x10]. reflexivity.
    + simpl. lia.
  - reflexivity.
  - lia.
  - simpl. lia.
  - simpl. lia.
Defined.

(** X8.  [Read] hands the payload of the next frame to the caller only if
    the frame is one received from the radio and the buffer holds the
    whole payload; a frame with another command, and a payload longer
    than the buffer, are errors, and in each case the frame is gone from
    the line.  Nothing is ever copied in part. *)
Theorem Read_received (crc : list Z -> Z) (u : UARTGW) (d m c : Z)
    (cmd : uartcmd) (p rest : list Z) (caps : list nat) (k fuel : nat) :
  (forall l, 0 <= crc l < 65536) ->
  Command (devstate u) c = ROk cmd ->
  Z.of_nat (length p) + 3 < 65536 ->
  (0 < fuel)%nat ->
  exists caps',
    Read crc fuel k
      (with_input u (frame crc (body_of d m c p) ++ rest) caps) =
    Some (if negb (uartcmd_eqb cmd AppRecv) then RErr ErrUnexpectedCmd
          else if (k <? length p)%nat then RErr ErrBufferTooShort
          else ROk p,
          with_input u rest caps').
Proof.
  intros Hcrc Hcmd Hlen Hfuel. unfold Read.
  destruct (ReadPacket_parsed crc u [] (body_of d m c p) rest caps fuel Hcrc)
    as (caps' & H).
  { constructor. } { unfold body_of. cbn [length]. lia. } { simpl. lia. }
  cbn [app] in H. rewrite H. exists caps'.
  unfold parsed, body_of. rewrite Hcmd. cbn [Cmd Payload].
  destruct (negb (uartcmd_eqb cmd AppRecv)); [reflexivity|].
  destruct (k <? length p)%nat; reflexivity.
Qed.

Lemma Read_received_witness :
  exists caps',
    Read sum16 1 2
      (with_input (mkUARTGW (mkReader [] []) [] 0 App)
         (frame sum16 (body_of 0x01 0x07 0x05 [0xfd; 0x10; 0x20]) ++ []) []) =
    Some (if negb (uartcmd_eqb AppRecv AppRecv) then RErr ErrUnexpectedCmd
          else if (2 <? length [0xfd; 0x10; 0x20])%nat then RErr ErrBufferTooShort
          else ROk [0xfd; 0x10; 0x20],
          with_input (mkUARTGW (mkReader [] []) [] 0 App) [] caps').
Proof.
  apply (Read_received sum16 (mkUARTGW (mkReader [] []) [] 0 App)
           0x01 0x07 0x05 AppRecv [0xfd; 0x10; 0x20] [] [] 2 1).
  - intros l. unfold sum16. apply Z.mod_pos_bound. lia.
  - reflexivity.
  - simpl. lia.
  - lia.
Defined.

(** X9.  A byte that [Command] accepts is the byte [Byte] gives for the
    command it stands for, so a received command can be sent back as it
    came; the only exceptions are six commands of the application table,
    which can be received but have no byte to be sent with. *)
Theorem Byte_of_Command (st b : Z) (c : uartcmd) :
  Command st b = ROk c ->
  Byte c = ROk b \/
  (st = App /\ Byte c = RErr ErrUnknownCommand /\
   In c [AppGetHMID; AppRemovePeer; AppPeerAddAES; AppSetTempKey;
         AppSetPreviousKey; AppDefaultHMID]).
Proof.
  unfold Command.
  destruct (Z.eqb_spec st OS) as [->|Hos].
  - repeat match goal with
    | |- context [if b =? ?k then _ else _] =>
        destruct (Z.eqb_spec b k) as [->|?];
        [intros [= <-]; left; reflexivity|]
    end.
    discriminate.
  - destruct (Z.eqb_spec st App) as [->|Happ]; [|discriminate].
    repeat match goal with
    | |- context [if b =? ?k then _ else _] =>
        destruct (Z.eqb_spec b k) as [->|?];
        [intros [= <-];
         first [left; reflexivity
               | right; split; [reflexivity|]; split; [reflexivity|];
                 simpl; tauto]|]
    end.
    discriminate.
Qed.

Lemma Byte_of_Command_witness :
  Byte AppPeerRemoveAES = ROk 0x0a \/
  (App = App /\ Byte AppPeerRemoveAES = RErr ErrUnknownCommand /\
   In AppPeerRemoveAES
      [AppGetHMID; AppRemovePeer; AppPeerAddAES; AppSetTempKey;
       AppSetPreviousKey; AppDefaultHMID]).
Proof.
  apply (Byte_of_Command App 0x0a AppPeerRemoveAES). reflexivity.
Defined.

(** X10.  The byte of a command is read back, in the device state the
    command belongs to, as that command, with one exception: the byte
    0x00 of [AppSetHMID] is read in application state as [OSGetApp]. *)
Theorem Command_of_Byte (c : uartcmd) (b : Z) :
  Byte c = ROk b ->
  Command (state_of c) b =
  ROk (if uartcmd_eqb c AppSetHMID then OSGetApp else c).
Proof.
  destruct c; simpl; intros [= <-]; reflexivity.
Qed.

Lemma Command_of_Byte_witness :
  Command (state_of AppSetHMID) 0x00 =
  ROk (if uartcmd_eqb AppSetHMID AppSetHMID then OSGetApp else AppSetHMID).
Proof.
  apply (Command_of_Byte AppSetHMID 0x00). reflexivity.
Defined.

End uartgw_session_props.

(** ** The packet codec, the other way round *)

Module codec_props.
Import bidcos bidcos_spec.

(** X11.  [Decode] accepts exactly the buffers of at least 12 bytes and
    never panics; the payload is what follows the 12th byte.  Encoding
    the decoded packet gives the buffer back from its fifth byte on; the
    first four bytes are normalised: status and info become zero, the
    RSSI byte becomes the burst marker of the flags, and a counter byte
    of zero is replaced by the global counter. *)
Theorem Encode_Decode (b : list Z) (counter : Z) :
  match Decode b with
  | Ok p =>
    (12 <= length b)%nat /\
    Payload p = drop 12 b /\
    fst (Encode p counter) =
      [0x00; 0x00; burst_byte (Flags p);
       if Msgcnt p =? 0 then counter else Msgcnt p] ++ drop 4 b
  | Err e => e = TooShort /\ (length b < 12)%nat
  | Panic => False
  end.
Proof.
  unfold Decode.
  do 12 (destruct b as [|? b]; [simpl; split; [reflexivity | lia]|]).
  cbn [length]. split; [lia|]. split; [reflexivity|].
  unfold Encode, burst_byte. cbn [Msgcnt Flags Cmd Source Dest Payload].
  destruct (z2 =? 0); reflexivity.
Qed.

(** X12.  [Sender.WritePacket] replaces the source of the packet by the
    address of the sender before encoding, whatever the caller had put
    there.  The global counter moves exactly when the packet names no
    counter, also when the write then fails; a failed write records
    nothing and asks for no confirmation, a failed confirmation leaves
    the packet written. *)
Theorem WritePacket_stamps_source (pkt : Packet) (s : Sender) (counter : Z) :
  let res := WritePacket pkt s counter in
  let s' := snd (fst res) in
  Addr s' = Addr s /\
  snd res = (if Msgcnt pkt =? 0 then wrap8 (counter + 9) else counter) /\
  (fst (fst res) = Err WriteFailed ->
   sent (Gateway s') = sent (Gateway s) /\
   cfail (Gateway s') = cfail (Gateway s)) /\
  (fst (fst res) = Ok tt \/ fst (fst res) = Err ConfirmFailed ->
   exists bs q,
     sent (Gateway s') = sent (Gateway s) ++ [bs] /\
     Decode bs = Ok q /\
     Source q = Addr s /\ Dest q = Dest pkt /\
     Flags q = Flags pkt /\ Cmd q = Cmd pkt /\ Payload q = Payload pkt) /\
  (fst (fst res) = Ok tt \/ fst (fst res) = Err WriteFailed
   \/ fst (fst res) = Err ConfirmFailed).
Proof.
  destruct s as [[ib wf cf sn] [[s0 s1] s2]].
  destruct pkt as [st inf rs mc fl cm src [[d0 d1] d2] pl].
  unfold WritePacket, Encode, Gateway_Write, Gateway_Confirm.
  cbn [Gateway Addr Msgcnt Flags Cmd Source Dest Payload status info rssi
       wfail cfail sent inbox addr_bytes].
  destruct (mc =? 0); destruct wf as [|[|] wf]; destruct cf as [|[|] cf];
    cbn [fst snd Gateway Addr sent cfail tl];
    (split; [reflexivity|]); (split; [reflexivity|]);
    (split; [intros H; first [discriminate H | split; reflexivity]|]);
    (split; [intros [H|H];
             first [discriminate H
                   | do 2 eexists; split; [reflexivity|];
                     split; [reflexivity|]; cbn; repeat split; reflexivity]
            | auto]).
Qed.

End codec_props.

(** ** Message counters and pairing *)

Module device_props.
Import hm hm_spec device_spec.

Lemma counts_from n : forall st,
  counts n st =
  map (fun k => (msgcnt (dev st) + 9 * Z.of_nat k) mod 256) (seq 0 n)
  \/ ~ is_byte (msgcnt (dev st)).
Proof.
  induction n as [|n IH]; intros st; [left; reflexivity|].
  destruct (Z_lt_dec (msgcnt (dev st)) 0) as [Hlt|Hge];
    [right; unfold is_byte; lia|].
  destruct (Z_lt_dec (msgcnt (dev st)) 256) as [Hlt|Hge'];
    [|right; unfold is_byte; lia].
  left. cbn [counts count].
  set (st' := mkState _ _).
  destruct (IH st') as [->|Hnb].
  - cbn [seq map]. f_equal.
    + rewrite Z.add_0_r. symmetry. apply Z.mod_small. lia.
    + rewrite <- seq_shift, map_map. apply map_ext. intros k.
      subst st'. cbn [dev msgcnt]. unfold wrap8.
      rewrite Zplus_mod_idemp_l. f_equal. lia.
  - exfalso. apply Hnb. subst st'. cbn [dev msgcnt]. apply wrap8_is_byte.
Qed.

(** X13.  The counter of a device steps through all 256 byte values: call
    number k of [count] returns the start value plus 9 k modulo 256, the
    values of 256 calls in a row are pairwise different, every byte value
    is among them, zero included, and the 257th call returns the start
    value again. *)
Theorem count_period (st : state) :
  is_byte (msgcnt (dev st)) ->
  (forall n, counts n st =
     map (fun k => (msgcnt (dev st) + 9 * Z.of_nat k) mod 256) (seq 0 n)) /\
  List.NoDup (counts 256 st) /\
  (forall b, is_byte b -> In b (counts 256 st)) /\
  nth 256 (counts 257 st) 0 = msgcnt (dev st).
Proof.
  intros Hm.
  assert (Hc : forall n, counts n st =
     map (fun k => (msgcnt (dev st) + 9 * Z.of_nat k) mod 256) (seq 0 n)).
  { intros n. destruct (counts_from n st) as [H|H]; [exact H | tauto]. }
  split; [exact Hc|]. rewrite !Hc. unfold is_byte in *.
  set (m := msgcnt (dev st)) in *.
  split; [|split].
  - apply Finite.Injective_map_NoDup_in; [|apply seq_NoDup].
    intros i j Hi Hj Heq. apply in_seq in Hi, Hj.
    pose proof (Z.div_mod (m + 9 * Z.of_nat i) 256).
    pose proof (Z.div_mod (m + 9 * Z.of_nat j) 256).
    lia.
  - intros b Hb. apply in_map_iff.
    exists (Z.to_nat ((57 * (b - m)) mod 256)).
    pose proof (Z.mod_pos_bound (57 * (b - m)) 256).
    split; [|apply in_seq; lia].
    rewrite Z2Nat.id by lia.
    pose proof (Z.div_mod (57 * (b - m)) 256).
    replace (m + 9 * ((57 * (b - m)) mod 256))
      with (b + (2 * (b - m) - 9 * ((57 * (b - m)) / 256)) * 256) by lia.
    rewrite Z_mod_plus_full. apply Z.mod_small. lia.
  - change 257%nat with (256 + 1)%nat. rewrite seq_app, map_app.
    rewrite app_nth2; rewrite length_map, length_seq; [|lia].
    replace (256 - 256)%nat with 0%nat by lia. cbn [seq map nth Nat.add].
    replace (m + 9 * Z.of_nat 256) with (m + 9 * 256) by lia.
    rewrite Z_mod_plus_full. apply Z.mod_small. lia.
Qed.

Lemma count_period_witness :
  (forall n, counts n (device_with []) =
     map (fun k => (0 + 9 * Z.of_nat k) mod 256) (seq 0 n)) /\
  List.NoDup (counts 256 (device_with [])) /\
  (forall b, is_byte b -> In b (counts 256 (device_with []))) /\
  nth 256 (counts 257 (device_with [])) 0 = 0.
Proof.
  apply (count_period (device_with [])). unfold is_byte. simpl. lia.
Defined.

(** X14.  Which counter goes out with a request of a device.  The
    requests pass the device counter to the codec, for which zero means
    that no counter was named: whenever the device counter is zero the
    packet carries the global counter instead and the global counter
    moves on by 9; otherwise the packet carries the device counter and
    the global counter stays.  The device counter moves on by 9 in both
    cases, also when the write fails. *)
Theorem send_config_counter (flags : Z) (payload : list Z) (st : state) :
  let res := send_config flags payload st in
  msgcnt (dev (snd res)) = wrap8 (msgcnt (dev st) + 9) /\
  messageCounter (snd res) =
    (if msgcnt (dev st) =? 0 then wrap8 (messageCounter st + 9)
     else messageCounter st) /\
  (fst res = Ok tt ->
   exists bs,
     sent_of (snd res) = sent_of st ++ [bs] /\
     nth 3 bs 0 =
       (if msgcnt (dev st) =? 0 then messageCounter st
        else msgcnt (dev st))).
Proof.
  destruct st as [[[[ib wf cf sn] [[s0 s1] s2]] [[a0 a1] a2] mc] c].
  unfold send_config, bind, count, WritePacket, bidcos.WritePacket,
    bidcos.Encode, bidcos.Gateway_Write, bidcos.Gateway_Confirm, sent_of.
  simpl. destruct (mc =? 0); simpl;
    destruct wf as [|[|] wf]; simpl; destruct cf as [|[|] cf]; simpl;
    (split; [reflexivity|]); (split; [reflexivity|]);
    intros H; first [discriminate H | eexists; split; reflexivity].
Qed.

(** X15.  [LevelSet] names no counter, so its packet always carries the
    global counter, which moves on by 9, while the counter of the device
    is left alone; what is written is a packet to the device with
    command 0x11 and the payload 0x02, channel, state, 0x00, on-time. *)
Theorem LevelSet_packet (channel state onTime : Z) (st : hm.state) :
  let res := power.LevelSet channel state onTime st in
  msgcnt (dev (snd res)) = msgcnt (dev st) /\
  messageCounter (snd res) = wrap8 (messageCounter st + 9) /\
  (fst res = Ok tt ->
   exists bs pkt,
     sent_of (snd res) = sent_of st ++ [bs] /\
     bidcos.Decode bs = Ok pkt /\
     bidcos.Msgcnt pkt = messageCounter st /\
     bidcos.Flags pkt = bidcos.DefaultFlags /\
     bidcos.Cmd pkt = 0x11 /\
     bidcos.Source pkt = bidcos.Addr (BCS (dev st)) /\
     bidcos.Dest pkt = Addr (dev st) /\
     bidcos.Payload pkt = [0x02; channel; state; 0x00; onTime]).
Proof.
  destruct st as [[[[ib wf cf sn] [[s0 s1] s2]] [[a0 a1] a2] mc] c].
  unfold power.LevelSet, WritePacket, bidcos.WritePacket,
    bidcos.Encode, bidcos.Gateway_Write, bidcos.Gateway_Confirm, sent_of.
  simpl.
  destruct wf as [|[|] wf]; simpl; destruct cf as [|[|] cf]; simpl;
    (split; [reflexivity|]); (split; [reflexivity|]);
    intros H; first [discriminate H
                    | do 2 eexists; split; [reflexivity|];
                      split; [reflexivity|]; simpl; repeat split; reflexivity].
Qed.

(** What one request does to the line, whatever the gateway answers:
    nothing is written, or the one packet with the payload. *)
Lemma send_config_cases flags payload st :
  let res := send_config flags payload st in
  bidcos.Addr (BCS (dev (snd res))) = bidcos.Addr (BCS (dev st)) /\
  Addr (dev (snd res)) = Addr (dev st) /\
  inbox_of (snd res) = inbox_of st /\
  ((fst res = Err WriteFailed /\ sent_of (snd res) = sent_of st) \/
   ((fst res = Ok tt \/ fst res = Err ConfirmFailed) /\
    exists bs, sent_of (snd res) = sent_of st ++ [bs] /\
               payload_of bs = payload)).
Proof.
  destruct st as [[[[ib wf cf sn] [[s0 s1] s2]] [[a0 a1] a2] mc] c].
  unfold send_config, bind, count, WritePacket, bidcos.WritePacket,
    bidcos.Encode, bidcos.Gateway_Write, bidcos.Gateway_Confirm, sent_of,
    inbox_of.
  simpl. destruct (mc =? 0); simpl;
    destruct wf as [|[|] wf]; simpl; destruct cf as [|[|] cf]; simpl;
    (split; [reflexivity|]); (split; [reflexivity|]);
    (split; [reflexivity|]);
    first [ left; split; reflexivity
          | right; split; [auto|]; eexists; split; reflexivity ].
Qed.

(** X16.  [Pair] writes at most three packets, in this order: the start
    of a configuration of channel 0, list 0; the pairs that set
    parameter 0x02 to 0x01 and the parameters 0x0a, 0x0b, 0x0c to the
    address of the controller; the end of the configuration.  It stops
    at the first request that fails, so what is written is always a
    prefix of the three, and all three when it succeeds; it reads
    nothing. *)
Theorem Pair_packets (st : state) :
  let res := pairing.Pair st in
  exists l,
    sent_of (snd res) = sent_of st ++ l /\
    map payload_of l =
      take (length l) (pair_payloads (bidcos.Addr (BCS (dev st)))) /\
    (fst res = Ok tt -> length l = 3%nat) /\
    inbox_of (snd res) = inbox_of st.
Proof.
  unfold pairing.Pair, bind, ConfigStart, ConfigWriteIndex, ConfigEnd.
  cbv zeta.
  pose proof (send_config_cases bidcos.DefaultFlags
                [0; bidcos.ConfigStart; 0; 0; 0; 0; 0] st) as H1.
  cbv zeta in H1.
  destruct (send_config bidcos.DefaultFlags
              [0; bidcos.ConfigStart; 0; 0; 0; 0; 0] st) as [r1 st1].
  cbn [fst snd] in H1. destruct H1 as (Hb1 & Ha1 & Hi1 & H1).
  destruct r1 as [[]|e1|].
  2:{ cbn [fst snd]. destruct H1 as [[_ Hs]|[_ (bs & Hs & Hp)]].
      - exists []. rewrite app_nil_r. repeat split; auto; try discriminate.
      - exists [bs]. cbn. rewrite Hp. repeat split; auto; try discriminate. }
  2:{ destruct H1 as [[H _]|[[H|H] _]]; discriminate H. }
  destruct H1 as [[H _]|[_ (bs1 & Hs1 & Hp1)]]; [discriminate H|].
  rewrite <- Hb1.
  destruct (bidcos.Addr (BCS (dev st1))) as [[c0 c1] c2].
  pose proof (send_config_cases bidcos.DefaultFlags
                ([0; bidcos.ConfigWriteIndexPairs]
                   ++ [0x02; 0x01; 0x0a; c0; 0x0b; c1; 0x0c; c2]) st1) as H2.
  cbv zeta in H2.
  destruct (send_config bidcos.DefaultFlags
              ([0; bidcos.ConfigWriteIndexPairs]
                 ++ [0x02; 0x01; 0x0a; c0; 0x0b; c1; 0x0c; c2]) st1)
    as [r2 st2].
  cbn [fst snd] in H2. destruct H2 as (Hb2 & Ha2 & Hi2 & H2).
  destruct r2 as [[]|e2|].
  2:{ cbn [fst snd]. destruct H2 as [[_ Hs]|[_ (bs & Hs & Hp)]].
      - exists [bs1]. rewrite Hs, Hs1. cbn. rewrite Hp1.
        repeat split; try congruence; try discriminate.
      - exists [bs1; bs]. rewrite Hs, Hs1, <- app_assoc. cbn.
        rewrite Hp1, Hp. repeat split; try congruence; try discriminate. }
  2:{ destruct H2 as [[H _]|[[H|H] _]]; discriminate H. }
  destruct H2 as [[H _]|[_ (bs2 & Hs2 & Hp2)]]; [discriminate H|].
  pose proof (send_config_cases bidcos.DefaultFlags
                [0; bidcos.ConfigEnd] st2) as H3.
  cbv zeta in H3.
  destruct (send_config bidcos.DefaultFlags [0; bidcos.ConfigEnd] st2)
    as [r3 st3].
  cbn [fst snd] in H3 |- *. destruct H3 as (Hb3 & Ha3 & Hi3 & H3).
  destruct H3 as [[Hr Hs]|[Hr (bs3 & Hs3 & Hp3)]].
  - exists [bs1; bs2]. rewrite Hs, Hs2, Hs1, <- app_assoc. cbn.
    rewrite Hp1, Hp2. repeat split; try congruence.
  - exists [bs1; bs2; bs3]. rewrite Hs3, Hs2, Hs1, <- !app_assoc. cbn.
    rewrite Hp1, Hp2, Hp3. repeat split; congruence.
Qed.

End device_props.

(** ** Reading and writing the parameter memory *)

Module config_props.
Import hm hm_spec hm_props device_spec.

(** X17.  A reply of (index, value) pairs with an even number of bytes is
    applied to a memory of 256 bytes without a panic, and afterwards
    every index holds the value of the last pair that names it; an index
    no pair names keeps its byte. *)
Theorem write_pairs_stores (kv : list Z) (mem : list Z) :
  all_bytes kv -> Nat.Even (length kv) -> length mem = 256%nat ->
  exists mem',
    write_pairs kv mem = (Ok tt, mem') /\
    length mem' = 256%nat /\
    forall j : nat,
      mem' !! j = match last_value kv j with
                  | Some v => Some v
                  | None => mem !! j
                  end.
Proof.
  revert mem.
  induction kv as [|x|idx val kv IH] using pair_ind; intros mem Hb He Hl.
  - exists mem. simpl. auto.
  - destruct He as [k Hk]. simpl in Hk. lia.
  - assert (Hidx : is_byte idx) by now inversion Hb.
    assert (Hlt : (Z.to_nat idx < length mem)%nat)
      by (unfold is_byte in Hidx; lia).
    cbn [write_pairs]. unfold store.
    destruct (Nat.ltb_spec (Z.to_nat idx) (length mem)) as [_|?]; [|lia].
    destruct (IH (<[Z.to_nat idx := val]> mem)) as (mem' & Hw & Hl' & Hv).
    + inversion Hb as [|? ? _ Hb']. now inversion Hb'.
    + destruct He as [k Hk]. simpl in Hk. exists (k - 1)%nat. lia.
    + now rewrite length_insert.
    + exists mem'. split; [exact Hw|]. split; [exact Hl'|].
      intros j. rewrite Hv. cbn [last_value].
      destruct (last_value kv j); [reflexivity|].
      destruct (Nat.eqb_spec (Z.to_nat idx) j) as [Heq|Hne].
      * rewrite <- Heq. now apply list_lookup_insert_eq.
      * now apply list_lookup_insert_ne.
Qed.

Lemma write_pairs_stores_witness :
  exists mem',
    write_pairs [0x05; 0x07; 0x09; 0x01; 0x05; 0x08] (replicate 256 0)
      = (Ok tt, mem') /\
    length mem' = 256%nat /\
    forall j : nat,
      mem' !! j = match last_value [0x05; 0x07; 0x09; 0x01; 0x05; 0x08] j with
                  | Some v => Some v
                  | None => replicate 256 0 !! j
                  end.
Proof.
  apply (write_pairs_stores [0x05; 0x07; 0x09; 0x01; 0x05; 0x08]
           (replicate 256 0)).
  - repeat constructor; unfold is_byte; lia.
  - exists 3%nat. reflexivity.
  - apply length_replicate.
Defined.

Lemma mod256_apart (s a b : Z) :
  0 < b - a < 256 ->
  Z.to_nat ((s + a) mod 256) <> Z.to_nat ((s + b) mod 256).
Proof.
  intros H Heq.
  pose proof (Z.mod_pos_bound (s + a) 256).
  pose proof (Z.mod_pos_bound (s + b) 256).
  pose proof (Z.div_mod (s + a) 256).
  pose proof (Z.div_mod (s + b) 256).
  assert ((s + a) mod 256 = (s + b) mod 256) by lia.
  lia.
Qed.

Lemma write_seq_run start vals : forall i mem,
  (i + length vals <= 256)%nat -> length mem = 256%nat ->
  exists mem',
    write_seq start i vals mem = (Ok tt, mem') /\
    length mem' = 256%nat /\
    forall (k : nat) v, vals !! k = Some v ->
      mem' !! Z.to_nat ((start + Z.of_nat (i + k)) mod 256) = Some v.
Proof.
  induction vals as [|v vals IH]; intros i mem Hi Hl.
  - exists mem. simpl. repeat split; auto. intros k v H. discriminate.
  - cbn [write_seq length] in *. unfold store.
    assert (Hw : wrap8 (start + wrap8 (Z.of_nat i))
                 = (start + Z.of_nat i) mod 256).
    { unfold wrap8. rewrite Zplus_mod_idemp_r. reflexivity. }
    rewrite Hw.
    pose proof (Z.mod_pos_bound (start + Z.of_nat i) 256) as Hr.
    destruct (Nat.ltb_spec (Z.to_nat ((start + Z.of_nat i) mod 256))
                           (length mem)) as [Hlt|?]; [|lia].
    destruct (write_seq start (S i) vals
                (<[Z.to_nat ((start + Z.of_nat i) mod 256) := v]> mem))
      as [r mem'] eqn:Hrec.
    destruct (IH (S i) (<[Z.to_nat ((start + Z.of_nat i) mod 256) := v]> mem))
      as (mem2 & Hw2 & Hl2 & Hv2); [lia | now rewrite length_insert |].
    rewrite Hrec in Hw2. injection Hw2 as -> ->.
    exists mem2. split; [reflexivity|]. split; [exact Hl2|].
    intros [|k] v' Hk.
    + cbn in Hk. injection Hk as <-.
      destruct (write_seq_frame _ _ _ _ _ _ Hrec) as [_ Hf].
      rewrite Hf.
      * rewrite Nat.add_0_r. now apply list_lookup_insert_eq.
      * intros k Hk. rewrite Nat.add_0_r. apply mod256_apart. lia.
    + cbn in Hk. specialize (Hv2 k v' Hk).
      replace (i + S k)%nat with (S i + k)%nat by lia. exact Hv2.
Qed.

(** X18.  A reply that reports a run of values from a start index is
    applied to a memory of 256 bytes without a panic, and the index is a
    byte that wraps: value number k of the run is stored at start + k
    modulo 256, so a run that passes index 255 goes on at index 0; the
    other bytes are kept. *)
Theorem write_seq_wraps (start : Z) (vals : list Z) (mem : list Z) :
  (length vals <= 256)%nat -> length mem = 256%nat ->
  exists mem',
    write_seq start 0 vals mem = (Ok tt, mem') /\
    length mem' = 256%nat /\
    (forall (k : nat) v, vals !! k = Some v ->
       mem' !! Z.to_nat ((start + Z.of_nat k) mod 256) = Some v) /\
    (forall j : nat, ~ In j (run_indices start (length vals)) ->
       mem' !! j = mem !! j).
Proof.
  intros Hv Hl.
  destruct (write_seq_run start vals 0 mem) as (mem' & Hw & Hl' & Hs);
    [lia | exact Hl |].
  exists mem'. split; [exact Hw|]. split; [exact Hl'|]. split.
  - intros k v Hk. exact (Hs k v Hk).
  - intros j Hj.
    destruct (write_seq_frame _ _ _ _ _ _ Hw) as [_ Hf].
    apply Hf. now apply run_indices_In.
Qed.

Lemma write_seq_wraps_witness :
  exists mem',
    write_seq 0xff 0 [0x11; 0x22] (replicate 256 0) = (Ok tt, mem') /\
    length mem' = 256%nat /\
    (forall (k : nat) v, [0x11; 0x22] !! k = Some v ->
       mem' !! Z.to_nat ((0xff + Z.of_nat k) mod 256) = Some v) /\
    (forall j : nat, ~ In j (run_indices 0xff (length [0x11; 0x22])) ->
       mem' !! j = replicate 256 0 !! j).
Proof.
  apply (write_seq_wraps 0xff [0x11; 0x22] (replicate 256 0)).
  - simpl. lia.
  - apply length_replicate.
Defined.

(** The read loop succeeds only by meeting an end of response, and the
    first one ends it. *)
Lemma readConfig_ends a ib : forall mem mem' ib',
  readConfig a ib mem = (Ok tt, mem', ib') ->
  exists pre t,
    ib = pre ++ t :: ib' /\
    ends_response a t = true /\
    Forall (fun r => ends_response a r = false) pre.
Proof.
  induction ib as [|d ib IH]; intros mem mem' ib' H; [discriminate H|].
  cbn [readConfig] in H.
  assert (Hstop : ends_response a d = true ->
                  (Ok tt, mem, ib) = (Ok tt, mem', ib') ->
                  exists pre t, d :: ib = pre ++ t :: ib' /\
                    ends_response a t = true /\
                    Forall (fun r => ends_response a r = false) pre).
  { intros He [= _ <-]. exists [], d. auto. }
  assert (Hnext : forall mem1, ends_response a d = false ->
                  readConfig a ib mem1 = (Ok tt, mem', ib') ->
                  exists pre t, d :: ib = pre ++ t :: ib' /\
                    ends_response a t = true /\
                    Forall (fun r => ends_response a r = false) pre).
  { intros mem1 He Hrec.
    destruct (IH _ _ _ Hrec) as (pre & t & -> & Ht & Hpre).
    exists (d :: pre), t. auto. }
  unfold ends_response in Hstop, Hnext.
  destruct (bidcos.packet_of d) as [pkt|e|]; [|discriminate H|discriminate H].
  destruct (bidcos.addr_eqb (bidcos.Source pkt) a); cbn [negb andb] in *;
    [|now apply (Hnext mem)].
  destruct (bidcos.Payload pkt) as [|p0 p1]; [discriminate H|].
  unfold bidcos.InfoParamResponsePairs, bidcos.InfoParamResponseSeq in H.
  destruct (p0 =? 2).
  - destruct (bytes_eqb p1 [0; 0]); [now apply Hstop|].
    destruct (write_pairs p1 mem) as [[[]|e|] mem1];
      [now apply (Hnext mem1) | discriminate H | discriminate H].
  - destruct (p0 =? 3); [|discriminate H].
    destruct p1 as [|start vals]; [discriminate H|].
    destruct (start =? 0); [now apply Hstop|].
    destruct (write_seq start 0 vals mem) as [[[]|e|] mem1];
      [now apply (Hnext mem1) | discriminate H | discriminate H].
Qed.

(** X19.  [LoadConfig] reports success only when the device has sent an
    end of response (the pairs 0x00 0x00, or a run that starts at index
    0x00), and it stops reading at the first one: what it took from the
    gateway is the deliveries up to and including that packet, none of
    the earlier ones being an end of response, and the later deliveries
    are left for the next reader. *)
Theorem LoadConfig_stops_at_end (mem : list Z) (channel paramlist : Z)
    (st : state) (mem' : list Z) (st' : state) :
  LoadConfig mem channel paramlist st = (Ok tt, mem', st') ->
  exists pre t,
    inbox_of st = pre ++ t :: inbox_of st' /\
    ends_response (Addr (dev st)) t = true /\
    Forall (fun r => ends_response (Addr (dev st)) r = false) pre.
Proof.
  unfold LoadConfig, ConfigParamReq. intros H.
  pose proof (send_config_any
                (Z.lor bidcos.DefaultFlags bidcos.Burst)
                [channel; bidcos.ConfigParamReq; 0; 0; 0; 0; paramlist] st)
    as [Hib Ha].
  destruct (send_config _ _ st) as [[[]|e|] st1]; cbn [snd] in *;
    [|discriminate H|discriminate H].
  destruct (readConfig (Addr (dev st1)) (inbox_of st1) mem)
    as [[r mem1] ib1] eqn:Hrc.
  injection H as -> -> <-.
  destruct (readConfig_ends _ _ _ _ _ Hrc) as (pre & t & Hpre & Ht & Hf).
  exists pre, t. rewrite inbox_of_set_inbox, <- Hib, <- Ha. auto.
Qed.

Lemma LoadConfig_stops_at_end_witness :
  let st := device_with
              [ reply_from device 0x10 [0x02; 0x05; 0x07];
                reply_from controller 0x10 [0x02; 0x00; 0x00];
                reply_from device 0x10 [0x03; 0x00];
                reply_from device 0x10 [0x02; 0x00; 0x00] ] in
  let res := LoadConfig (replicate 256 0) 0 7 st in
  exists pre t,
    inbox_of st = pre ++ t :: inbox_of (snd res) /\
    ends_response (Addr (dev st)) t = true /\
    Forall (fun r => ends_response (Addr (dev st)) r = false) pre.
Proof.
  apply (LoadConfig_stops_at_end (replicate 256 0) 0 7
           (device_with
              [ reply_from device 0x10 [0x02; 0x05; 0x07];
                reply_from controller 0x10 [0x02; 0x00; 0x00];
                reply_from device 0x10 [0x03; 0x00];
                reply_from device 0x10 [0x02; 0x00; 0x00] ])
           (snd (fst (LoadConfig (replicate 256 0) 0 7
              (device_with
                 [ reply_from device 0x10 [0x02; 0x05; 0x07];
                   reply_from controller 0x10 [0x02; 0x00; 0x00];
                   reply_from device 0x10 [0x03; 0x00];
                   reply_from device 0x10 [0x02; 0x00; 0x00] ]))))).
  vm_compute. reflexivity.
Defined.

(** The packets of other sources can be taken out of the queue without
    a change to the outcome or to the memory. *)
Lemma readConfig_foreign a ib : forall mem,
  fst (readConfig a (List.filter (relevant a) ib) mem) =
  fst (readConfig a ib mem).
Proof.
  induction ib as [|d ib IH]; intros mem; [reflexivity|].
  cbn [List.filter]. unfold relevant at 1.
  destruct (bidcos.packet_of d) as [pkt|e|] eqn:Hd.
  - destruct (bidcos.addr_eqb (bidcos.Source pkt) a) eqn:Hsrc.
    + cbn [readConfig]. rewrite Hd, Hsrc. cbn [negb].
      destruct (bidcos.Payload pkt) as [|p0 p1]; [reflexivity|].
      destruct (p0 =? bidcos.InfoParamResponsePairs).
      * destruct (bytes_eqb p1 [0; 0]); [reflexivity|].
        destruct (write_pairs p1 mem) as [[[]|e|] mem1];
          [apply IH | reflexivity | reflexivity].
      * destruct (p0 =? bidcos.InfoParamResponseSeq); [|reflexivity].
        destruct p1 as [|start vals]; [reflexivity|].
        destruct (start =? 0); [reflexivity|].
        destruct (write_seq start 0 vals mem) as [[[]|e|] mem1];
          [apply IH | reflexivity | reflexivity].
    + rewrite IH. cbn [readConfig]. rewrite Hd, Hsrc. reflexivity.
  - cbn [readConfig]. rewrite Hd. reflexivity.
  - cbn [readConfig]. rewrite Hd. reflexivity.
Qed.

Lemma send_config_set_inbox flags payload ib st :
  send_config flags payload (set_inbox ib st) =
  (fst (send_config flags payload st),
   set_inbox ib (snd (send_config flags payload st))).
Proof.
  destruct st as [[[[ib0 wf cf sn] [[s0 s1] s2]] [[a0 a1] a2] mc] c].
  unfold send_config, bind, count, WritePacket, bidcos.WritePacket,
    bidcos.Encode, bidcos.Gateway_Write, bidcos.Gateway_Confirm, set_inbox.
  simpl. destruct (mc =? 0); simpl;
    destruct wf as [|[|] wf]; simpl; destruct cf as [|[|] cf]; reflexivity.
Qed.

(** X20.  Packets of other sources do not matter to [LoadConfig]: with
    every decodable packet of another source taken out of the queue, it
    gives the same outcome and the same memory.  Such packets are
    dropped unseen, wherever they stand between the replies. *)
Theorem LoadConfig_ignores_foreign (mem : list Z) (channel paramlist : Z)
    (st : state) :
  fst (LoadConfig mem channel paramlist
         (set_inbox (List.filter (relevant (Addr (dev st))) (inbox_of st)) st))
  = fst (LoadConfig mem channel paramlist st).
Proof.
  unfold LoadConfig, ConfigParamReq.
  rewrite send_config_set_inbox.
  pose proof (send_config_any
                (Z.lor bidcos.DefaultFlags bidcos.Burst)
                [channel; bidcos.ConfigParamReq; 0; 0; 0; 0; paramlist] st)
    as [Hib Ha].
  destruct (send_config _ _ st) as [[[]|e|] st1]; cbn [fst snd] in *;
    [|reflexivity|reflexivity].
  rewrite inbox_of_set_inbox.
  assert (Ha' : Addr (dev (set_inbox
                  (List.filter (relevant (Addr (dev st))) (inbox_of st)) st1))
                = Addr (dev st1)) by reflexivity.
  rewrite Ha', <- Ha, <- Hib.
  pose proof (readConfig_foreign (Addr (dev st1)) (inbox_of st1) mem) as Hf.
  destruct (readConfig (Addr (dev st1))
              (List.filter (relevant (Addr (dev st1))) (inbox_of st1)) mem)
    as [[r1 m1] i1].
  destruct (readConfig (Addr (dev st1)) (inbox_of st1) mem) as [[r2 m2] i2].
  cbn [fst] in *. exact Hf.
Qed.

(** The pairs of the diff loop, read as a memory update. *)
Lemma diff_loop_acc devmem target n : forall i pairs,
  diff_loop n i devmem target pairs =
  pairs ++ diff_loop n i devmem target [].
Proof.
  induction n as [|n IH]; intros i pairs; cbn [diff_loop].
  - now rewrite app_nil_r.
  - rewrite IH.
    rewrite (IH (S i) (if nth i devmem 0 =? nth i target 0 then []
                       else [] ++ [wrap8 (Z.of_nat i); nth i target 0])).
    destruct (nth i devmem 0 =? nth i target 0).
    + reflexivity.
    + now rewrite <- app_assoc.
Qed.

Lemma last_value_cons2 idx val kv j :
  last_value (idx :: val :: kv) j =
  match last_value kv j with
  | Some v => Some v
  | None => if (Z.to_nat idx =? j)%nat then Some val else None
  end.
Proof. reflexivity. Qed.

Lemma diff_loop_last_value devmem target n : forall i j,
  (i + n <= 256)%nat ->
  last_value (diff_loop n i devmem target []) j =
  if ((i <=? j)%nat && (j <? i + n)%nat
      && negb (nth j devmem 0 =? nth j target 0))%bool
  then Some (nth j target 0) else None.
Proof.
  induction n as [|n IH]; intros i j Hi.
  - cbn [diff_loop last_value].
    destruct (Nat.leb_spec i j); destruct (Nat.ltb_spec j (i + 0));
      try reflexivity; lia.
  - cbn [diff_loop]. rewrite diff_loop_acc.
    specialize (IH (S i) j ltac:(lia)).
    destruct (nth i devmem 0 =? nth i target 0) eqn:Hd.
    + cbn [app]. rewrite IH.
      destruct (Nat.leb_spec (S i) j); destruct (Nat.ltb_spec j (S i + n));
        destruct (Nat.leb_spec i j); destruct (Nat.ltb_spec j (i + S n));
        cbn [andb]; try reflexivity; try lia.
      assert (j = i) by lia. subst j. rewrite Hd. reflexivity.
    + cbn [app]. rewrite last_value_cons2, IH.
      assert (Hw : Z.to_nat (wrap8 (Z.of_nat i)) = i).
      { rewrite wrap8_small by (unfold is_byte; lia). apply Nat2Z.id. }
      rewrite Hw.
      destruct (Nat.leb_spec (S i) j); destruct (Nat.ltb_spec j (S i + n));
        destruct (Nat.leb_spec i j); destruct (Nat.ltb_spec j (i + S n));
        cbn [andb]; try lia;
        try (destruct (negb (nth j devmem 0 =? nth j target 0)); [reflexivity|]);
        destruct (Nat.eqb_spec i j); try lia; try reflexivity.
      subst j. rewrite Hd. reflexivity.
Qed.

Lemma diff_loop_indices devmem target n : forall i,
  (i + n <= 256)%nat ->
  Forall (fun k => (k < 256)%nat)
         (pair_indices (diff_loop n i devmem target [])) /\
  Nat.Even (length (diff_loop n i devmem target [])).
Proof.
  induction n as [|n IH]; intros i Hi.
  - cbn. split; [constructor | exists 0%nat; reflexivity].
  - cbn [diff_loop]. rewrite diff_loop_acc.
    destruct (IH (S i) ltac:(lia)) as [Hf [k Hk]].
    destruct (nth i devmem 0 =? nth i target 0).
    + cbn [app]. split; [exact Hf | now exists k].
    + cbn [app pair_indices length]. split.
      * constructor; [|exact Hf].
        rewrite wrap8_small by (unfold is_byte; lia). lia.
      * exists (S k). lia.
Qed.

(** Pairs whose indices are below 256 are applied to a memory of 256
    bytes without a panic. *)
Lemma write_pairs_last kv : forall mem,
  Forall (fun k => (k < 256)%nat) (pair_indices kv) ->
  Nat.Even (length kv) -> length mem = 256%nat ->
  exists mem',
    write_pairs kv mem = (Ok tt, mem') /\
    length mem' = 256%nat /\
    forall j : nat,
      mem' !! j = match last_value kv j with
                  | Some v => Some v
                  | None => mem !! j
                  end.
Proof.
  induction kv as [|x|idx val kv IH] using pair_ind; intros mem Hb He Hl.
  - exists mem. simpl. auto.
  - destruct He as [k Hk]. simpl in Hk. lia.
  - cbn [pair_indices] in Hb. inversion Hb as [|? ? Hidx Hb']; subst.
    cbn [write_pairs]. unfold store.
    destruct (Nat.ltb_spec (Z.to_nat idx) (length mem)) as [_|?]; [|lia].
    destruct (IH (<[Z.to_nat idx := val]> mem)) as (mem' & Hw & Hl' & Hv).
    + exact Hb'.
    + destruct He as [k Hk]. simpl in Hk. exists (k - 1)%nat. lia.
    + now rewrite length_insert.
    + exists mem'. split; [exact Hw|]. split; [exact Hl'|].
      intros j. rewrite Hv. cbn [last_value].
      destruct (last_value kv j); [reflexivity|].
      destruct (Nat.eqb_spec (Z.to_nat idx) j) as [Heq|Hne].
      * rewrite <- Heq. apply list_lookup_insert_eq. lia.
      * now apply list_lookup_insert_ne.
Qed.

(** Applying the pairs of the diff loop to the loaded memory gives the
    target. *)
Lemma diff_loop_applies devmem target :
  length devmem = 256%nat -> length target = 256%nat ->
  write_pairs (diff_loop (length devmem) 0 devmem target []) devmem =
  (Ok tt, target).
Proof.
  intros Hd Ht. rewrite Hd.
  destruct (diff_loop_indices devmem target 256 0 ltac:(lia)) as [Hi He].
  destruct (write_pairs_last _ devmem Hi He Hd) as (mem' & -> & Hl & Hv).
  f_equal. apply list_eq. intros j. rewrite Hv.
  rewrite diff_loop_last_value by lia.
  destruct (Nat.ltb_spec j 256) as [Hj|Hj].
  - cbn [Nat.leb Nat.add andb].
    assert (Hlt : (j <? 256)%nat = true) by (apply Nat.ltb_lt; lia).
    rewrite Hlt. cbn [andb].
    destruct (lookup_lt_is_Some_2 devmem j ltac:(lia)) as [x Hx].
    destruct (lookup_lt_is_Some_2 target j ltac:(lia)) as [y Hy].
    rewrite (nth_lookup_Some _ _ 0 _ Hx), (nth_lookup_Some _ _ 0 _ Hy).
    rewrite Hy. destruct (Z.eqb_spec x y) as [->|Hne]; [exact Hx | reflexivity].
  - replace (((0 <=? j)%nat && (j <? 0 + 256)%nat)%bool) with false.
    + cbn [andb]. rewrite !lookup_ge_None_2 by lia. reflexivity.
    + symmetry. apply andb_false_iff. right. apply Nat.ltb_ge. lia.
Qed.

(** The chunks of 14 the send loop cuts cover the pairs. *)
Lemma chunks_concat (pairs : list Z) n : forall i,
  concat (map (fun k => take 14 (drop (14 * k) pairs)) (seq i n)) =
  take (14 * n) (drop (14 * i) pairs).
Proof.
  induction n as [|n IH]; intros i.
  - now rewrite Nat.mul_0_r, take_0.
  - cbn [seq map concat]. rewrite IH.
    replace (14 * S n)%nat with (14 + 14 * n)%nat by lia.
    replace (drop (14 * S i) pairs) with (drop 14 (drop (14 * i) pairs))
      by (rewrite drop_drop; f_equal; lia).
    apply take_take_drop.
Qed.

Lemma filter_writes start writes finish :
  is_write_index start = false -> is_write_index finish = false ->
  Forall (fun bs => is_write_index bs = true) writes ->
  List.filter is_write_index (start :: writes ++ [finish]) = writes.
Proof.
  intros Hs Hf Hw. cbn [List.filter]. rewrite Hs.
  induction Hw as [|w ws Hw _ IH]; cbn [app List.filter].
  - now rewrite Hf.
  - now rewrite Hw, IH.
Qed.

(** X21.  What [EnsureConfigured] writes brings the device to the target
    memory: the key/value bytes of its write packets, put together in
    the order written and applied as (index, value) pairs to the memory
    that was loaded, give exactly the memory the mutator returned.  The
    mutator keeps the 256 bytes of the memory, as a Go function that is
    handed a slice does. *)
Theorem EnsureConfigured_reaches_target (channel paramlist : Z)
    (cb : list Z -> option (list Z)) (st st1 st' : state)
    (devmem target : list Z) :
  LoadConfig (replicate 256 0) channel paramlist st = (Ok tt, devmem, st1) ->
  cb devmem = Some target ->
  length target = 256%nat ->
  EnsureConfigured channel paramlist cb st = (Ok tt, st') ->
  exists l,
    sent_of st' = sent_of st1 ++ l /\
    write_pairs (concat (map kv_of (List.filter is_write_index l))) devmem
    = (Ok tt, target).
Proof.
  intros HL Hcb Ht H.
  destruct (LoadConfig_keeps_unreported _ _ _ _ _ _ HL) as (_ & _ & Hd & _).
  rewrite length_replicate in Hd.
  pose proof (diff_loop_applies devmem target Hd Ht) as Happ.
  unfold EnsureConfigured in H. rewrite HL, Hcb in H.
  destruct (diff_loop (length devmem) 0 devmem target []) as [|x p] eqn:Hp.
  - injection H as <-. exists []. rewrite app_nil_r. split; [reflexivity|].
    exact Happ.
  - rewrite <- Hp in H, Happ. unfold bind in H.
    set (pairs := diff_loop (length devmem) 0 devmem target []) in *.
    destruct (ConfigStart channel paramlist st1) as [[[]| |] st2] eqn:Hs;
      [|discriminate|discriminate].
    destruct (write_loop _ 0 _ st2) as [[[]| |] st3] eqn:Hw;
      [|discriminate|discriminate].
    apply send_config_ok in Hs as (b1 & p1 & Hs1 & Hd1 & Hc1 & _ & _ & Hp1).
    apply send_config_ok in H as (b3 & p3 & Hs3 & Hd3 & Hc3 & _ & _ & Hp3).
    apply write_loop_sent in Hw as (ws & Hs2 & Hl2 & Hf2 & Hm).
    exists (b1 :: ws ++ [b3]).
    split; [rewrite Hs3, Hs2, Hs1, <- !app_assoc; reflexivity|].
    rewrite filter_writes.
    + rewrite Hm, chunks_concat. rewrite Nat.mul_0_r, drop_0.
      rewrite take_ge; [exact Happ|].
      pose proof (Nat.div_mod_eq (length pairs) 14) as Hdm.
      pose proof (Nat.mod_upper_bound (length pairs) 14 ltac:(lia)) as Hmb.
      destruct (Nat.ltb_spec 0 (length pairs mod 14)); lia.
    + unfold is_write_index. rewrite Hd1, Hc1, Hp1. reflexivity.
    + unfold is_write_index. rewrite Hd3, Hc3, Hp3. reflexivity.
    + eapply Forall_impl; [exact Hf2|]. intros bs [Hb _]. exact Hb.
Qed.

Lemma EnsureConfigured_reaches_target_witness :
  let st := device_with [reply_from device 0x10 [0x02; 0x05; 0x07];
                         reply_from device 0x10 [0x02; 0x00; 0x00]] in
  let load := LoadConfig (replicate 256 0) 0 7 st in
  let devmem := snd (fst load) in
  let target := replicate 8 1 ++ drop 8 devmem in
  exists l,
    sent_of (snd (EnsureConfigured 0 7 (set_first 8) st))
      = sent_of (snd load) ++ l /\
    write_pairs (concat (map kv_of (List.filter is_write_index l))) devmem
    = (Ok tt, target).
Proof.
  cbv zeta.
  apply (EnsureConfigured_reaches_target 0 7 (set_first 8)
           (device_with [reply_from device 0x10 [0x02; 0x05; 0x07];
                         reply_from device 0x10 [0x02; 0x00; 0x00]])).
  - vm_compute. reflexivity.
  - reflexivity.
  - vm_compute. reflexivity.
  - vm_compute. reflexivity.
Defined.

End config_props.

(** ** Peer lists *)

Module peer_props.
Import hm hm_spec hm_props device_spec.

Lemma parse_peers_records ps : forall tail acc,
  Forall (fun p => is_end_record p = false) ps ->
  parse_peers (flat_map peer_record ps ++ tail) acc =
  parse_peers tail (acc ++ ps).
Proof.
  induction ps as [|p ps IH]; intros tail acc Hps.
  - cbn. now rewrite app_nil_r.
  - inversion Hps as [|? ? Hp Hps']; subst.
    destruct p as [[[a b] c] d]. unfold is_end_record, peer_record in Hp.
    cbn [Peer Channel bidcos.addr_bytes app] in Hp.
    cbn [flat_map]. unfold peer_record at 1.
    cbn [Peer Channel bidcos.addr_bytes app parse_peers].
    rewrite Hp. rewrite IH by exact Hps'.
    now rewrite <- app_assoc.
Qed.

(** X22.  One reply of a peer list, read by the loop of
    [EnsurePeeredWith].  The payload after its first byte 0x01 is cut
    into records of four bytes, address and channel; the records before
    the all-zero record are added to the list in their order.  With the
    all-zero record the list is complete, and whatever follows it in the
    reply is ignored; without it the loop goes on with the next
    delivery, and up to three bytes left over that make no record are
    dropped. *)
Theorem readPeers_reply (a : bidcos.addr) (r : bidcos.read_result)
    (ib : list bidcos.read_result) (pkt : bidcos.Packet)
    (ps acc : list FullyQualifiedChannel) (tail : list Z) :
  bidcos.packet_of r = Ok pkt ->
  bidcos.Source pkt = a ->
  bidcos.Payload pkt = 0x01 :: flat_map peer_record ps ++ tail ->
  Forall (fun p => is_end_record p = false) ps ->
  (forall junk, tail = 0x00 :: 0x00 :: 0x00 :: 0x00 :: junk ->
     readPeers a (r :: ib) acc = (Ok (acc ++ ps), ib)) /\
  ((length tail < 4)%nat ->
     readPeers a (r :: ib) acc = readPeers a ib (acc ++ ps)).
Proof.
  intros Hr Hsrc Hp Hps.
  assert (Hsame : bidcos.addr_eqb (bidcos.Source pkt) a = true)
    by now apply addr_eqb_eq.
  split.
  - intros junk ->. cbn [readPeers]. rewrite Hr, Hsame, Hp. cbn [negb].
    change (negb (1 =? 1)) with false. cbv iota.
    rewrite parse_peers_records by exact Hps. reflexivity.
  - intros Hl. cbn [readPeers]. rewrite Hr, Hsame, Hp. cbn [negb].
    change (negb (1 =? 1)) with false. cbv iota.
    rewrite parse_peers_records by exact Hps.
    destruct tail as [|t0 [|t1 [|t2 [|t3 tail]]]];
      try reflexivity. simpl in Hl. lia.
Qed.

Lemma readPeers_reply_witness :
  (forall junk,
     [0x00; 0x00; 0x00; 0x00; 0x99] = 0x00 :: 0x00 :: 0x00 :: 0x00 :: junk ->
     readPeers device
       (reply_from device 0x10
          (0x01 :: flat_map peer_record [mkFQC (0x44, 0x55, 0x66) 0x01]
                ++ [0x00; 0x00; 0x00; 0x00; 0x99]) :: []) []
     = (Ok ([] ++ [mkFQC (0x44, 0x55, 0x66) 0x01]), [])) /\
  ((length [0x00; 0x00; 0x00; 0x00; 0x99] < 4)%nat ->
     readPeers device
       (reply_from device 0x10
          (0x01 :: flat_map peer_record [mkFQC (0x44, 0x55, 0x66) 0x01]
                ++ [0x00; 0x00; 0x00; 0x00; 0x99]) :: []) []
     = readPeers device [] ([] ++ [mkFQC (0x44, 0x55, 0x66) 0x01])).
Proof.
  eapply (readPeers_reply device
            (reply_from device 0x10
               (0x01 :: flat_map peer_record [mkFQC (0x44, 0x55, 0x66) 0x01]
                     ++ [0x00; 0x00; 0x00; 0x00; 0x99]))
            [] _ [mkFQC (0x44, 0x55, 0x66) 0x01] []
            [0x00; 0x00; 0x00; 0x00; 0x99]).
  - reflexivity.
  - reflexivity.
  - reflexivity.
  - repeat constructor.
Defined.

(** X23.  [EnsurePeeredWith] with a peer list that is empty or has more
    than one entry.  With an empty list it sends one request to add the
    wanted peer and succeeds exactly when the next delivery is an
    acknowledgement with status zero.  With two or more peers it gives up
    with the unpeering error and writes nothing after the list request,
    also when the wanted peer is one of them. *)
Theorem EnsurePeeredWith_other_lists (channel : Z)
    (dest : FullyQualifiedChannel) (st0 st1 : state)
    (peers : list FullyQualifiedChannel) (ib' : list bidcos.read_result) :
  ConfigPeerListReq channel st0 = (Ok tt, st1) ->
  readPeers (Addr (dev st1)) (inbox_of st1) [] = (Ok peers, ib') ->
  no_write_failures st1 ->
  let res := EnsurePeeredWith channel dest st0 in
  (peers = [] ->
   (fst res = Ok tt <-> ack_ok 0x02 ib' = true) /\
   (fst res = Ok tt \/ exists e, fst res = Err e) /\
   exists add,
     sent_of (snd res) = sent_of st1 ++ [add] /\
     payload_of add = peer_payload channel bidcos.ConfigPeerAdd dest) /\
  ((2 <= length peers)%nat ->
   res = (Err UnpeeringNotImplemented, set_inbox ib' st1) /\
   sent_of (snd res) = sent_of st1).
Proof.
  intros Hreq Hpeers Hw res.
  assert (Hres : res = reconcile channel dest peers (set_inbox ib' st1)).
  { subst res. unfold EnsurePeeredWith, bind. now rewrite Hreq, Hpeers. }
  rewrite Hres. split.
  - intros ->. unfold reconcile, bind, ConfigPeerAdd.
    destruct (send_config_succeeds
                (Z.lor bidcos.DefaultFlags bidcos.Burst)
                ([channel; bidcos.ConfigPeerAdd]
                   ++ bidcos.addr_bytes (Peer dest) ++ [Channel dest; 0])
                (set_inbox ib' st1)
                (no_write_failures_set_inbox _ _ Hw))
      as (st2 & add & -> & Hw2 & Hib2 & Hs2 & Hp2).
    destruct (expect_ack_spec 0x02 st2) as (Hst3 & Hok3 & Her3).
    rewrite Hib2, inbox_of_set_inbox in Hok3.
    split; [exact Hok3|]. split; [exact Her3|].
    exists add. split; [|exact Hp2].
    rewrite Hst3, sent_of_set_inbox, Hs2, sent_of_set_inbox. reflexivity.
  - intros Hl. destruct peers as [|p1 [|p2 peers]]; simpl in Hl; try lia.
    split; [reflexivity|]. cbn [reconcile snd]. apply sent_of_set_inbox.
Qed.

Lemma EnsurePeeredWith_other_lists_witness :
  let dest := mkFQC (0x11, 0x22, 0x33) 0x02 in
  let acks := [reply_from device 0x02 [0x00]] in
  let st0 := device_with
               (reply_from device 0x10
                  [0x01; 0x11; 0x22; 0x33; 0x02; 0x44; 0x55; 0x66; 0x01;
                   0x00; 0x00; 0x00; 0x00]
                :: acks) in
  let st1 := snd (ConfigPeerListReq 0x02 st0) in
  let peers := [dest; mkFQC (0x44, 0x55, 0x66) 0x01] in
  let res := EnsurePeeredWith 0x02 dest st0 in
  (peers = [] ->
   (fst res = Ok tt <-> ack_ok 0x02 acks = true) /\
   (fst res = Ok tt \/ exists e, fst res = Err e) /\
   exists add,
     sent_of (snd res) = sent_of st1 ++ [add] /\
     payload_of add = peer_payload 0x02 bidcos.ConfigPeerAdd dest) /\
  ((2 <= length peers)%nat ->
   res = (Err UnpeeringNotImplemented, set_inbox acks st1) /\
   sent_of (snd res) = sent_of st1).
Proof.
  cbv zeta.
  apply (EnsurePeeredWith_other_lists 0x02 (mkFQC (0x11, 0x22, 0x33) 0x02)
           (device_with
              (reply_from device 0x10
                 [0x01; 0x11; 0x22; 0x33; 0x02; 0x44; 0x55; 0x66; 0x01;
                  0x00; 0x00; 0x00; 0x00]
               :: [reply_from device 0x02 [0x00]]))).
  - reflexivity.
  - reflexivity.
  - split; reflexivity.
Defined.

End peer_props.

(** ** Weekly programs: bounds and layout *)

Module program_props.
Import thermal thermal_spec thermal_props program_spec.

(** [copy] at an offset inside the memory, whatever room is left. *)
Lemma copy_at_any (mem : list Z) (off : nat) (src : list Z) :
  length src = 26%nat -> (off <= length mem)%nat ->
  exists mem',
    copy_at mem off src = Ok mem' /\
    length mem' = length mem /\
    forall i, (i < off \/ off + 26 <= i)%nat -> mem' !! i = mem !! i.
Proof.
  intros Hs Hl. unfold copy_at.
  destruct (Nat.ltb_spec (length mem) off) as [Hlt|_]; [lia|].
  eexists. split; [reflexivity|].
  assert (Htake : length (take off mem) = off) by (rewrite length_take; lia).
  assert (Hlen : length (take off mem ++ take (length mem - off) src
                           ++ drop (off + length src) mem) = length mem).
  { rewrite !length_app, Htake, length_take, length_drop. lia. }
  split; [exact Hlen|].
  intros i [Hi|Hi].
  - rewrite lookup_app_l by lia. now apply lookup_take_lt.
  - destruct (Nat.le_gt_cases (off + 26) (length mem)) as [Hroom|Hroom].
    + rewrite (take_ge src) by lia.
      rewrite lookup_app_r by lia. rewrite lookup_app_r by lia.
      rewrite lookup_drop, Htake, Hs. f_equal. lia.
    + rewrite (lookup_ge_None_2 mem) by lia.
      apply lookup_ge_None_2. rewrite Hlen. lia.
Qed.

Lemma programs_loop_cases day programs : forall mem,
  match programs_loop day programs mem with
  | Panic =>
    existsb (day_matches day) programs = true /\
    (length mem < programOffsets day)%nat
  | Ok mem' =>
    (existsb (day_matches day) programs = true ->
     (programOffsets day <= length mem)%nat) /\
    length mem' = length mem /\
    forall i, (i < programOffsets day \/ programOffsets day + 26 <= i)%nat ->
              mem' !! i = mem !! i
  | Err _ => False
  end.
Proof.
  induction programs as [|pg rest IH]; intros mem.
  - cbn. split; [discriminate|]. auto.
  - cbn [programs_loop existsb]. fold (day_matches day pg).
    destruct (day_matches day pg); cbn [negb orb].
    + destruct (Nat.le_gt_cases (programOffsets day) (length mem)) as [Hl|Hl].
      * destruct (copy_at_any mem (programOffsets day)
                    (encodeProgramDay (Endtimes pg))
                    (encodeProgramDay_length _) Hl)
          as (mem1 & -> & Hl1 & Hf1).
        specialize (IH mem1).
        destruct (programs_loop day rest mem1) as [mem'|e|].
        -- destruct IH as (_ & Hl' & Hf').
           split; [auto|]. split; [congruence|].
           intros i Hi. rewrite Hf' by exact Hi. now apply Hf1.
        -- exact IH.
        -- split; [reflexivity | lia].
      * unfold copy_at.
        destruct (Nat.ltb_spec (length mem) (programOffsets day)); [|lia].
        split; [reflexivity | lia].
    + apply IH.
Qed.

Lemma days_loop_cases programs days : forall mem,
  match days_loop days programs mem with
  | Panic =>
    exists d, In d days /\ existsb (day_matches d) programs = true /\
              (length mem < programOffsets d)%nat
  | Ok mem' =>
    (forall d, In d days -> existsb (day_matches d) programs = true ->
               (programOffsets d <= length mem)%nat) /\
    length mem' = length mem /\
    forall i,
      (forall d, In d days ->
                 (i < programOffsets d \/ programOffsets d + 26 <= i)%nat) ->
      mem' !! i = mem !! i
  | Err _ => False
  end.
Proof.
  induction days as [|day days IH]; intros mem.
  - cbn. split; [tauto|]. auto.
  - cbn [days_loop].
    pose proof (programs_loop_cases day programs mem) as Hp.
    destruct (programs_loop day programs mem) as [mem1|e|].
    + destruct Hp as (Hb1 & Hl1 & Hf1).
      specialize (IH mem1).
      destruct (days_loop days programs mem1) as [mem'|e|].
      * destruct IH as (Hb' & Hl' & Hf').
        split; [|split; [congruence|]].
        -- intros d [<-|Hd] He; [now apply Hb1|].
           rewrite <- Hl1. now apply Hb'.
        -- intros i Hi. rewrite Hf'.
           ++ apply Hf1. apply Hi. now left.
           ++ intros d Hd. apply Hi. now right.
      * exact IH.
      * destruct IH as (d & Hd & He & Hlt).
        exists d. split; [now right|]. split; [exact He | lia].
    + exact Hp.
    + destruct Hp as [He Hlt]. exists day. split; [now left | auto].
Qed.

Lemma SetPrograms_outside (mem : list Z) (programs : list Program) mem' :
  SetPrograms mem programs = Ok mem' ->
  forall i, (i < 20 \/ 202 <= i)%nat -> mem' !! i = mem !! i.
Proof.
  unfold SetPrograms. fold weekdays. intros Hrun.
  pose proof (days_loop_cases programs weekdays mem) as H.
  rewrite Hrun in H. destruct H as (_ & _ & Hf).
  intros i Hi. apply Hf. intros d Hd.
  unfold weekdays in Hd. cbn [In] in Hd.
  destruct Hd as [<-|[<-|[<-|[<-|[<-|[<-|[<-|[]]]]]]]]; cbn; lia.
Qed.

(** X24.  The bounds of [SetPrograms].  It panics exactly when some
    program matches a day whose offset lies beyond the end of the
    memory, and never returns an error.  When it returns, the memory has
    its length and every byte before offset 20 and from offset 202 on is
    unchanged: only the seven day regions are ever written, and a region
    that does not fit is cut at the end of the memory. *)
Theorem SetPrograms_bounds (mem : list Z) (programs : list Program) :
  (SetPrograms mem programs = Panic <->
   exists d, In d weekdays /\ existsb (day_matches d) programs = true /\
             (length mem < programOffsets d)%nat) /\
  (forall mem', SetPrograms mem programs = Ok mem' ->
     length mem' = length mem /\
     forall i, (i < 20 \/ 202 <= i)%nat -> mem' !! i = mem !! i) /\
  (forall e, SetPrograms mem programs <> Err e).
Proof.
  unfold SetPrograms. fold weekdays.
  pose proof (days_loop_cases programs weekdays mem) as H.
  destruct (days_loop weekdays programs mem) as [mem1|e|].
  - destruct H as (Hb & Hl & Hf). split; [|split].
    + split; [discriminate|].
      intros (d & Hd & He & Hlt). specialize (Hb d Hd He). lia.
    + intros mem' [= <-]. split; [exact Hl|].
      intros i Hi. apply Hf. intros d Hd.
      unfold weekdays in Hd. cbn [In] in Hd.
      destruct Hd as [<-|[<-|[<-|[<-|[<-|[<-|[<-|[]]]]]]]]; cbn; lia.
    + discriminate.
  - destruct H.
  - split; [|split].
    + split; [intros _; exact H | reflexivity].
    + discriminate.
    + discriminate.
Qed.

Lemma in_range (n : nat) (x : Z) :
  0 <= x < Z.of_nat n -> In x (map Z.of_nat (seq 0 n)).
Proof.
  intros H. apply in_map_iff. exists (Z.to_nat x).
  split; [lia | apply in_seq; lia].
Qed.

Lemma entry_bytes_ok e5 t2 :
  0 <= e5 < 512 -> 0 <= t2 < 64 -> entry_ok e5 t2 = true.
Proof.
  intros He Ht.
  assert (H : forallb (fun e => forallb (entry_ok e)
                                  (map Z.of_nat (seq 0 64)))
                      (map Z.of_nat (seq 0 512)) = true)
    by (vm_compute; reflexivity).
  rewrite forallb_forall in H.
  specialize (H e5 (in_range 512 e5 He)).
  rewrite forallb_forall in H.
  exact (H t2 (in_range 64 t2 Ht)).
Qed.

Lemma half_degrees_doubled k : 1 <= k < 64 -> half_degrees_ok k = true.
Proof.
  intros Hk.
  assert (H : forallb (fun k => (k =? 0) || half_degrees_ok k)
                      (map Z.of_nat (seq 0 64)) = true)
    by (vm_compute; reflexivity).
  rewrite forallb_forall in H.
  specialize (H k (in_range 64 k ltac:(lia))).
  destruct (Z.eqb_spec k 0); [lia | exact H].
Qed.

(** X25.  The layout of a program entry.  For an end time below 2560
    minutes and a temperature of k half degrees, k from 1 to 63, the two
    bytes hold the end time in units of five minutes as a nine-bit
    number (bit 0 of the first byte, then the second byte) and k in bits
    1 to 6 of the first byte, so both can be read back; bit 7 is never
    set.  An end time of zero is stored as 24:00, that is 288.  The entry
    that is all zero is stored as 24:00 and 17.0 degrees, the bytes 69
    and 32. *)
Theorem encode_entry_fields (endtime k : Z) :
  0 <= endtime < 2560 -> 1 <= k < 64 ->
  let b := encode_entry (mkEntry endtime (half_degrees k)) in
  entry_endtime5 (fst b) (snd b) = (if endtime =? 0 then 288 else endtime / 5) /\
  entry_half_degrees (fst b) = k /\
  0 <= fst b < 128 /\ is_byte (snd b) /\
  encode_entry zeroEntry = (69, 32).
Proof.
  intros He Hk. cbv zeta.
  pose proof (half_degrees_doubled k Hk) as Hh.
  unfold half_degrees_ok in Hh.
  apply andb_prop in Hh as [Hz Ht]. apply negb_true_iff in Hz.
  apply Z.eqb_eq in Ht.
  set (e := if endtime =? 0 then 1440 else endtime).
  assert (He5 : 0 <= e / 5 < 512).
  { subst e. destruct (endtime =? 0).
    - split; [apply Z.div_pos; lia | apply Z.div_lt_upper_bound; lia].
    - split; [apply Z.div_pos; lia | apply Z.div_lt_upper_bound; lia]. }
  assert (Henc : encode_entry (mkEntry endtime (half_degrees k))
                 = entry_bytes (e / 5) k).
  { unfold encode_entry, entry_bytes. cbn [Endtime Temperature].
    rewrite Hz, Ht. fold e. rewrite (Z.mod_small (e / 5)) by lia.
    reflexivity. }
  rewrite Henc.
  pose proof (entry_bytes_ok (e / 5) k He5 ltac:(lia)) as Hok.
  unfold entry_ok in Hok. destruct (entry_bytes (e / 5) k) as [b0 b1].
  cbn [fst snd].
  repeat (apply andb_prop in Hok as [Hok ?]).
  repeat match goal with
  | H : (_ =? _) = true |- _ => apply Z.eqb_eq in H
  | H : (_ <=? _) = true |- _ => apply Z.leb_le in H
  | H : (_ <? _) = true |- _ => apply Z.ltb_lt in H
  end.
  split.
  - rewrite Hok. subst e. destruct (endtime =? 0); reflexivity.
  - split; [assumption|]. split; [lia|]. split; [unfold is_byte; lia|].
    vm_compute. reflexivity.
Qed.

Lemma encode_entry_fields_witness :
  let b := encode_entry (mkEntry 1020 (half_degrees 50)) in
  entry_endtime5 (fst b) (snd b) = (if 1020 =? 0 then 288 else 1020 / 5) /\
  entry_half_degrees (fst b) = 50 /\
  0 <= fst b < 128 /\ is_byte (snd b) /\
  encode_entry zeroEntry = (69, 32).
Proof.
  apply (encode_entry_fields 1020 50); lia.
Defined.

(** A memory cut at the boundaries of the seven day regions. *)
Lemma split_regions (l : list Z) :
  l = take 20 l ++ region 20 l ++ region 46 l ++ region 72 l ++ region 98 l
        ++ region 124 l ++ region 150 l ++ region 176 l ++ drop 202 l.
Proof.
  unfold region.
  rewrite <- (take_drop 20 l) at 1. f_equal.
  rewrite <- (take_drop 26 (drop 20 l)) at 1. f_equal. rewrite drop_drop.
  rewrite <- (take_drop 26 (drop (20 + 26) l)) at 1. f_equal. rewrite drop_drop.
  rewrite <- (take_drop 26 (drop (20 + 26 + 26) l)) at 1. f_equal.
  rewrite drop_drop.
  rewrite <- (take_drop 26 (drop (20 + 26 + 26 + 26) l)) at 1. f_equal.
  rewrite drop_drop.
  rewrite <- (take_drop 26 (drop (20 + 26 + 26 + 26 + 26) l)) at 1. f_equal.
  rewrite drop_drop.
  rewrite <- (take_drop 26 (drop (20 + 26 + 26 + 26 + 26 + 26) l)) at 1.
  f_equal. rewrite drop_drop.
  rewrite <- (take_drop 26 (drop (20 + 26 + 26 + 26 + 26 + 26 + 26) l)) at 1.
  f_equal. rewrite drop_drop. reflexivity.
Qed.

Lemma last_matching_two d p1 p2 :
  last_matching d [p1; p2] =
  if day_matches d p2 then Some p2
  else if day_matches d p1 then Some p1 else None.
Proof. cbn. destruct (day_matches d p2); reflexivity. Qed.

(** The regions of all seven days after [SetPrograms] on a memory that
    holds them. *)
Lemma SetPrograms_regions (mem : list Z) (programs : list Program) :
  (202 <= length mem)%nat ->
  exists mem',
    SetPrograms mem programs = Ok mem' /\
    length mem' = length mem /\
    forall day, In day weekdays ->
      region (programOffsets day) mem' =
      match last_matching day programs with
      | Some pg => encodeProgramDay (Endtimes pg)
      | None => region (programOffsets day) mem
      end.
Proof.
  intros Hlen.
  destruct (days_loop_spec programs weekdays mem) as (mem' & Hrun & Hl & Hd).
  { intros d Hd. simpl in Hd.
    repeat destruct Hd as [<-|Hd]; try contradiction; simpl; lia. }
  exists mem'. split; [exact Hrun|]. split; [exact Hl|].
  intros day Hday.
  apply Hd; [|exact Hday|exact weekdays_NoDup].
  intros d' Hd' Hne. simpl in Hday, Hd'.
  repeat destruct Hday as [<-|Hday]; try contradiction;
    repeat destruct Hd' as [<-|Hd']; try contradiction;
    try congruence;
    unfold programOffsets, Saturday, Sunday, Monday, Tuesday, Wednesday,
      Thursday, Friday; simpl; lia.
Qed.

(** X26.  The week as the control program sets it: one program for the
    weekday mask and one for the weekend mask.  The two masks share no
    day and leave none out, so the memory afterwards is fully
    determined: its first 20 bytes, then the weekend encoding for
    Saturday and for Sunday, then the weekday encoding five times, for
    Monday to Friday, then the bytes from offset 202 on; the order of
    the two programs in the list does not matter. *)
Theorem SetPrograms_week (mem : list Z) (wd we : list ProgramEntry) :
  (202 <= length mem)%nat ->
  let result :=
    take 20 mem
      ++ encodeProgramDay we ++ encodeProgramDay we
      ++ encodeProgramDay wd ++ encodeProgramDay wd ++ encodeProgramDay wd
      ++ encodeProgramDay wd ++ encodeProgramDay wd
      ++ drop 202 mem in
  SetPrograms mem [mkProgram WeekdayMask wd; mkProgram WeekendMask we]
    = Ok result /\
  SetPrograms mem [mkProgram WeekendMask we; mkProgram WeekdayMask wd]
    = Ok result.
Proof.
  intros Hlen result.
  assert (Hgen : forall programs,
    (forall d, In d [Saturday; Sunday] ->
       last_matching d programs = Some (mkProgram WeekendMask we)) ->
    (forall d, In d [Monday; Tuesday; Wednesday; Thursday; Friday] ->
       last_matching d programs = Some (mkProgram WeekdayMask wd)) ->
    SetPrograms mem programs = Ok result).
  { intros programs Hwe Hwd.
    destruct (SetPrograms_regions mem programs Hlen) as (mem' & Hrun & Hl & Hr).
    rewrite Hrun. f_equal.
    pose proof (SetPrograms_outside mem programs mem' Hrun) as Hf.
    rewrite (split_regions mem'). subst result.
    assert (H20 : take 20 mem' = take 20 mem).
    { apply list_eq. intros i.
      destruct (Nat.lt_ge_cases i 20) as [Hi|Hi].
      - rewrite !lookup_take_lt by lia. apply Hf. lia.
      - rewrite !lookup_take_ge by lia. reflexivity. }
    assert (H202 : drop 202 mem' = drop 202 mem).
    { apply list_eq. intros i. rewrite !lookup_drop. apply Hf. lia. }
    rewrite H20, H202.
    pose proof (Hr Saturday ltac:(cbn; tauto)) as H1.
    pose proof (Hr Sunday ltac:(cbn; tauto)) as H2.
    pose proof (Hr Monday ltac:(cbn; tauto)) as H3.
    pose proof (Hr Tuesday ltac:(cbn; tauto)) as H4.
    pose proof (Hr Wednesday ltac:(cbn; tauto)) as H5.
    pose proof (Hr Thursday ltac:(cbn; tauto)) as H6.
    pose proof (Hr Friday ltac:(cbn; tauto)) as H7.
    rewrite Hwe in H1, H2 by (cbn; tauto).
    rewrite Hwd in H3, H4, H5, H6, H7 by (cbn; tauto).
    cbn [Endtimes] in *.
    change (programOffsets Saturday) with 20%nat in H1.
    change (programOffsets Sunday) with 46%nat in H2.
    change (programOffsets Monday) with 72%nat in H3.
    change (programOffsets Tuesday) with 98%nat in H4.
    change (programOffsets Wednesday) with 124%nat in H5.
    change (programOffsets Thursday) with 150%nat in H6.
    change (programOffsets Friday) with 176%nat in H7.
    rewrite H1, H2, H3, H4, H5, H6, H7. reflexivity. }
  split; apply Hgen; intros d Hd; cbn [In] in Hd;
    rewrite last_matching_two;
    repeat destruct Hd as [<-|Hd]; try contradiction; reflexivity.
Qed.

Lemma SetPrograms_week_witness :
  let result :=
    take 20 (replicate 256 0xff)
      ++ encodeProgramDay [] ++ encodeProgramDay []
      ++ encodeProgramDay [mkEntry 360 (half_degrees 34)]
      ++ encodeProgramDay [mkEntry 360 (half_degrees 34)]
      ++ encodeProgramDay [mkEntry 360 (half_degrees 34)]
      ++ encodeProgramDay [mkEntry 360 (half_degrees 34)]
      ++ encodeProgramDay [mkEntry 360 (half_degrees 34)]
      ++ drop 202 (replicate 256 0xff) in
  SetPrograms (replicate 256 0xff)
    [mkProgram WeekdayMask [mkEntry 360 (half_degrees 34)];
     mkProgram WeekendMask []] = Ok result /\
  SetPrograms (replicate 256 0xff)
    [mkProgram WeekendMask [];
     mkProgram WeekdayMask [mkEntry 360 (half_degrees 34)]] = Ok result.
Proof.
  apply (SetPrograms_week (replicate 256 0xff)
           [mkEntry 360 (half_degrees 34)] []).
  rewrite length_replicate. lia.
Defined.

End program_props.

(** ** Events of the wall thermostat and of the power switch *)

Module event_props.
Import decoder_spec event_spec.










(** A byte shifted up and ORed with lower bytes is a sum. *)
Lemma lor_shiftl_add a b n :
  0 <= n -> 0 <= b < 2 ^ n -> Z.lor (Z.shiftl a n) b = a * 2 ^ n + b.
Proof.
  intros Hn Hb. rewrite Z.shiftl_mul_pow2 by lia.
  assert (Hland : Z.land (a * 2 ^ n) b = 0).
  { apply Z.bits_inj'. intros i Hi. rewrite Z.land_spec, Z.bits_0.
    destruct (Z.lt_ge_cases i n) as [Hlt|Hge].
    - rewrite Z.mul_pow2_bits_low by lia. reflexivity.
    - destruct (Z.eq_dec b 0) as [->|Hb0].
      + rewrite Z.bits_0. apply andb_false_r.
      + rewrite (Z.bits_above_log2 b i); [apply andb_false_r | lia |].
        apply Z.lt_le_trans with n; [|exact Hge].
        apply Z.log2_lt_pow2; lia. }
  rewrite (Z.add_nocarry_lxor _ _ Hland). symmetry. now apply Z.lxor_lor.
Qed.

Lemma be2_lor hi lo :
  is_byte lo -> Z.lor (Z.shiftl hi 8) lo = be2 hi lo.
Proof.
  intros H. unfold be2, is_byte in *. rewrite lor_shiftl_add; lia.
Qed.

Lemma be3_lor hi mid lo :
  0 <= hi -> is_byte mid -> is_byte lo ->
  Z.lor (Z.lor (Z.shiftl hi 16) (Z.shiftl mid 8)) lo = be3 hi mid lo.
Proof.
  intros Hh Hm Hl. unfold be3, is_byte in *.
  change 16 with (8 + 8). rewrite <- (Z.shiftl_shiftl hi 8 8) by lia.
  rewrite <- Z.shiftl_lor.
  rewrite (lor_shiftl_add hi mid 8) by lia.
  rewrite (lor_shiftl_add _ lo 8) by lia. lia.
Qed.

(** X29.  The power event, for a payload of eleven bytes.  The boot flag
    is bit 7 of byte 0; the energy counter is the 23-bit number of the
    other bits of byte 0 and of bytes 1 and 2, in tenths, so it does not
    depend on the boot flag; power is the 24-bit number of bytes 3 to 5
    in hundredths; current the 16-bit number of bytes 6 and 7; voltage
    the 16-bit number of bytes 8 and 9 in tenths.  The frequency is 50
    plus byte 10 in hundredths, where byte 10 counts as a number from 0
    to 255: the offset is never negative. *)
Theorem DecodePowerEvent_fields (p0 p1 p2 p3 p4 p5 p6 p7 p8 p9 p10 : Z) :
  is_byte p0 -> is_byte p1 -> is_byte p2 -> is_byte p3 -> is_byte p4 ->
  is_byte p5 -> is_byte p6 -> is_byte p7 -> is_byte p8 -> is_byte p9 ->
  is_byte p10 ->
  exists pe,
    power.DecodePowerEvent [p0; p1; p2; p3; p4; p5; p6; p7; p8; p9; p10]
      = Ok pe /\
    power.Boot pe = (128 <=? p0) /\
    power.EnergyCounter pe
      = f64.div (f64.of_Z (be3 (p0 mod 128) p1 p2)) (f64.of_Z 10) /\
    power.Power pe = f64.div (f64.of_Z (be3 p3 p4 p5)) (f64.of_Z 100) /\
    power.Current pe = f64.of_Z (be2 p6 p7) /\
    power.Voltage pe = f64.div (f64.of_Z (be2 p8 p9)) (f64.of_Z 10) /\
    power.Frequency pe
      = f64.add (f64.div (f64.of_Z p10) (f64.of_Z 100)) (f64.of_Z 50) /\
    sign_clear (f64.div (f64.of_Z p10) (f64.of_Z 100)).
Proof.
  intros H0 H1 H2 H3 H4 H5 H6 H7 H8 H9 H10.
  eexists. split; [reflexivity|].
  cbn [power.Boot power.EnergyCounter power.Power power.Current
       power.Voltage power.Frequency].
  unfold power.energy_raw, power.power_raw, power.current_raw,
    power.voltage_raw, hm.Mask7Bit, hm.Mask1Bit.
  assert (Hm : Z.land p0 0x7F = p0 mod 128).
  { change 0x7F with (Z.ones 7). now rewrite Z.land_ones by lia. }
  assert (Hmr : 0 <= p0 mod 128 < 128) by (apply Z.mod_pos_bound; lia).
  rewrite Hm, !be2_lor, !be3_lor by (unfold is_byte in *; lia).
  split.
  - change 0x1 with (Z.ones 1). rewrite Z.land_ones by lia.
    rewrite Z.shiftr_div_pow2 by lia. unfold is_byte in H0.
    change (2 ^ 7) with 128. change (2 ^ 1) with 2.
    change (Z.ones 1) with 1.
    assert (Hq : 0 <= p0 / 128 < 2).
    { split; [apply Z.div_pos; lia | apply Z.div_lt_upper_bound; lia]. }
    rewrite (Z.mod_small (p0 / 128)) by lia.
    pose proof (Z.div_mod p0 128 ltac:(lia)).
    destruct (Z.leb_spec 128 p0); destruct (Z.eqb_spec (p0 / 128) 1);
      try reflexivity; lia.
  - repeat (split; [reflexivity|]).
    apply decoder_props.div_sign_clear.
    apply decoder_props.of_Z_sign_clear. unfold is_byte in H10. lia.
Qed.

Lemma DecodePowerEvent_fields_witness :
  exists pe,
    power.DecodePowerEvent [128; 3; 138; 0; 0; 187; 0; 16; 9; 8; 255] = Ok pe /\
    power.Boot pe = (128 <=? 128) /\
    power.EnergyCounter pe
      = f64.div (f64.of_Z (be3 (128 mod 128) 3 138)) (f64.of_Z 10) /\
    power.Power pe = f64.div (f64.of_Z (be3 0 0 187)) (f64.of_Z 100) /\
    power.Current pe = f64.of_Z (be2 0 16) /\
    power.Voltage pe = f64.div (f64.of_Z (be2 9 8)) (f64.of_Z 10) /\
    power.Frequency pe
      = f64.add (f64.div (f64.of_Z 255) (f64.of_Z 100)) (f64.of_Z 50) /\
    sign_clear (f64.div (f64.of_Z 255) (f64.of_Z 100)).
Proof.
  apply (DecodePowerEvent_fields 128 3 138 0 0 187 0 16 9 8 255);
    unfold is_byte; lia.
Defined.

(** The payload of the test of the repository decodes to the values the
    test expects. *)
Example DecodePowerEvent_test_vector :
  power.DecodePowerEvent [128; 3; 138; 0; 0; 187; 0; 16; 9; 8; 255]
  = Ok (power.mkPowerEvent true f64_90_6 f64_1_87 f64_16 f64_231_2 f64_52_55).
Proof. vm_compute. reflexivity. Qed.

Lemma shiftr_mask_top x s n :
  0 <= s -> 0 <= n -> 0 <= x < 2 ^ (s + n) ->
  Z.land (Z.shiftr x s) (Z.ones n) = x / 2 ^ s.
Proof.
  intros Hs Hn Hx. rewrite Z.land_ones by lia.
  rewrite Z.shiftr_div_pow2 by lia. apply Z.mod_small.
  split; [apply Z.div_pos; [lia | apply Z.pow_pos_nonneg; lia]|].
  apply Z.div_lt_upper_bound; [apply Z.pow_pos_nonneg; lia|].
  rewrite <- Z.pow_add_r by lia. lia.
Qed.

(** X30.  The info event of the radiator thermostat, for a payload of
    six bytes: how the fields cut the bytes.  The set temperature is the
    upper six bits of byte 1 in half degrees; byte 3 splits into the
    fault, its upper three bits, and the battery state, its lower five
    bits in tenths of a volt above 1.5; the valve state is byte 4
    without its top bit; byte 5 splits into the control mode, its upper
    two bits, and the boost state, its lower six bits.  Bytes 3 and 5 can
    be put together again from their two fields. *)
Theorem DecodeInfoEvent_fields (p0 p1 p2 p3 p4 p5 : Z) :
  is_byte p1 -> is_byte p3 -> is_byte p4 -> is_byte p5 ->
  exists ie,
    heating.DecodeInfoEvent [p0; p1; p2; p3; p4; p5] = Ok ie /\
    heating.SetTemperature ie = f64.div (f64.of_Z (p1 / 4)) (f64.of_Z 2) /\
    heating.Fault ie = p3 / 32 /\
    heating.BatteryState ie =
      f64.add (f64.div (f64.of_Z (p3 mod 32)) (f64.of_Z 10))
              f64.one_and_a_half /\
    heating.Fault ie * 32 + p3 mod 32 = p3 /\
    heating.ValveState ie = p4 mod 128 /\
    heating.Control ie = p5 / 64 /\
    heating.BoostState ie = p5 mod 64 /\
    heating.Control ie * 64 + heating.BoostState ie = p5 /\
    0 <= heating.Fault ie < 8 /\ 0 <= heating.ValveState ie < 128 /\
    0 <= heating.Control ie < 4 /\ 0 <= heating.BoostState ie < 64.
Proof.
  intros H1 H3 H4 H5. unfold is_byte in *.
  eexists. split; [reflexivity|].
  cbn [heating.SetTemperature heating.Fault heating.BatteryState
       heating.ValveState heating.Control heating.BoostState].
  unfold hm.Mask6Bit, hm.Mask3Bit, hm.Mask5Bit, hm.Mask7Bit, hm.Mask2Bit.
  change (Z.land (Z.shiftr p1 2) 0x3F)
    with (Z.land (Z.shiftr p1 2) (Z.ones 6)).
  change (Z.land (Z.shiftr p3 5) 0x7) with (Z.land (Z.shiftr p3 5) (Z.ones 3)).
  change (Z.land (Z.shiftr p5 6) 0x3) with (Z.land (Z.shiftr p5 6) (Z.ones 2)).
  change (Z.land p3 0x1F) with (Z.land p3 (Z.ones 5)).
  change (Z.land p4 0x7F) with (Z.land p4 (Z.ones 7)).
  change (Z.land p5 0x3F) with (Z.land p5 (Z.ones 6)).
  rewrite (shiftr_mask_top p1 2 6), (shiftr_mask_top p3 5 3),
    (shiftr_mask_top p5 6 2) by (simpl; lia).
  rewrite !Z.land_ones by lia.
  change (2 ^ 2) with 4. change (2 ^ 5) with 32. change (2 ^ 6) with 64.
  change (2 ^ 7) with 128.
  pose proof (Z.div_mod p3 32 ltac:(lia)).
  pose proof (Z.mod_pos_bound p3 32 ltac:(lia)).
  pose proof (Z.div_mod p5 64 ltac:(lia)).
  pose proof (Z.mod_pos_bound p5 64 ltac:(lia)).
  pose proof (Z.mod_pos_bound p4 128 ltac:(lia)).
  repeat split; try reflexivity; try lia.
Qed.

Lemma DecodeInfoEvent_fields_witness :
  exists ie,
    heating.DecodeInfoEvent [0x0a; 0xb0; 0xe2; 0x08; 0x00; 0x00] = Ok ie /\
    heating.SetTemperature ie = f64.div (f64.of_Z (0xb0 / 4)) (f64.of_Z 2) /\
    heating.Fault ie = 0x08 / 32 /\
    heating.BatteryState ie =
      f64.add (f64.div (f64.of_Z (0x08 mod 32)) (f64.of_Z 10))
              f64.one_and_a_half /\
    heating.Fault ie * 32 + 0x08 mod 32 = 0x08 /\
    heating.ValveState ie = 0x00 mod 128 /\
    heating.Control ie = 0x00 / 64 /\
    heating.BoostState ie = 0x00 mod 64 /\
    heating.Control ie * 64 + heating.BoostState ie = 0x00 /\
    0 <= heating.Fault ie < 8 /\ 0 <= heating.ValveState ie < 128 /\
    0 <= heating.Control ie < 4 /\ 0 <= heating.BoostState ie < 64.
Proof.
  apply (DecodeInfoEvent_fields 0x0a 0xb0 0xe2 0x08 0x00 0x00);
    unfold is_byte; lia.
Defined.

End event_props.
